(** * evalexpr: a shallow embedding of [evalexpr.py]

    The development follows the three stages of the script: the lexer
    ([Lexer]), the recursive-descent compiler that appends instructions to
    the tape [code] ([parse_program] and its helpers), and the stack machine
    [evaluate] with its table [BINARY].

    Modelling choices, all local to this file:
    - Python [int]s are [Z]; Python [float]s are binary64 numbers given by
      the Standard Library's [spec_float] with precision 53 and [emax] 1024,
      whose operations round to nearest-even as CPython's do.
    - The operand stack is a Rocq list whose head is the top of the Python
      list ([append] is a cons, [pop] takes the head).
    - The environment [env] is a [gmap] from names to values.
    - The source text is ASCII: [str.isspace], [str.isalpha] and
      [str.isdigit] are given their ASCII meaning.
    - The host's [math.sin] is a parameter [py_sin] of the machine; [print]
      records its argument list in an output trace.
    - The host is a CPython with the default limit of 4300 digits on the
      conversion of an [int] from and to a decimal string: [int(number)] in
      the lexer and [str] in [print] raise [ValueError] beyond it.
    - The mutually recursive parser takes a fuel argument; running out of it
      is the outcome [NoFuel], which the Python code does not have. *)

From Stdlib Require Import ZArith String Ascii DecimalString.
From Stdlib Require Import Floats.SpecFloat.
From stdpp Require Import base gmap list strings.

Set Warnings "-register-all".
Open Scope Z_scope.

(** ** Runtime values *)

Inductive builtin := BSin | BPrint.

Definition builtin_eqb (f g : builtin) : bool :=
  match f, g with
  | BSin, BSin | BPrint, BPrint => true
  | _, _ => false
  end.

(** The Python objects that reach the operand stack: numbers, booleans,
    [None], lists (argument lists of calls), strings (the variable names
    pushed by [LValue]) and the two host functions. *)
Inductive value :=
  | VInt (z : Z)
  | VFloat (f : spec_float)
  | VBool (b : bool)
  | VNone
  | VList (l : list value)
  | VStr (s : string)
  | VFun (f : builtin).

(** Python exceptions raised while the tape runs. *)
Inductive rfault :=
  | Underflow                (** IndexError: pop from empty list *)
  | NameFault (x : string)   (** KeyError: [env[cur.name]] unbound *)
  | TypeErr                  (** TypeError *)
  | ZeroDivErr               (** ZeroDivisionError *)
  | OverflowErr              (** OverflowError: int too large for a float *)
  | ValueErr                 (** ValueError: math domain error of sin, or [str]
                                 of an int over the digit limit *)
  | BadInstruction.          (** the final [raise Exception("Bad instruction")] *)

(** A small exception monad for the Python operations. *)
Inductive exn (A : Type) := Val (a : A) | Raise (e : rfault).
Arguments Val {A} a.
Arguments Raise {A} e.

Definition exn_bind {A B} (m : exn A) (k : A -> exn B) : exn B :=
  match m with Val a => k a | Raise e => Raise e end.

Notation "'let?' x := m 'in' k" := (exn_bind m (fun x => k))
  (at level 200, x name, m at level 100, k at level 200).
Notation "'let?' ' p := m 'in' k" :=
  (exn_bind m (fun x => match x with p => k end))
  (at level 200, p pattern, m at level 100, k at level 200).

(** ** Binary64 helpers *)

Definition f64_add := SFadd 53 1024.
Definition f64_sub := SFsub 53 1024.
Definition f64_mul := SFmul 53 1024.
Definition f64_div := SFdiv 53 1024.

Definition is_inf (f : spec_float) : bool :=
  match f with S754_infinity _ => true | _ => false end.

Definition is_zero (f : spec_float) : bool :=
  match f with S754_zero _ => true | _ => false end.

(** An integer as an exact (not necessarily canonical) binary number
    [m * 2^0]; the rounding operations accept such inputs. *)
Definition exact_of_Z (z : Z) : spec_float :=
  match z with
  | Z0 => S754_zero false
  | Zpos p => S754_finite false p 0
  | Zneg p => S754_finite true p 0
  end.

(** [float(z)]: correctly rounded, [OverflowError] beyond the float range. *)
Definition int_to_float (z : Z) : exn spec_float :=
  let f := binary_normalize 53 1024 z 0 false in
  if is_inf f then Raise OverflowErr else Val f.

(** [a / b] on two [int]s: the correctly rounded quotient, [OverflowError]
    when it is beyond the float range. *)
Definition int_truediv (a b : Z) : exn value :=
  if Z.eqb b 0 then Raise ZeroDivErr
  else let q := f64_div (exact_of_Z a) (exact_of_Z b) in
       if is_inf q then Raise OverflowErr else Val (VFloat q).

(** ** Numbers: [bool] is a subclass of [int] *)

Inductive num := NInt (z : Z) | NFlt (f : spec_float).

Definition to_num (v : value) : option num :=
  match v with
  | VInt z => Some (NInt z)
  | VBool b => Some (NInt (Z.b2z b))
  | VFloat f => Some (NFlt f)
  | _ => None
  end.

Definition num_to_float (n : num) : exn spec_float :=
  match n with NInt z => int_to_float z | NFlt f => Val f end.

(** Float arithmetic on mixed operands: both are converted to floats first. *)
Definition float_arith (op : spec_float -> spec_float -> spec_float)
    (a b : num) : exn value :=
  let? fa := num_to_float a in
  let? fb := num_to_float b in
  Val (VFloat (op fa fb)).

(** Exact comparison of an [int] with a float, as CPython's
    [float_richcompare] does; [None] when the float is a NaN. *)
Definition cmp_int_float (z : Z) (f : spec_float) : option comparison :=
  match f with
  | S754_nan => None
  | S754_infinity s => Some (if s then Gt else Lt)
  | S754_zero _ => Some (Z.compare z 0)
  | S754_finite s m e =>
      let sm := if s then Zneg m else Zpos m in
      if Z.leb 0 e then Some (Z.compare z (sm * 2 ^ e))
      else Some (Z.compare (z * 2 ^ (- e)) sm)
  end.

Definition num_compare (a b : num) : option comparison :=
  match a, b with
  | NInt x, NInt y => Some (Z.compare x y)
  | NInt x, NFlt g => cmp_int_float x g
  | NFlt f, NInt y => option_map CompOpp (cmp_int_float y f)
  | NFlt f, NFlt g => SFcompare f g
  end.

(** ** The Python operators used by [BINARY] and [evaluate] *)

(** [x + y] *)
Definition py_add (x y : value) : exn value :=
  match x, y with
  | VList a, VList b => Val (VList (a ++ b))
  | VStr a, VStr b => Val (VStr (a ++ b))
  | _, _ =>
      match to_num x, to_num y with
      | Some (NInt a), Some (NInt b) => Val (VInt (a + b))
      | Some a, Some b => float_arith f64_add a b
      | _, _ => Raise TypeErr
      end
  end.

(** [x - y] *)
Definition py_sub (x y : value) : exn value :=
  match to_num x, to_num y with
  | Some (NInt a), Some (NInt b) => Val (VInt (a - b))
  | Some a, Some b => float_arith f64_sub a b
  | _, _ => Raise TypeErr
  end.

Fixpoint repeat_list {A} (n : nat) (l : list A) : list A :=
  match n with O => [] | S n => l ++ repeat_list n l end.

Fixpoint repeat_str (n : nat) (s : string) : string :=
  match n with O => EmptyString | S n => s ++ repeat_str n s end.

(** [x * y], with sequence repetition for a list or string and an [int]
    (a non-positive count gives the empty sequence). *)
Definition py_mul (x y : value) : exn value :=
  match x, y with
  | VList l, _ =>
      match to_num y with
      | Some (NInt k) => Val (VList (repeat_list (Z.to_nat k) l))
      | _ => Raise TypeErr
      end
  | _, VList l =>
      match to_num x with
      | Some (NInt k) => Val (VList (repeat_list (Z.to_nat k) l))
      | _ => Raise TypeErr
      end
  | VStr s, _ =>
      match to_num y with
      | Some (NInt k) => Val (VStr (repeat_str (Z.to_nat k) s))
      | _ => Raise TypeErr
      end
  | _, VStr s =>
      match to_num x with
      | Some (NInt k) => Val (VStr (repeat_str (Z.to_nat k) s))
      | _ => Raise TypeErr
      end
  | _, _ =>
      match to_num x, to_num y with
      | Some (NInt a), Some (NInt b) => Val (VInt (a * b))
      | Some a, Some b => float_arith f64_mul a b
      | _, _ => Raise TypeErr
      end
  end.

(** [x / y]: true division.  Two [int]s give their correctly rounded
    quotient; otherwise both operands are converted to floats (which may
    raise [OverflowError]) and a zero divisor raises [ZeroDivisionError]. *)
Definition py_truediv (x y : value) : exn value :=
  match to_num x, to_num y with
  | Some (NInt a), Some (NInt b) => int_truediv a b
  | Some a, Some b =>
      let? fa := num_to_float a in
      let? fb := num_to_float b in
      if is_zero fb then Raise ZeroDivErr else Val (VFloat (f64_div fa fb))
  | _, _ => Raise TypeErr
  end.

(** [-x] *)
Definition py_neg (x : value) : exn value :=
  match x with
  | VInt z => Val (VInt (- z))
  | VBool b => Val (VInt (- Z.b2z b))
  | VFloat f => Val (VFloat (SFopp f))
  | _ => Raise TypeErr
  end.

(** [x == y] (object identity is not modelled: a NaN inside a list compares
    unequal to itself). *)
Fixpoint py_eq (x y : value) : bool :=
  match x, y with
  | VList a, VList b =>
      (fix go (a b : list value) : bool :=
         match a, b with
         | [], [] => true
         | u :: a', w :: b' => py_eq u w && go a' b'
         | _, _ => false
         end) a b
  | VStr a, VStr b => String.eqb a b
  | VNone, VNone => true
  | VFun f, VFun g => builtin_eqb f g
  | _, _ =>
      match to_num x, to_num y with
      | Some a, Some b =>
          match num_compare a b with Some Eq => true | _ => false end
      | _, _ => false
      end
  end.

Inductive ord_op := OLt | OGt | OLe | OGe.

Definition ord_holds (o : ord_op) (c : comparison) : bool :=
  match o, c with
  | OLt, Lt | OGt, Gt => true
  | OLe, (Lt | Eq) | OGe, (Gt | Eq) => true
  | _, _ => false
  end.

Fixpoint str_compare (a b : string) : comparison :=
  match a, b with
  | EmptyString, EmptyString => Eq
  | EmptyString, String _ _ => Lt
  | String _ _, EmptyString => Gt
  | String c a', String d b' =>
      match Nat.compare (nat_of_ascii c) (nat_of_ascii d) with
      | Eq => str_compare a' b'
      | r => r
      end
  end.

(** [x < y], [x > y], [x <= y], [x >= y]: numbers compare exactly (a NaN
    makes every ordering false), strings and lists lexicographically (lists
    as CPython's [list_richcompare]: the first unequal items decide, else
    the lengths); every other pair raises [TypeError]. *)
Fixpoint py_order (o : ord_op) (x y : value) : exn bool :=
  match x, y with
  | VList a, VList b =>
      (fix go (a b : list value) : exn bool :=
         match a, b with
         | u :: a', w :: b' => if py_eq u w then go a' b' else py_order o u w
         | _, _ => Val (ord_holds o (Nat.compare (length a) (length b)))
         end) a b
  | VStr a, VStr b => Val (ord_holds o (str_compare a b))
  | _, _ =>
      match to_num x, to_num y with
      | Some a, Some b =>
          match num_compare a b with
          | Some c => Val (ord_holds o c)
          | None => Val false
          end
      | _, _ => Raise TypeErr
      end
  end.

(** [not v] in [OnFalseJump]: Python truthiness. *)
Definition py_truthy (v : value) : bool :=
  match v with
  | VBool b => b
  | VNone => false
  | VInt z => negb (Z.eqb z 0)
  | VFloat f => negb (is_zero f)
  | VList l => match l with [] => false | _ => true end
  | VStr s => match s with EmptyString => false | _ => true end
  | VFun _ => true
  end.

(** ** Instructions of the tape

    The tape [code] holds objects of the classes [RValue], [ID], [LValue],
    [OnFalseJump] and [Jump], and bare strings (["+"], ["NEG"], ["="],
    ["DROP"], ["[]"], ["APPEND"], ["CALL"], the relational operators). *)
Inductive instr :=
  | RValue (v : value)
  | ID (name : string)
  | LValue (name : option string)   (** [LValue(None)] pushes [None] *)
  | OnFalseJump (target : nat)
  | Jump (target : nat)
  | Op (s : string).

(** The output trace: one entry per call of [print], its argument list. *)
Abbreviation output := (list (list value)).

(** CPython's [sys.int_info.default_max_str_digits]. *)
Definition max_str_digits : nat := 4300.

(** [str(v)] in [print] raises [ValueError]: [v] is, or a list holds at
    any depth, an int of more than [max_str_digits] decimal digits. *)
Fixpoint str_too_long (v : value) : bool :=
  match v with
  | VInt z => Z.leb (10 ^ Z.of_nat max_str_digits) (Z.abs z)
  | VList l => existsb str_too_long l
  | _ => false
  end.

(** [*args]: the argument list of a call is unpacked as an iterable. *)
Definition py_unpack (v : value) : exn (list value) :=
  match v with
  | VList l => Val l
  | VStr s => Val (map (fun c => VStr (String c EmptyString)) (list_ascii_of_string s))
  | _ => Raise TypeErr
  end.

Section Machine.

(** The host's [math.sin] on a float; [None] is its [ValueError]
    (math domain error, raised for the infinities). *)
Variable py_sin : spec_float -> option spec_float.

(** [func( *args)] for the two callables of the environment. *)
Definition py_call (f args : value) (o : output) : exn (value * output) :=
  let? l := py_unpack args in
  match f with
  | VFun BSin =>
      match l with
      | [a] =>
          match to_num a with
          | Some n =>
              let? x := num_to_float n in
              match py_sin x with
              | Some r => Val (VFloat r, o)
              | None => Raise ValueErr
              end
          | None => Raise TypeErr
          end
      | _ => Raise TypeErr
      end
  | VFun BPrint => if existsb str_too_long l then Raise ValueErr else Val (VNone, o ++ [l])
  | _ => Raise TypeErr
  end.

Definition pure (f : value -> value -> exn value)
    : value -> value -> output -> exn (value * output) :=
  fun x y o => let? v := f x y in Val (v, o).

Definition py_cmp (o : ord_op) (x y : value) : exn value :=
  let? b := py_order o x y in Val (VBool b).

(** The dictionary [BINARY], in its order. *)
Definition BINARY : list (string * (value -> value -> output -> exn (value * output))) :=
  [ ("+", pure py_add);
    ("-", pure py_sub);
    ("*", pure py_mul);
    ("/", pure py_truediv);
    ("APPEND", pure (fun args arg => py_add args (VList [arg])));
    ("CALL", py_call);
    ("<", pure (py_cmp OLt));
    (">", pure (py_cmp OGt));
    ("<=", pure (py_cmp OLe));
    (">=", pure (py_cmp OGe));
    ("==", pure (fun x y => Val (VBool (py_eq x y))));
    ("!=", pure (fun x y => Val (VBool (negb (py_eq x y))))) ]%string.

Fixpoint assoc {B} (s : string) (l : list (string * B)) : option B :=
  match l with
  | [] => None
  | (k, b) :: l => if String.eqb k s then Some b else assoc s l
  end.

(** The machine state of [evaluate]: [stack], [env] and the output. *)
Record vmst := mkst { stack : list value; env : gmap string value; out : output }.

(** [stack.pop()] *)
Definition pop (s : list value) : exn (value * list value) :=
  match s with [] => Raise Underflow | v :: s => Val (v, s) end.

Inductive vstep :=
  | Next (pc : nat) (σ : vmst)
  | Halt
  | Fault (e : rfault).

Definition exn_step (m : exn (nat * vmst)) : vstep :=
  match m with Val (pc, σ) => Next pc σ | Raise e => Fault e end.

(** One iteration of the [while pc < len(code)] loop of [evaluate].
    [env[varname] = value] with a name that is not a string (a key that no
    [ID] lookup can reach) leaves the string-keyed map unchanged; a list as
    key raises [TypeError] (unhashable). *)
Definition step (code : list instr) (pc : nat) (σ : vmst) : vstep :=
  match code !! pc with
  | None => Halt
  | Some cur =>
      match cur with
      | RValue v => Next (S pc) (mkst (v :: stack σ) (env σ) (out σ))
      | ID name =>
          match env σ !! name with
          | Some v => Next (S pc) (mkst (v :: stack σ) (env σ) (out σ))
          | None => Fault (NameFault name)
          end
      | LValue n =>
          let v := match n with Some x => VStr x | None => VNone end in
          Next (S pc) (mkst (v :: stack σ) (env σ) (out σ))
      | OnFalseJump t =>
          exn_step (
            let? '(v, s) := pop (stack σ) in
            Val (if py_truthy v then S pc else t, mkst s (env σ) (out σ)))
      | Jump t => Next t σ
      | Op s =>
          match assoc s BINARY with
          | Some f =>
              exn_step (
                let? '(y, st) := pop (stack σ) in
                let? '(x, st) := pop st in
                let? '(r, o) := f x y (out σ) in
                Val (S pc, mkst (r :: st) (env σ) o))
          | None =>
              if String.eqb s "NEG" then
                exn_step (
                  let? '(x, st) := pop (stack σ) in
                  let? r := py_neg x in
                  Val (S pc, mkst (r :: st) (env σ) (out σ)))
              else if String.eqb s "=" then
                exn_step (
                  let? '(v, st) := pop (stack σ) in
                  let? '(name, st) := pop st in
                  match name with
                  | VStr x => Val (S pc, mkst (v :: st) (<[x := v]> (env σ)) (out σ))
                  | VList _ => Raise TypeErr
                  | _ => Val (S pc, mkst (v :: st) (env σ) (out σ))
                  end)
              else if String.eqb s "DROP" then
                exn_step (
                  let? '(_, st) := pop (stack σ) in
                  Val (S pc, mkst st (env σ) (out σ)))
              else if String.eqb s "[]" then
                Next (S pc) (mkst (VList [] :: stack σ) (env σ) (out σ))
              else Fault BadInstruction
          end
      end
  end.

Inductive result :=
  | Halted (σ : vmst)
  | Faulted (e : rfault) (σ : vmst).

(** Running the tape from program counter [pc]: [exec code pc σ r] when the
    loop of [evaluate] ends in [r]. *)
Inductive exec (code : list instr) : nat -> vmst -> result -> Prop :=
  | exec_halt pc σ : step code pc σ = Halt -> exec code pc σ (Halted σ)
  | exec_fault pc σ e : step code pc σ = Fault e -> exec code pc σ (Faulted e σ)
  | exec_next pc σ pc' σ' r :
      step code pc σ = Next pc' σ' -> exec code pc' σ' r -> exec code pc σ r.

(** The same loop with a bound on the number of iterations. *)
Fixpoint run (fuel : nat) (code : list instr) (pc : nat) (σ : vmst) : option result :=
  match fuel with
  | O => None
  | S fuel =>
      match step code pc σ with
      | Next pc' σ' => run fuel code pc' σ'
      | Halt => Some (Halted σ)
      | Fault e => Some (Faulted e σ)
      end
  end.

End Machine.

(** The initial [env] of [evaluate]. *)
Definition math_pi : spec_float := S754_finite false 7074237752028440 (-51).
Definition math_e : spec_float := S754_finite false 6121026514868073 (-51).

Definition builtins : gmap string value :=
  <["pi" := VFloat math_pi]> (<["e" := VFloat math_e]>
  (<["sin" := VFun BSin]> (<["print" := VFun BPrint]> ∅)))%string.

Definition init_state (E : gmap string value) : vmst := mkst [] E [].

(** ** Lexer *)

(** Faults of the compilation stage: the script's [SyntaxError], and the
    [AttributeError] raised when a message formats a [Number] token (its
    [__repr__] reads [self.name], an attribute [Number] does not have), and
    the [ValueError] of [int(number)] on more than [max_str_digits] digits. *)
Inductive cfault :=
  | SyntaxError (filename : string) (row col : nat) (message : string)
  | AttributeError
  | ValueError.

Definition nat_str (n : nat) : string := NilEmpty.string_of_uint (Nat.to_uint n).

(** [SyntaxError.message]: ["{filename}:{row}:{col}:{message}"]. *)
Definition fault_message (filename : string) (row col : nat) (message : string) : string :=
  (filename ++ ":" ++ nat_str row ++ ":" ++ nat_str col ++ ":" ++ message)%string.

Inductive outcome (A : Type) := Ok (a : A) | Fail (e : cfault) | NoFuel.
Arguments Ok {A} a.
Arguments Fail {A} e.
Arguments NoFuel {A}.

Definition obind {A B} (m : outcome A) (k : A -> outcome B) : outcome B :=
  match m with Ok a => k a | Fail e => Fail e | NoFuel => NoFuel end.

Notation "'let!' x := m 'in' k" := (obind m (fun x => k))
  (at level 200, x name, m at level 100, k at level 200).
Notation "'let!' ' p := m 'in' k" :=
  (obind m (fun x => match x with p => k end))
  (at level 200, p pattern, m at level 100, k at level 200).

(** Tokens: the strings ["EOF"], keywords and operators, and the objects
    [ID(name)] and [Number(val)]. *)
Inductive token :=
  | TStr (s : string)
  | TID (name : string)
  | TNum (val : value).

Definition OPS : list string := ["+"; "-"; "*"; "/"; "("; ")"; "="; ";"; ","; "<"; ">"]%string.
Definition OPS2 : list string := ["<="; ">="; "=="; "!="]%string.
Definition KEYWORDS : list string :=
  ["NONE"; "TRUE"; "FALSE"; "if"; "then"; "else"; "end"; "while"; "do"]%string.

Definition str_in (s : string) (l : list string) : bool := existsb (String.eqb s) l.

Definition is_space (c : ascii) : bool :=
  let n := nat_of_ascii c in
  ((Nat.leb 9 n) && (Nat.leb n 13)) || ((Nat.leb 28 n) && (Nat.leb n 32)).
Definition is_digit (c : ascii) : bool :=
  let n := nat_of_ascii c in (Nat.leb 48 n) && (Nat.leb n 57).
Definition is_alpha (c : ascii) : bool :=
  let n := nat_of_ascii c in ((Nat.leb 65 n) && (Nat.leb n 90)) || ((Nat.leb 97 n) && (Nat.leb n 122)).
Definition is_alnum (c : ascii) : bool := is_alpha c || is_digit c.

(** The position after consuming the character [c] ([Lexer.__nextch]). *)
Definition adv (c : ascii) (row col : nat) : nat * nat :=
  if Ascii.eqb c "010"%char then (S row, 1%nat) else (row, S col).

(** [while p(self.__ch()): ... self.__nextch()]: the characters read, the
    rest of the text, and the new position. *)
Fixpoint take_while (p : ascii -> bool) (t : string) (row col : nat)
    : string * string * nat * nat :=
  match t with
  | String c t' =>
      if p c then
        let '(rc, cc) := adv c row col in
        let '(w, rest, r, k) := take_while p t' rc cc in
        (String c w, rest, r, k)
      else (EmptyString, t, row, col)
  | EmptyString => (EmptyString, EmptyString, row, col)
  end.

Record lexer := mklexer {
  lx_file : string;
  lx_text : string;
  lx_row : nat;
  lx_col : nat;
  lx_token : token }.

(** [Lexer.error]: the fault carries the lexer's current position. *)
Definition lex_error {A} (lx : lexer) (message : string) : outcome A :=
  Fail (SyntaxError (lx_file lx) (lx_row lx) (lx_col lx) message).

Fixpoint Z_of_digits_acc (acc : Z) (s : string) : Z :=
  match s with
  | EmptyString => acc
  | String c s => Z_of_digits_acc (10 * acc + Z.of_nat (nat_of_ascii c - 48)) s
  end.

(** [int(number)] *)
Definition Z_of_digits (s : string) : Z := Z_of_digits_acc 0 s.

(** [float(number)] for ["ddd.ddd"]: the correctly rounded value of the
    decimal, infinite beyond the float range. *)
Definition float_of_decimal (digits frac : string) : spec_float :=
  let n := Z_of_digits (digits ++ frac) in
  if Z.eqb n 0 then S754_zero false
  else f64_div (exact_of_Z n) (exact_of_Z (10 ^ Z.of_nat (String.length frac))).

Definition with_token (lx : lexer) (t : string) (row col : nat) (tok : token) : lexer :=
  mklexer (lx_file lx) t row col tok.

(** [Lexer.__variable] *)
Definition lex_variable (lx : lexer) : lexer :=
  let '(varname, rest, r, k) := take_while is_alnum (lx_text lx) (lx_row lx) (lx_col lx) in
  with_token lx rest r k (if str_in varname KEYWORDS then TStr varname else TID varname).

(** [Lexer.__number] *)
Definition lex_number (lx : lexer) : outcome lexer :=
  let '(digits, rest, r, k) := take_while is_digit (lx_text lx) (lx_row lx) (lx_col lx) in
  match rest with
  | String "."%char rest' =>
      let '(frac, rest'', r', k') := take_while is_digit rest' r (S k) in
      Ok (with_token lx rest'' r' k' (TNum (VFloat (float_of_decimal digits frac))))
  | _ =>
      if Nat.ltb max_str_digits (String.length digits) then Fail ValueError
      else Ok (with_token lx rest r k (TNum (VInt (Z_of_digits digits))))
  end.

(** [Lexer.next_token] *)
Definition next_token (lx : lexer) : outcome lexer :=
  let '(_, t, r, k) := take_while is_space (lx_text lx) (lx_row lx) (lx_col lx) in
  let lx := with_token lx t r k (lx_token lx) in
  match t with
  | String c t' =>
      if is_alpha c then Ok (lex_variable lx)
      else if is_digit c then lex_number lx
      else if str_in (substring 0 2 t) OPS2 then
        match t' with
        | String c2 t'' => Ok (with_token lx t'' r (S (S k)) (TStr (String c (String c2 EmptyString))))
        | EmptyString => Ok lx
        end
      else if str_in (String c EmptyString) OPS then
        Ok (with_token lx t' r (S k) (TStr (String c EmptyString)))
      else lex_error lx ("Bad string '" ++ substring 0 3 t ++ "...'")%string
  | EmptyString => Ok (with_token lx EmptyString r k (TStr "EOF"))
  end.

(** [Lexer.__init__] on the text of the file [filename]. *)
Definition lexer_init (filename text : string) : outcome lexer :=
  next_token (mklexer filename text 1 1 (TStr "EOF")).

(** [str(token)] and [repr(token)] in messages; a [Number] raises. *)
Definition token_str (t : token) : outcome string :=
  match t with
  | TStr s => Ok s
  | TID n => Ok ("ID('" ++ n ++ "')")%string
  | TNum _ => Fail AttributeError
  end.

Definition token_repr (t : token) : outcome string :=
  match t with
  | TStr s => Ok ("'" ++ s ++ "'")%string
  | TID n => Ok ("ID('" ++ n ++ "')")%string
  | TNum _ => Fail AttributeError
  end.

Definition tok_is (t : token) (s : string) : bool :=
  match t with TStr s' => String.eqb s' s | _ => false end.

(** [Lexer.expects] *)
Definition expects (tok : string) (lx : lexer) : outcome lexer :=
  if tok_is (lx_token lx) tok then next_token lx
  else let! got := token_str (lx_token lx) in
       lex_error lx ("Expected " ++ tok ++ ", but got " ++ got)%string.

(** ** Parser and compiler

    Each [parse_*] function takes the tape built so far and the lexer, and
    returns them updated.  The [while] loops of the script are the
    [*_loop] functions.  Back-patching ([to_else.target = len(code)]) is an
    update of the tape at the index where the jump was appended. *)

Definition RELOP : list string := ["<"; "<="; ">"; ">="; "=="; "!="]%string.
Definition STATKEYWORD : list string := ["if"; "while"]%string.

(** The dictionary [VALKEYWORD]. *)
Definition VALKEYWORD (s : string) : option value :=
  if String.eqb s "TRUE" then Some (VBool true)
  else if String.eqb s "FALSE" then Some (VBool false)
  else if String.eqb s "NONE" then Some VNone
  else None.

Definition tok_in (t : token) (l : list string) : bool :=
  match t with TStr s => str_in s l | _ => false end.

Definition start_primary (t : token) : bool :=
  match t with
  | TID _ => true
  | TStr s => match VALKEYWORD s with Some _ => true | None => str_in s STATKEYWORD end
  | TNum _ => false
  end.

Abbreviation presult := (outcome (list instr * lexer)).

Fixpoint parse_exprlist (n : nat) (code : list instr) (lx : lexer) : presult :=
  match n with O => NoFuel | S n =>
    let! '(code, lx) := parse_expr n code lx in
    exprlist_loop n code lx
  end
with exprlist_loop (n : nat) (code : list instr) (lx : lexer) : presult :=
  match n with O => NoFuel | S n =>
    if tok_is (lx_token lx) ";" then
      let! lx := next_token lx in
      let! '(code, lx) := parse_expr n (code ++ [Op "DROP"]) lx in
      exprlist_loop n code lx
    else Ok (code, lx)
  end
with parse_expr (n : nat) (code : list instr) (lx : lexer) : presult :=
  match n with O => NoFuel | S n =>
    let! '(code, lx) := parse_arexpr n code lx in
    match lx_token lx with
    | TStr relop =>
        if str_in relop RELOP then
          let! lx := next_token lx in
          let! '(code, lx) := parse_arexpr n code lx in
          Ok (code ++ [Op relop], lx)
        else Ok (code, lx)
    | _ => Ok (code, lx)
    end
  end
with parse_arexpr (n : nat) (code : list instr) (lx : lexer) : presult :=
  match n with O => NoFuel | S n =>
    let! '(sign, lx) :=
      match lx_token lx with
      | TStr s =>
          if str_in s ["+"; "-"]%string then let! lx := next_token lx in Ok (s, lx)
          else Ok ("+"%string, lx)
      | _ => Ok ("+"%string, lx)
      end in
    let! '(code, lx) := parse_term n code lx in
    let code := if String.eqb sign "-" then code ++ [Op "NEG"] else code in
    arexpr_loop n code lx
  end
with arexpr_loop (n : nat) (code : list instr) (lx : lexer) : presult :=
  match n with O => NoFuel | S n =>
    match lx_token lx with
    | TStr sign =>
        if str_in sign ["+"; "-"]%string then
          let! lx := next_token lx in
          let! '(code, lx) := parse_term n code lx in
          arexpr_loop n (code ++ [Op sign]) lx
        else Ok (code, lx)
    | _ => Ok (code, lx)
    end
  end
with parse_term (n : nat) (code : list instr) (lx : lexer) : presult :=
  match n with O => NoFuel | S n =>
    let! '(code, lx) := parse_factor n code lx in
    term_loop n code lx
  end
with term_loop (n : nat) (code : list instr) (lx : lexer) : presult :=
  match n with O => NoFuel | S n =>
    match lx_token lx with
    | TStr sign =>
        if str_in sign ["*"; "/"]%string then
          let! lx := next_token lx in
          let! '(code, lx) := parse_factor n code lx in
          term_loop n (code ++ [Op sign]) lx
        else Ok (code, lx)
    | _ => Ok (code, lx)
    end
  end
with parse_factor (n : nat) (code : list instr) (lx : lexer) : presult :=
  match n with O => NoFuel | S n =>
    if start_primary (lx_token lx) then
      let! '(code, lx) := parse_primary n code lx in
      factor_loop n code lx
    else match lx_token lx with
    | TNum v =>
        let! lx := next_token lx in
        Ok (code ++ [RValue v], lx)
    | TStr "(" =>
        let! lx := next_token lx in
        let! '(code, lx) := parse_exprlist n code lx in
        let! lx := expects ")" lx in
        Ok (code, lx)
    | t =>
        let! r := token_repr t in
        lex_error lx ("Expected number, varname or '(', but got " ++ r)%string
    end
  end
with factor_loop (n : nat) (code : list instr) (lx : lexer) : presult :=
  match n with O => NoFuel | S n =>
    if tok_is (lx_token lx) "(" then
      let! '(code, lx) := parse_args n code lx in
      factor_loop n code lx
    else Ok (code, lx)
  end
with parse_primary (n : nat) (code : list instr) (lx : lexer) : presult :=
  match n with O => NoFuel | S n =>
    match lx_token lx with
    | TID varname =>
        let! lx := next_token lx in
        if tok_is (lx_token lx) "=" then
          let! lx := next_token lx in
          let! '(code, lx) := parse_expr n (code ++ [LValue (Some varname)]) lx in
          Ok (code ++ [Op "="], lx)
        else Ok (code ++ [ID varname], lx)
    | TStr s =>
        match VALKEYWORD s with
        | Some v =>
            let! lx := next_token lx in
            Ok (code ++ [RValue v], lx)
        | None =>
            if str_in s STATKEYWORD then parse_statement n code lx
            else let! r := token_repr (lx_token lx) in
                 lex_error lx ("Expected primary, but got " ++ r)%string
        end
    | t =>
        let! r := token_repr t in
        lex_error lx ("Expected primary, but got " ++ r)%string
    end
  end
with parse_statement (n : nat) (code : list instr) (lx : lexer) : presult :=
  match n with O => NoFuel | S n =>
    if tok_is (lx_token lx) "if" then parse_if_statement n code lx
    else if tok_is (lx_token lx) "while" then parse_while_statement n code lx
    else let! r := token_repr (lx_token lx) in
         lex_error lx ("expected statement, but got " ++ r)%string
  end
with parse_if_statement (n : nat) (code : list instr) (lx : lexer) : presult :=
  match n with O => NoFuel | S n =>
    let! lx := expects "if" lx in
    let! '(code, lx) := parse_expr n code lx in
    let! lx := expects "then" lx in
    let to_else := length code in
    let code := code ++ [OnFalseJump 0] in
    let! '(code, lx) := parse_exprlist n code lx in
    let to_end := length code in
    let code := code ++ [Jump 0] in
    let code := <[to_else := OnFalseJump (length code)]> code in
    let! '(code, lx) :=
      if tok_is (lx_token lx) "else" then
        let! lx := next_token lx in
        parse_exprlist n code lx
      else Ok (code ++ [LValue None], lx) in
    let code := <[to_end := Jump (length code)]> code in
    let! lx := expects "end" lx in
    Ok (code, lx)
  end
with parse_while_statement (n : nat) (code : list instr) (lx : lexer) : presult :=
  match n with O => NoFuel | S n =>
    let! lx := expects "while" lx in
    let code := code ++ [LValue None] in
    let start_loop := length code in
    let! '(code, lx) := parse_expr n code lx in
    let! lx := expects "do" lx in
    let to_exit := length code in
    let code := code ++ [OnFalseJump 0] in
    let code := code ++ [Op "DROP"] in
    let! '(code, lx) := parse_exprlist n code lx in
    let code := code ++ [Jump start_loop] in
    let code := <[to_exit := OnFalseJump (length code)]> code in
    let! lx := expects "end" lx in
    Ok (code, lx)
  end
with parse_args (n : nat) (code : list instr) (lx : lexer) : presult :=
  match n with O => NoFuel | S n =>
    let! lx := expects "(" lx in
    let code := code ++ [Op "[]"] in
    let! '(code, lx) :=
      if negb (tok_is (lx_token lx) ")") then
        let! '(code, lx) := parse_expr n code lx in
        args_loop n (code ++ [Op "APPEND"]) lx
      else Ok (code, lx) in
    let! lx := expects ")" lx in
    Ok (code ++ [Op "CALL"], lx)
  end
with args_loop (n : nat) (code : list instr) (lx : lexer) : presult :=
  match n with O => NoFuel | S n =>
    if tok_is (lx_token lx) "," then
      let! lx := next_token lx in
      let! '(code, lx) := parse_expr n code lx in
      args_loop n (code ++ [Op "APPEND"]) lx
    else Ok (code, lx)
  end.

(** [parse_program] *)
Definition parse_program (n : nat) (code : list instr) (lx : lexer) : presult :=
  let! '(code, lx) := parse_exprlist n code lx in
  let! lx := expects "EOF" lx in
  Ok (code, lx).

(** The compilation stage of [main]: lex the file's text and compile it
    into a fresh tape. *)
Definition compile (n : nat) (filename text : string) : outcome (list instr) :=
  let! lx := lexer_init filename text in
  let! '(code, _) := parse_program n [] lx in
  Ok code.

(** ** Auxiliary definitions used by the proofs *)

Close Scope Z_scope.

(** Jump targets are absolute tape indices: code emitted at offset [k]
    is the code emitted at offset 0 with [k] added to every target. *)
Definition shift_instr (k : nat) (i : instr) : instr :=
  match i with
  | OnFalseJump t => OnFalseJump (k + t)
  | Jump t => Jump (k + t)
  | i => i
  end.

Definition shift (k : nat) (c : list instr) : list instr := shift_instr k <$> c.

(** [code] followed by the instructions [c] emitted after it. *)
Definition reloc (code c : list instr) : list instr := code ++ shift (length code) c.

Definition relocate (code : list instr) (r : presult) : presult :=
  match r with
  | Ok (c, lx) => Ok (reloc code c, lx)
  | Fail e => Fail e
  | NoFuel => NoFuel
  end.

Arguments shift : simpl never.
Arguments reloc : simpl never.

(** The tapes of an [if] and of a [while] assembled from their parts,
    emitted at offset 0. *)
Definition if_code (c1 c2 c3 : list instr) : list instr :=
  c1 ++ [OnFalseJump (length c1 + length c2 + 2)] ++ shift (length c1 + 1) c2 ++
  [Jump (length c1 + length c2 + 2 + length c3)] ++ shift (length c1 + length c2 + 2) c3.

Definition while_code (c1 c2 : list instr) : list instr :=
  [LValue None] ++ shift 1 c1 ++ [OnFalseJump (length c1 + length c2 + 4); Op "DROP"] ++
  shift (length c1 + 3) c2 ++ [Jump 1].

(** ** Definitions used by the properties *)

(** A parsing function is relocatable at fuel [n] when parsing onto a
    non-empty tape [code] is parsing onto the empty tape and relocating. *)
Definition rel_ok (f : nat -> list instr -> lexer -> presult) (n : nat) : Prop :=
  forall code lx, f n code lx = relocate code (f n [] lx).

(** Stack-depth typing of a tape: [D pc] is the stack depth at [pc]. *)
Section TypingDefs.
Variable py_sin : spec_float -> option spec_float.

Definition op_arity (s : string) : option (nat * nat) :=
  match assoc s (BINARY py_sin) with
  | Some _ => Some (2, 1)
  | None =>
      if String.eqb s "NEG" then Some (1, 1)
      else if String.eqb s "=" then Some (2, 1)
      else if String.eqb s "DROP" then Some (1, 0)
      else if String.eqb s "[]" then Some (0, 1)
      else None
  end.

Definition instr_ok (len : nat) (D : nat -> nat) (pc : nat) (i : instr) : Prop :=
  match i with
  | RValue _ | ID _ | LValue _ => D (S pc) = S (D pc)
  | OnFalseJump t => 1 <= D pc /\ D (S pc) = D pc - 1 /\ t <= len /\ D t = D pc - 1
  | Jump t => t <= len /\ D t = D pc
  | Op s =>
      match op_arity s with
      | Some (k, m) => k <= D pc /\ D (S pc) = D pc - k + m
      | None => False
      end
  end.

Definition seg_ok (c : list instr) (D : nat -> nat) (lo hi : nat) : Prop :=
  forall pc i, lo <= pc -> pc < hi -> c !! pc = Some i -> instr_ok (length c) D pc i.

Definition wt (c : list instr) (D : nat -> nat) : Prop := seg_ok c D 0 (length c).

Definition typed (c : list instr) (din dout : nat) : Prop :=
  exists D, D 0 = din /\ D (length c) = dout /\ wt c D.

Definition ty_expr (f : nat -> list instr -> lexer -> presult) (n : nat) : Prop :=
  forall lx c lx', f n [] lx = Ok (c, lx') -> forall d, typed c d (S d).

Definition ty_loop (f : nat -> list instr -> lexer -> presult) (n : nat) : Prop :=
  forall lx c lx', f n [] lx = Ok (c, lx') -> forall d, typed c (S d) (S d).

End TypingDefs.

(** The faults an operation of the machine may raise on its own. *)
Definition op_error (e : rfault) : Prop :=
  match e with Underflow | BadInstruction => False | _ => True end.

(** Runs of the machine that stop at a given program counter. *)
Section StepsDefs.
Variable py_sin : spec_float -> option spec_float.

Inductive steps (c : list instr) : nat -> vmst -> nat -> vmst -> Prop :=
  | steps_refl pc σ : steps c pc σ pc σ
  | steps_step pc σ pc' σ' pc'' σ'' :
      step py_sin c pc σ = Next pc' σ' -> steps c pc' σ' pc'' σ'' -> steps c pc σ pc'' σ''.

End StepsDefs.

(** The tape of [e1; e2; ...; ek] from the tapes of its expressions. *)
Fixpoint seq_acc (acc : list instr) (cs : list (list instr)) : list instr :=
  match cs with
  | [] => acc
  | c :: cs => seq_acc (reloc (acc ++ [Op "DROP"]) c) cs
  end.

Definition seq_tape (cs : list (list instr)) : list instr :=
  match cs with [] => [] | c :: cs => seq_acc c cs end.

(** Each expression of a sequence runs on the stack [s] and leaves one value. *)
Section SeqDefs.
Variable py_sin : spec_float -> option spec_float.

Inductive seq_runs (s : list value) :
    list (list instr) -> gmap string value -> output -> value -> gmap string value -> output -> Prop :=
  | seq_last c E O v E' O' :
      steps py_sin c 0 (mkst s E O) (length c) (mkst (v :: s) E' O') ->
      seq_runs s [c] E O v E' O'
  | seq_cons c cs E O v E1 O1 w E' O' :
      steps py_sin c 0 (mkst s E O) (length c) (mkst (v :: s) E1 O1) ->
      seq_runs s cs E1 O1 w E' O' ->
      seq_runs s (c :: cs) E O w E' O'.

End SeqDefs.

(** The position reached from [(row, col)] after consuming [s]. *)
Fixpoint advance (s : string) (row col : nat) : nat * nat :=
  match s with
  | EmptyString => (row, col)
  | String c s => let '(r, k) := adv c row col in advance s r k
  end.

Definition lx_inv (filename text : string) (lx : lexer) : Prop :=
  lx_file lx = filename /\
  exists pre, text = (pre ++ lx_text lx)%string /\ advance pre 1 1 = (lx_row lx, lx_col lx).

Definition fault_ok (filename text : string) (e : cfault) : Prop :=
  match e with
  | SyntaxError f r c _ =>
      f = filename /\ exists pre rest, text = (pre ++ rest)%string /\ advance pre 1 1 = (r, c)
  | AttributeError | ValueError => True
  end.

Definition out_ok {A} (filename text : string) (P : A -> Prop) (o : outcome A) : Prop :=
  match o with
  | Ok a => P a
  | Fail e => fault_ok filename text e
  | NoFuel => True
  end.

(** Every character of [s] satisfies [p]; [s] begins with a character
    satisfying [p]. *)
Fixpoint all_chars (p : ascii -> bool) (s : string) : bool :=
  match s with
  | EmptyString => true
  | String c s => p c && all_chars p s
  end.

Definition starts_with (p : ascii -> bool) (s : string) : bool :=
  match s with EmptyString => false | String c _ => p c end.

(** The tape of the argument list [e1, ..., ek] of a call, after [acc]. *)
Fixpoint args_acc (acc : list instr) (cs : list (list instr)) : list instr :=
  match cs with
  | [] => acc
  | c :: cs => args_acc (reloc acc c ++ [Op "APPEND"]) cs
  end.

(** Each argument runs above the list [VList acc] built so far, on the
    stack [s], and leaves one value, which [APPEND] adds to the list. *)
Section ArgsDefs.
Variable py_sin : spec_float -> option spec_float.

Inductive args_runs (s : list value) :
    list (list instr) -> list value -> gmap string value -> output ->
    list value -> gmap string value -> output -> Prop :=
  | args_nil acc E O : args_runs s [] acc E O acc E O
  | args_cons c cs acc E O v E1 O1 l E' O' :
      steps py_sin c 0 (mkst (VList acc :: s) E O) (length c) (mkst (v :: VList acc :: s) E1 O1) ->
      args_runs s cs (acc ++ [v]) E1 O1 l E' O' ->
      args_runs s (c :: cs) acc E O l E' O'.

End ArgsDefs.

(** What [main(argv)] ends in. *)
Inductive main_result :=
  | MainUsage                  (** "Expected filename" on stderr and [sys.exit(1)] *)
  | MainNoFile                 (** [open(argv[1])] raises: no such file *)
  | MainUncaught (e : cfault)  (** an exception of the front end escapes [main] *)
  | MainPrinted (msg : string) (** a caught [SyntaxError]: its message on stderr *)
  | MainRan (r : result).      (** [evaluate(code)] ran to [r] *)

Section MainDefs.
Variable py_sin : spec_float -> option spec_float.
(** Fuel of the recursive-descent parser. *)
Variable n : nat.
(** The files: name to contents. *)
Variable fs : gmap string string.

(** The [except SyntaxError] clause catches the script's [SyntaxError]. *)
Definition is_syntax_error (e : cfault) : bool :=
  match e with SyntaxError _ _ _ _ => true | _ => false end.

(** [main(argv)]: the [Lexer] is built before the [try], so a
    [SyntaxError] of its first [next_token] is not caught; the one of the
    [except] clause is [SyntaxError] only. *)
Inductive main : list string -> main_result -> Prop :=
  | main_usage argv : length argv < 2 -> main argv MainUsage
  | main_nofile p file rest : fs !! file = None -> main (p :: file :: rest) MainNoFile
  | main_lex p file rest text e :
      fs !! file = Some text -> lexer_init file text = Fail e ->
      main (p :: file :: rest) (MainUncaught e)
  | main_syntax p file rest text lx f r c m :
      fs !! file = Some text -> lexer_init file text = Ok lx ->
      parse_program n [] lx = Fail (SyntaxError f r c m) ->
      main (p :: file :: rest) (MainPrinted (fault_message f r c m))
  | main_other p file rest text lx e :
      fs !! file = Some text -> lexer_init file text = Ok lx ->
      parse_program n [] lx = Fail e -> is_syntax_error e = false ->
      main (p :: file :: rest) (MainUncaught e)
  | main_run p file rest text lx code lx' r :
      fs !! file = Some text -> lexer_init file text = Ok lx ->
      parse_program n [] lx = Ok (code, lx') ->
      exec py_sin code 0 (init_state builtins) r ->
      main (p :: file :: rest) (MainRan r).
End MainDefs.

(** The items after the first one of a list [p0 op1 p1 op2 p2 ...] as the
    [while] loops of the parser read them: while the current token is one
    of the separators [ops], the loop reads the next token, then the next
    item with [parse] onto a fresh tape; it stops at the first token that
    is not a separator, in the lexer [lx']. Each item's tape comes with the
    separator before it. *)
Inductive sep_chain (ops : list string) (parse : nat -> list instr -> lexer -> presult) :
    lexer -> list (list instr * string) -> lexer -> Prop :=
  | chain_end lx : tok_in (lx_token lx) ops = false -> sep_chain ops parse lx [] lx
  | chain_step lx s lx1 m c lx2 ps lx' :
      lx_token lx = TStr s -> str_in s ops = true -> next_token lx = Ok lx1 ->
      parse m [] lx1 = Ok (c, lx2) -> sep_chain ops parse lx2 ps lx' ->
      sep_chain ops parse lx ((c, s) :: ps) lx'.

(** The lexers met while reading [text] from its start: the one built by
    [Lexer.__init__] before its first [next_token], and each one that
    [next_token] makes of one of them. *)
Inductive lex_reach (filename text : string) : lexer -> Prop :=
  | reach_init : lex_reach filename text (mklexer filename text 1 1 (TStr "EOF"))
  | reach_next lx lx' :
      lex_reach filename text lx -> next_token lx = Ok lx' -> lex_reach filename text lx'.

(** Where a fault of the compilation of [text] is raised. A parser fault
    is raised on a lexer [lx] that [next_token] made of a lexer [lx0] met
    while reading the text: its message ends with [lx]'s current token and
    it carries [lx]'s position, just after that token. A lexical fault is
    the one of [next_token] on such an [lx0]: it carries the position of
    the first character after the spaces that [next_token] skipped. *)
Definition fault_at (filename text : string) (e : cfault) : Prop :=
  match e with
  | SyntaxError f r c m =>
      f = filename /\ exists lx0, lex_reach filename text lx0 /\
      ((exists lx, next_token lx0 = Ok lx /\ (r, c) = (lx_row lx, lx_col lx) /\
          exists pfx s, m = (pfx ++ s)%string /\
            (token_str (lx_token lx) = Ok s \/ token_repr (lx_token lx) = Ok s)) \/
       (next_token lx0 = Fail e /\
          exists ws ch t, lx_text lx0 = (ws ++ String ch t)%string /\
            all_chars is_space ws = true /\ (r, c) = advance ws (lx_row lx0) (lx_col lx0)))
  | AttributeError | ValueError => True
  end.

Definition out_at {A} (filename text : string) (P : A -> Prop) (o : outcome A) : Prop :=
  match o with
  | Ok a => P a
  | Fail e => fault_at filename text e
  | NoFuel => True
  end.

(** The parser's lexer holds a token that [next_token] read. *)
Definition read_at (filename text : string) (lx : lexer) : Prop :=
  exists lx0, lex_reach filename text lx0 /\ next_token lx0 = Ok lx.

Definition pos_at (filename text : string) (f : nat -> list instr -> lexer -> presult) (n : nat) : Prop :=
  forall code lx, read_at filename text lx ->
  out_at filename text (fun p => read_at filename text (snd p)) (f n code lx).

(** The tape of [t0 op1 t1 op2 t2 ...] after the tape [acc] of [t0]:
    each operand's code, then its operator. *)
Fixpoint binop_acc (acc : list instr) (ps : list (list instr * string)) : list instr :=
  match ps with [] => acc | (c, op) :: ps => binop_acc (reloc acc c ++ [Op op]) ps end.

Section BinopDefs.
Variable py_sin : spec_float -> option spec_float.
(** Left to right: the value [v] so far and the next operand's value [w]
    give [v op w], which is the value so far for the rest. *)
Inductive binop_runs (s : list value) :
    list (list instr * string) -> value -> gmap string value -> output ->
    value -> gmap string value -> output -> Prop :=
  | binop_nil v E O : binop_runs s [] v E O v E O
  | binop_cons c op ps v E O w E1 O1 r O2 res E' O' :
      steps py_sin c 0 (mkst (v :: s) E O) (length c) (mkst (w :: v :: s) E1 O1) ->
      step py_sin [Op op] 0 (mkst (w :: v :: s) E1 O1) = Next 1 (mkst (r :: s) E1 O2) ->
      binop_runs s ps r E1 O2 res E' O' ->
      binop_runs s ((c, op) :: ps) v E O res E' O'.
End BinopDefs.

Open Scope nat_scope.
Open Scope list_scope.

(** * Properties *)

Section Relocation.

Lemma length_shift k c : length (shift k c) = length c.
Proof. unfold shift. apply length_fmap. Qed.

Lemma shift_app k c1 c2 : shift k (c1 ++ c2) = shift k c1 ++ shift k c2.
Proof. unfold shift. apply fmap_app. Qed.

Lemma shift_cons k i c : shift k (i :: c) = shift_instr k i :: shift k c.
Proof. reflexivity. Qed.

Lemma shift_nil k : shift k [] = [].
Proof. reflexivity. Qed.

Lemma shift_instr_0 i : shift_instr 0 i = i.
Proof. destruct i; reflexivity. Qed.

Lemma shift_0 c : shift 0 c = c.
Proof. induction c as [|i c IH]; [done|]. rewrite shift_cons, IH, shift_instr_0. done. Qed.

Lemma shift_instr_shift_instr k j i : shift_instr k (shift_instr j i) = shift_instr (k + j) i.
Proof. destruct i; simpl; f_equal; lia. Qed.

Lemma shift_shift k j c : shift k (shift j c) = shift (k + j) c.
Proof.
  induction c as [|i c IH]; [done|].
  rewrite !shift_cons, IH, shift_instr_shift_instr. done.
Qed.

Lemma shift_insert k i x c : shift k (<[i := x]> c) = <[i := shift_instr k x]> (shift k c).
Proof. unfold shift. apply list_fmap_insert. Qed.

Lemma length_reloc a b : length (reloc a b) = length a + length b.
Proof. unfold reloc. rewrite length_app, length_shift. done. Qed.

Lemma reloc_nil_l c : reloc [] c = c.
Proof. unfold reloc. apply shift_0. Qed.

Lemma reloc_nil_r a : reloc a [] = a.
Proof. unfold reloc. rewrite shift_nil, app_nil_r. done. Qed.

Lemma reloc_assoc a b c : reloc a (reloc b c) = reloc (reloc a b) c.
Proof.
  unfold reloc. rewrite shift_app, shift_shift, app_assoc, length_app, length_shift.
  done.
Qed.

Lemma reloc_snoc a b i : reloc a (b ++ [i]) = reloc a b ++ [shift_instr (length a) i].
Proof. unfold reloc. rewrite shift_app, app_assoc. done. Qed.

Lemma reloc_singleton a i : reloc a [i] = a ++ [shift_instr (length a) i].
Proof. reflexivity. Qed.

Lemma relocate_relocate a b r : relocate a (relocate b r) = relocate (reloc a b) r.
Proof. destruct r as [[c l]| |]; simpl; [rewrite reloc_assoc|..]; done. Qed.

Lemma relocate_nil r : relocate [] r = r.
Proof. destruct r as [[c l]| |]; simpl; [rewrite reloc_nil_l|..]; done. Qed.

Lemma insert_mid {A} (a b : list A) (x y : A) i :
  i = length a -> <[i := x]> (a ++ y :: b) = a ++ x :: b.
Proof.
  intros ->. rewrite <- (Nat.add_0_r (length a)), insert_app_r. done.
Qed.


Lemma patch2 {A} (a b c : list A) x y x' y' i j :
  i = length a -> j = length a + 1 + length b ->
  <[j := y']> (<[i := x']> (((a ++ [x]) ++ b) ++ [y]) ++ c) = a ++ x' :: b ++ y' :: c.
Proof.
  intros -> ->. rewrite <- !app_assoc. simpl.
  rewrite insert_mid by done.
  rewrite <- !app_assoc. simpl.
  rewrite <- Nat.add_assoc, insert_app_r. simpl.
  rewrite <- app_assoc. simpl. rewrite insert_mid by done. done.
Qed.

(** The back-patched tape of [parse_if_statement], built after [code]. *)
Lemma if_build code c1 c2 c3 :
  let code1 := reloc code c1 in
  let code3 := reloc (code1 ++ [OnFalseJump 0]) c2 in
  let code4 := code3 ++ [Jump 0] in
  let code5 := <[length code1 := OnFalseJump (length code4)]> code4 in
  let code6 := reloc code5 c3 in
  <[length code3 := Jump (length code6)]> code6 = reloc code (if_code c1 c2 c3).
Proof.
  intros. subst code1 code3 code4 code5 code6.
  unfold if_code, reloc.
  rewrite ?length_insert, ?length_app, ?length_shift, ?length_insert, ?length_app, ?length_shift.
  rewrite !shift_app, !shift_shift, !shift_cons, !shift_nil. simpl.
  rewrite patch2 by (rewrite ?length_app, ?length_shift; simpl; lia).
  rewrite <- !app_assoc. simpl.
  repeat (f_equal; try lia).
Qed.

(** The back-patched tape of [parse_while_statement], built after [code]. *)
Lemma while_build code c1 c2 :
  let code1 := code ++ [LValue None] in
  let code2 := reloc code1 c1 in
  let code3 := (code2 ++ [OnFalseJump 0]) ++ [Op "DROP"] in
  let code4 := reloc code3 c2 in
  let code5 := code4 ++ [Jump (length code1)] in
  <[length code2 := OnFalseJump (length code5)]> code5 = reloc code (while_code c1 c2).
Proof.
  intros. subst code1 code2 code3 code4 code5.
  unfold while_code, reloc.
  rewrite ?length_app, ?length_shift, ?length_app, ?length_shift.
  rewrite !shift_app, !shift_shift, !shift_cons, !shift_nil. simpl.
  rewrite <- !app_assoc. simpl.
  rewrite app_comm_cons, app_assoc.
  rewrite insert_mid by (rewrite ?length_app; simpl; rewrite ?length_shift; lia).
  rewrite <- app_assoc. simpl.
  repeat (f_equal; try lia).
Qed.

(** The same tape when [parse_if_statement] finds no [else]. *)
Lemma if_build_noelse code c1 c2 :
  let code1 := reloc code c1 in
  let code3 := reloc (code1 ++ [OnFalseJump 0]) c2 in
  let code4 := code3 ++ [Jump 0] in
  let code5 := <[length code1 := OnFalseJump (length code4)]> code4 in
  let code6 := code5 ++ [LValue None] in
  <[length code3 := Jump (length code6)]> code6 = reloc code (if_code c1 c2 [LValue None]).
Proof. intros. subst code6. rewrite <- (if_build code c1 c2 [LValue None]). done. Qed.

Lemma if_build_nil c1 c2 c3 :
  let code3 := reloc (c1 ++ [OnFalseJump 0]) c2 in
  let code4 := code3 ++ [Jump 0] in
  let code5 := <[length c1 := OnFalseJump (length code4)]> code4 in
  let code6 := reloc code5 c3 in
  <[length code3 := Jump (length code6)]> code6 = if_code c1 c2 c3.
Proof.
  pose proof (if_build [] c1 c2 c3) as H. cbv zeta in H.
  rewrite !reloc_nil_l in H. exact H.
Qed.

Lemma if_build_noelse_nil c1 c2 :
  let code3 := reloc (c1 ++ [OnFalseJump 0]) c2 in
  let code4 := code3 ++ [Jump 0] in
  let code5 := <[length c1 := OnFalseJump (length code4)]> code4 in
  let code6 := code5 ++ [LValue None] in
  <[length code3 := Jump (length code6)]> code6 = if_code c1 c2 [LValue None].
Proof. intros. subst code6. rewrite <- (if_build_nil c1 c2 [LValue None]). done. Qed.

Ltac rel_IH :=
  match goal with
  | H : forall code lx, ?f ?m code lx = _ |- context [?f ?m ?c ?l] =>
      lazymatch c with [] => fail | _ => rewrite (H c l) end
  end.

Ltac rel_destr :=
  match goal with
  | H : forall code lx, ?f ?m code lx = _ |- context [?f ?m [] ?l] =>
      let c := fresh "c" in let l' := fresh "l" in
      destruct (f m [] l) as [[c l']| |]
  end.

Ltac case_inner :=
  match goal with
  | |- context [match ?x with _ => _ end] =>
      lazymatch x with
      | context [match _ with _ => _ end] => fail
      | _ => destruct x eqn:?
      end
  end.

Create Rewrite HintDb reloc_db.
#[local] Hint Rewrite shift_app shift_shift shift_cons shift_nil length_app length_shift
  app_nil_r : reloc_db.

Lemma parse_reloc n :
  rel_ok parse_exprlist n /\ rel_ok exprlist_loop n /\ rel_ok parse_expr n /\
  rel_ok parse_arexpr n /\ rel_ok arexpr_loop n /\ rel_ok parse_term n /\
  rel_ok term_loop n /\ rel_ok parse_factor n /\ rel_ok factor_loop n /\
  rel_ok parse_primary n /\ rel_ok parse_statement n /\ rel_ok parse_if_statement n /\
  rel_ok parse_while_statement n /\ rel_ok parse_args n /\ rel_ok args_loop n.
Proof.
  unfold rel_ok. induction n as [|n IH].
  { repeat split; reflexivity. }
  destruct IH as (H1&H2&H3&H4&H5&H6&H7&H8&H9&H10&H11&H12&H13&H14&H15).
  repeat split; intros code lx; simpl; unfold obind;
    repeat (first [rel_IH | rel_destr | case_inner]; simpl).
  all: try reflexivity.
  all: try (f_equal; f_equal; unfold reloc;
    autorewrite with reloc_db;
    simpl; rewrite <- ?app_assoc; simpl; autorewrite with reloc_db; simpl;
    repeat (f_equal; try lia); fail).
  all: f_equal; f_equal.
  - rewrite if_build, if_build_nil. reflexivity.
  - rewrite if_build_noelse, if_build_noelse_nil. reflexivity.
  - rewrite while_build. f_equal.
    rewrite <- (reloc_nil_l (while_code _ _)), <- while_build. reflexivity.
Qed.
End Relocation.


Ltac leb_cases :=
  repeat match goal with |- context [?a <=? ?b] => destruct (Nat.leb_spec a b); try lia end.

Section Typing.
Variable py_sin : spec_float -> option spec_float.

Lemma seg_app c D a b e : seg_ok py_sin c D a b -> seg_ok py_sin c D b e -> seg_ok py_sin c D a e.
Proof.
  intros H1 H2 pc i ? ? ?. destruct (decide (pc < b)); [apply H1|apply H2]; auto; lia.
Qed.

Lemma seg_empty c D a : seg_ok py_sin c D a a.
Proof. intros pc i ? ? ?. lia. Qed.

Lemma instr_ok_shift lc Dc len D o pc i :
  instr_ok py_sin lc Dc pc i -> pc < lc -> o + lc <= len ->
  (forall k, k <= lc -> D (o + k) = Dc k) ->
  instr_ok py_sin len D (o + pc) (shift_instr o i).
Proof.
  intros Hi Hpc Hlen HD.
  assert (E0 : D (o + pc) = Dc pc) by (apply HD; lia).
  assert (E1 : D (S (o + pc)) = Dc (S pc)) by (rewrite <- HD by lia; f_equal; lia).
  destruct i; simpl in *; rewrite ?E0, ?E1; try done.
  - destruct Hi as (?&?&?&?). rewrite HD by lia. repeat split; lia.
  - destruct Hi as (?&?). rewrite HD by lia. split; lia.
Qed.

Lemma seg_embed p c q Dc D :
  wt py_sin c Dc -> (forall k, k <= length c -> D (length p + k) = Dc k) ->
  seg_ok py_sin (p ++ shift (length p) c ++ q) D (length p) (length p + length c).
Proof.
  intros Hc HD pc i ? ? Hl.
  replace pc with (length p + (pc - length p)) in Hl |- * by lia.
  rewrite lookup_app_r in Hl by lia.
  replace (length p + (pc - length p) - length p) with (pc - length p) in Hl by lia.
  rewrite lookup_app_l in Hl by (rewrite length_shift; lia).
  unfold shift in Hl. rewrite list_lookup_fmap in Hl.
  destruct (c !! (pc - length p)) as [j|] eqn:Hj; simpl in Hl; [|done]. injection Hl as <-.
  apply instr_ok_shift with (lc := length c) (Dc := Dc); auto.
  - apply Hc; auto; [lia|]. apply lookup_lt_Some in Hj. lia.
  - apply lookup_lt_Some in Hj. lia.
  - rewrite !length_app, length_shift. lia.
Qed.

Lemma seg_single p i q D :
  instr_ok py_sin (length (p ++ i :: q)) D (length p) i ->
  seg_ok py_sin (p ++ i :: q) D (length p) (S (length p)).
Proof.
  intros H pc j ? ? Hl. assert (pc = length p) as -> by lia.
  rewrite lookup_app_r, Nat.sub_diag in Hl by lia. simpl in Hl. injection Hl as <-. done.
Qed.

Lemma typed_reloc a b d1 d2 d3 :
  typed py_sin a d1 d2 -> typed py_sin b d2 d3 -> typed py_sin (reloc a b) d1 d3.
Proof.
  intros (Da&Ha0&Ha1&Ha) (Db&Hb0&Hb1&Hb).
  exists (fun pc => if pc <=? length a then Da pc else Db (pc - length a)).
  rewrite length_reloc. split; [|split].
  - simpl. done.
  - destruct (Nat.leb_spec (length a + length b) (length a)).
    + assert (length b = 0) as Hb0' by lia. rewrite Hb0', Nat.add_0_r, Ha1, <- Hb0, <- Hb1, Hb0'. done.
    + rewrite Nat.add_comm, Nat.add_sub. done.
  - unfold wt. rewrite length_reloc. unfold reloc.
    apply seg_app with (length a).
    + pose proof (seg_embed [] a (shift (length a) b) Da
        (fun pc => if pc <=? length a then Da pc else Db (pc - length a)) Ha) as H.
      simpl in H. rewrite shift_0 in H. apply H.
      intros k Hk. destruct (Nat.leb_spec k (length a)); [done|lia].
    + pose proof (seg_embed a b [] Db
        (fun pc => if pc <=? length a then Da pc else Db (pc - length a)) Hb) as H.
      rewrite app_nil_r in H. apply H.
      intros k Hk. destruct (Nat.leb_spec (length a + k) (length a)).
      * assert (k = 0) as -> by lia. rewrite Nat.add_0_r, Ha1, Hb0. done.
      * f_equal. lia.
Qed.

Lemma seg_embed' T p c q o Dc D :
  T = p ++ shift o c ++ q -> o = length p ->
  wt py_sin c Dc -> (forall k, k <= length c -> D (o + k) = Dc k) ->
  seg_ok py_sin T D o (o + length c).
Proof. intros -> ->. apply seg_embed. Qed.

Lemma seg_single' T p i q o D :
  T = p ++ i :: q -> o = length p ->
  instr_ok py_sin (length T) D o i -> seg_ok py_sin T D o (S o).
Proof. intros -> ->. apply seg_single. Qed.

Lemma seg_eq T D a b a' b' : seg_ok py_sin T D a b -> a = a' -> b = b' -> seg_ok py_sin T D a' b'.
Proof. intros H -> ->. done. Qed.

Lemma typed_one i d d' :
  instr_ok py_sin 1 (fun pc => if pc =? 0 then d else d') 0 i -> typed py_sin [i] d d'.
Proof.
  intros H. exists (fun pc => if pc =? 0 then d else d'). split; [done|split; [done|]].
  intros pc j ? ? Hl. assert (pc = 0) as -> by (simpl in *; lia).
  simpl in Hl. injection Hl as <-. done.
Qed.

Lemma typed_push i d :
  (forall len D pc, D (S pc) = S (D pc) -> instr_ok py_sin len D pc i) ->
  typed py_sin [i] d (S d).
Proof. intros H. apply typed_one, H. done. Qed.

Lemma typed_op s k m d :
  op_arity py_sin s = Some (k, m) -> k <= d -> typed py_sin [Op s] d (d - k + m).
Proof. intros Hs Hk. apply typed_one. simpl. rewrite Hs. split; [done|lia]. Qed.

Lemma typed_snoc a i d1 d2 d3 :
  typed py_sin a d1 d2 -> typed py_sin [i] d2 d3 -> shift_instr (length a) i = i ->
  typed py_sin (a ++ [i]) d1 d3.
Proof.
  intros Ha Hi Hs. replace (a ++ [i]) with (reloc a [i]) by (rewrite reloc_singleton, Hs; done).
  eapply typed_reloc; eauto.
Qed.

Lemma typed_if c1 c2 c3 d :
  typed py_sin c1 d (S d) -> typed py_sin c2 d (S d) -> typed py_sin c3 d (S d) ->
  typed py_sin (if_code c1 c2 c3) d (S d).
Proof.
  intros (D1&H10&H11&H1) (D2&H20&H21&H2) (D3&H30&H31&H3).
  set (l1 := length c1). set (l2 := length c2). set (l3 := length c3).
  change (D1 l1 = S d) in H11. change (D2 l2 = S d) in H21. change (D3 l3 = S d) in H31.
  set (D := fun pc => if pc <=? l1 then D1 pc
                      else if pc <=? l1 + 1 + l2 then D2 (pc - l1 - 1)
                      else D3 (pc - (l1 + l2 + 2))).
  assert (HT : length (if_code c1 c2 c3) = l1 + l2 + l3 + 2).
  { unfold if_code. rewrite !length_app, !length_shift. simpl. lia. }
  exists D. unfold wt. rewrite HT. split; [|split].
  - unfold D. simpl. done.
  - unfold D. destruct (Nat.leb_spec (l1 + l2 + l3 + 2) l1); [lia|].
    destruct (Nat.leb_spec (l1 + l2 + l3 + 2) (l1 + 1 + l2)); [lia|].
    rewrite <- H31. f_equal. lia.
  - apply seg_app with l1; [|apply seg_app with (l1 + 1); [|apply seg_app with (l1 + 1 + l2);
      [|apply seg_app with (l1 + 1 + l2 + 1)]]].
    + eapply seg_eq; [eapply (seg_embed' _ [] c1 _ 0 D1); [|done|done|]| |].
      * unfold if_code. rewrite shift_0. reflexivity.
      * intros k Hk. unfold D. simpl. destruct (Nat.leb_spec k l1); [done|lia].
      * done.
      * done.
    + eapply seg_eq; [eapply (seg_single' _ c1); [unfold if_code; reflexivity|done|]|done|lia].
      rewrite HT. unfold D. cbv beta. fold l1 l2. cbn [instr_ok].
      leb_cases.
      replace (S l1 - l1 - 1) with 0 by lia. replace (l1 + l2 + 2 - (l1 + l2 + 2)) with 0 by lia.
      rewrite H11, H20, H30. repeat split; lia.
    + eapply seg_eq; [eapply (seg_embed' _ (c1 ++ [OnFalseJump (l1 + l2 + 2)]) c2 _ (l1 + 1) D2);
        [|rewrite length_app; simpl; lia|done|]|done|lia].
      * unfold if_code. rewrite <- app_assoc. reflexivity.
      * intros k Hk. unfold D. destruct (Nat.leb_spec (l1 + 1 + k) l1); [lia|].
        destruct (Nat.leb_spec (l1 + 1 + k) (l1 + 1 + l2)); [|lia]. f_equal. lia.
    + eapply seg_eq; [eapply (seg_single' _ (c1 ++ [OnFalseJump (l1 + l2 + 2)] ++ shift (l1 + 1) c2) _ _ (l1 + 1 + l2));
        [unfold if_code; rewrite <- !app_assoc; reflexivity|rewrite !length_app, length_shift; simpl; unfold l1, l2; lia|]|done|lia].
      rewrite HT. unfold D. cbv beta. fold l1 l2 l3. cbn [instr_ok]. split; [lia|].
      leb_cases.
      replace (l1 + l2 + 2 + l3 - (l1 + l2 + 2)) with l3 by lia.
      replace (l1 + 1 + l2 - l1 - 1) with l2 by lia. rewrite H31, H21. done.
    + eapply seg_eq; [eapply (seg_embed' _ (c1 ++ [OnFalseJump (l1 + l2 + 2)] ++ shift (l1 + 1) c2
          ++ [Jump (l1 + l2 + 2 + l3)]) c3 [] (l1 + l2 + 2) D3);
        [|rewrite !length_app, length_shift; simpl; unfold l1, l2; lia|done|]|lia|lia].
      * unfold if_code. rewrite app_nil_r, <- !app_assoc. reflexivity.
      * intros k Hk. unfold D. destruct (Nat.leb_spec (l1 + l2 + 2 + k) l1); [lia|].
        destruct (Nat.leb_spec (l1 + l2 + 2 + k) (l1 + 1 + l2)); [lia|]. f_equal. lia.
Qed.

Lemma op_arity_DROP : op_arity py_sin "DROP" = Some (1, 0).
Proof. reflexivity. Qed.

Lemma typed_while c1 c2 d :
  typed py_sin c1 (S d) (S (S d)) -> typed py_sin c2 d (S d) ->
  typed py_sin (while_code c1 c2) d (S d).
Proof.
  intros (D1&H10&H11&H1) (D2&H20&H21&H2).
  set (l1 := length c1). set (l2 := length c2).
  change (D1 l1 = S (S d)) in H11. change (D2 l2 = S d) in H21.
  set (D := fun pc => if pc <=? 0 then d
                      else if pc <=? l1 + 1 then D1 (pc - 1)
                      else if pc <=? l1 + 2 then S d
                      else if pc <=? l1 + 3 + l2 then D2 (pc - (l1 + 3))
                      else S d).
  assert (HT : length (while_code c1 c2) = l1 + l2 + 4).
  { unfold while_code. rewrite !length_app, !length_shift. simpl. unfold l1, l2. lia. }
  exists D. unfold wt. rewrite HT. split; [|split].
  - done.
  - unfold D. leb_cases.
  - apply seg_app with 1; [|apply seg_app with (1 + l1); [|apply seg_app with (l1 + 2);
      [|apply seg_app with (l1 + 3); [|apply seg_app with (l1 + 3 + l2)]]]].
    + eapply seg_eq; [eapply (seg_single' _ [] _ _ 0); [unfold while_code; reflexivity|done|]|done|done].
      unfold D. cbn [instr_ok]. leb_cases. simpl. rewrite H10. done.
    + eapply seg_eq; [eapply (seg_embed' _ [LValue None] c1 _ 1 D1); [|done|done|]|done|done].
      * unfold while_code. reflexivity.
      * intros k Hk. unfold D. leb_cases. f_equal. lia.
    + eapply seg_eq; [eapply (seg_single' _ ([LValue None] ++ shift 1 c1) _ _ (l1 + 1));
        [unfold while_code; rewrite <- !app_assoc; reflexivity|rewrite length_app, length_shift; simpl; unfold l1; lia|]|lia|lia].
      rewrite HT. unfold D. cbv beta. fold l1 l2. cbn [instr_ok]. leb_cases.
      replace (l1 + 1 - 1) with l1 by lia. rewrite H11. repeat split; lia.
    + eapply seg_eq; [eapply (seg_single' _ ([LValue None] ++ shift 1 c1 ++ [OnFalseJump (l1 + l2 + 4)]) _ _ (l1 + 2));
        [unfold while_code; rewrite <- !app_assoc; reflexivity|rewrite !length_app, length_shift; simpl; unfold l1; lia|]|lia|lia].
      unfold D. cbv beta. cbn [instr_ok]. rewrite op_arity_DROP. leb_cases.
      replace (S (l1 + 2) - (l1 + 3)) with 0 by lia. rewrite H20. lia.
    + eapply seg_eq; [eapply (seg_embed' _ ([LValue None] ++ shift 1 c1 ++ [OnFalseJump (l1 + l2 + 4); Op "DROP"]) c2 _ (l1 + 3) D2);
        [|rewrite !length_app, length_shift; simpl; unfold l1; lia|done|]|done|done].
      * unfold while_code. rewrite <- !app_assoc. reflexivity.
      * intros k Hk. unfold D. leb_cases. f_equal. lia.
    + eapply seg_eq; [eapply (seg_single' _ ([LValue None] ++ shift 1 c1 ++ [OnFalseJump (l1 + l2 + 4); Op "DROP"] ++ shift (l1 + 3) c2) _ [] (l1 + 3 + l2));
        [unfold while_code; rewrite <- !app_assoc; reflexivity|rewrite !length_app, !length_shift; simpl; unfold l1, l2; lia|]|done|lia].
      rewrite HT. unfold D. cbv beta. cbn [instr_ok]. leb_cases.
      replace (l1 + 3 + l2 - (l1 + 3)) with l2 by lia. rewrite H21. replace (1 - 1) with 0 by lia. rewrite H10. split; lia.
Qed.

Lemma typed_nil d : typed py_sin [] d d.
Proof. exists (fun _ => d). split; [done|split; [done|]]. intros pc i ? ? ?. simpl in *. lia. Qed.

Lemma typed_binop s d : op_arity py_sin s = Some (2, 1) -> typed py_sin [Op s] (S (S d)) (S d).
Proof. intros H. apply typed_one. simpl. rewrite H. lia. Qed.

Lemma typed_arity s k m r :
  op_arity py_sin s = Some (k, m) -> typed py_sin [Op s] (k + r) (m + r).
Proof. intros H. apply typed_one. simpl. rewrite H. lia. Qed.

Lemma str_in_arity s l :
  str_in s l = true -> Forall (fun k => op_arity py_sin k = Some (2, 1)) l ->
  op_arity py_sin s = Some (2, 1).
Proof.
  unfold str_in. rewrite existsb_exists. intros (k&Hk&Hs) Hl.
  apply String.eqb_eq in Hs. subst. rewrite Forall_forall in Hl. apply Hl. apply list_elem_of_In. done.
Qed.

End Typing.

Section ParseTyping.
Variable py_sin : spec_float -> option spec_float.

Ltac rel_IH :=
  match goal with
  | H : forall code lx, ?f ?m code lx = _ |- context [?f ?m ?c ?l] =>
      lazymatch c with [] => fail | _ => rewrite (H c l) end
  end.

Ltac case_inner :=
  match goal with
  | |- context [match ?x with _ => _ end] =>
      lazymatch x with
      | context [match _ with _ => _ end] => fail
      | _ => destruct x eqn:?
      end
  end.

Lemma Ok_pair_inj {A B} (a a' : A) (b b' : B) :
  @Ok (A * B) (a, b) = Ok (a', b') -> a = a' /\ b = b'.
Proof. intros H. injection H. auto. Qed.

Ltac destr_G :=
  match goal with
  | R : forall code lx, ?f ?m code lx = _ |- context [?f ?m [] ?l] =>
      let c := fresh "c" in let l' := fresh "l" in let E := fresh "E" in
      destruct (f m [] l) as [[c l']| |] eqn:E
  end.

Ltac ty_step :=
  match goal with
  | |- typed _ (reloc [] _) _ _ => rewrite reloc_nil_l
  | |- typed _ ([] ++ _) _ _ => rewrite app_nil_l
  | |- typed _ [] _ _ => apply typed_nil
  | |- typed _ (if_code _ _ _) _ _ => apply typed_if
  | |- typed _ (while_code _ _) _ _ => apply typed_while
  | |- typed _ (reloc _ _) _ _ => eapply typed_reloc
  | |- typed _ (_ ++ [_]) _ _ => eapply typed_snoc; [| |reflexivity]
  | |- typed _ [Op "DROP"] _ _ => apply (typed_arity _ "DROP" 1 0); reflexivity
  | |- typed _ [Op "NEG"] _ _ => apply (typed_arity _ "NEG" 1 1); reflexivity
  | |- typed _ [Op "="] _ _ => apply (typed_arity _ "=" 2 1); reflexivity
  | |- typed _ [Op "[]"] _ _ => apply (typed_arity _ "[]" 0 1); reflexivity
  | |- typed _ [Op "APPEND"] _ _ => apply typed_binop; reflexivity
  | |- typed _ [Op "CALL"] _ _ => apply typed_binop; reflexivity
  | |- typed _ [Op _] _ _ =>
      apply typed_binop; eapply str_in_arity; [eassumption|repeat constructor]
  | |- typed _ [_] _ _ => apply typed_one; simpl; reflexivity
  | E : ?f ?n [] ?l = Ok (?c, _), IH : forall lx c lx', ?f ?n [] lx = Ok (c, lx') -> _
    |- typed _ ?c _ _ => eapply (IH _ _ _ E)
  end.

Lemma parse_typed n :
  ty_expr py_sin parse_exprlist n /\ ty_loop py_sin exprlist_loop n /\ ty_expr py_sin parse_expr n /\
  ty_expr py_sin parse_arexpr n /\ ty_loop py_sin arexpr_loop n /\ ty_expr py_sin parse_term n /\
  ty_loop py_sin term_loop n /\ ty_expr py_sin parse_factor n /\ ty_loop py_sin factor_loop n /\
  ty_expr py_sin parse_primary n /\ ty_expr py_sin parse_statement n /\ ty_expr py_sin parse_if_statement n /\
  ty_expr py_sin parse_while_statement n /\ ty_loop py_sin parse_args n /\ ty_loop py_sin args_loop n.
Proof.
  unfold ty_expr, ty_loop. induction n as [|n IH].
  { repeat split; discriminate. }
  destruct IH as (H1&H2&H3&H4&H5&H6&H7&H8&H9&H10&H11&H12&H13&H14&H15).
  destruct (parse_reloc n) as (R1&R2&R3&R4&R5&R6&R7&R8&R9&R10&R11&R12&R13&R14&R15).
  unfold rel_ok in *.
  repeat split; intros lx c lx' H d; cbn [parse_exprlist exprlist_loop parse_expr parse_arexpr
    arexpr_loop parse_term term_loop parse_factor factor_loop parse_primary parse_statement
    parse_if_statement parse_while_statement parse_args args_loop] in H;
    revert H; unfold obind; cbv beta iota zeta;
    repeat (first [rel_IH | destr_G | case_inner]; unfold relocate; cbv beta iota zeta);
    intros H; try discriminate; apply Ok_pair_inj in H as [<- <-].
  all: rewrite ?if_build_nil, ?if_build_noelse_nil, ?while_build.
  all: repeat ty_step.
Qed.

End ParseTyping.

Ltac raise_solve :=
  intros; repeat (case_match; simpl in *; try discriminate); simplify_eq; simpl; auto.

Lemma py_order_raise o : forall x y e, py_order o x y = Raise e -> e = TypeErr.
Proof.
  fix IH 1. intros x y e H.
  destruct x as [| | | |l| |]; try (destruct y; simpl in H; revert H; raise_solve; fail).
  destruct y as [| | | |l'| |]; simpl in H; try (revert H; raise_solve; fail).
  revert l' H. revert l. fix go 1. intros [|u a] [|w b] H; simpl in H; try discriminate.
  destruct (py_eq u w); [exact (go a b H)|exact (IH u w e H)].
Qed.



Lemma num_to_float_raise n e : num_to_float n = Raise e -> e = OverflowErr.
Proof. destruct n; simpl; unfold int_to_float; [destruct is_inf|]; congruence. Qed.

Lemma float_arith_raise op a b e : float_arith op a b = Raise e -> e = OverflowErr.
Proof.
  unfold float_arith, exn_bind.
  destruct (num_to_float a) eqn:Ha; [destruct (num_to_float b) eqn:Hb|]; intros H; simplify_eq.
  - eapply num_to_float_raise; eauto.
  - eapply num_to_float_raise; eauto.
Qed.

Ltac arith_raise :=
  intros H; repeat (case_match; try discriminate);
  try (apply float_arith_raise in H; subst); simplify_eq; simpl; auto.

Lemma py_add_raise x y e : py_add x y = Raise e -> op_error e.
Proof. unfold py_add. arith_raise. Qed.
Lemma py_sub_raise x y e : py_sub x y = Raise e -> op_error e.
Proof. unfold py_sub. arith_raise. Qed.
Lemma py_mul_raise x y e : py_mul x y = Raise e -> op_error e.
Proof. unfold py_mul. arith_raise. Qed.
Lemma py_truediv_raise x y e : py_truediv x y = Raise e -> op_error e.
Proof.
  unfold py_truediv, int_truediv, exn_bind. intros H.
  repeat (case_match; try discriminate); simplify_eq; simpl; auto.
  all: match goal with H : num_to_float _ = Raise _ |- _ => apply num_to_float_raise in H; subst; simpl; auto end.
Qed.

Lemma py_neg_raise x e : py_neg x = Raise e -> op_error e.
Proof. unfold py_neg. intros H. repeat (case_match; try discriminate); simplify_eq; simpl; auto. Qed.

Section Raises.
Variable py_sin : spec_float -> option spec_float.

Lemma py_call_raise f a o e : py_call py_sin f a o = Raise e -> op_error e.
Proof.
  unfold py_call, py_unpack, exn_bind. intros H.
  repeat (case_match; try discriminate); simplify_eq; simpl; auto.
  all: match goal with H : num_to_float _ = Raise _ |- _ => apply num_to_float_raise in H; subst; simpl; auto end.
Qed.

Lemma binary_raise s f x y o e :
  assoc s (BINARY py_sin) = Some f -> f x y o = Raise e -> op_error e.
Proof.
  unfold BINARY. cbn [assoc]. intros Hs.
  repeat (destruct (String.eqb _ s); [injection Hs as <-|]); [..|discriminate].
  all: unfold pure, py_cmp, exn_bind; intros H.
  all: try (destruct (py_order _ x y) eqn:Ho; [|apply py_order_raise in Ho; subst]; simplify_eq; simpl; auto; fail).
  all: try (eapply py_call_raise; eauto; fail).
  all: repeat (case_match; try discriminate); simplify_eq.
  all: eauto using py_add_raise, py_sub_raise, py_mul_raise, py_truediv_raise.
Qed.

End Raises.

Section Safety.
Variable py_sin : spec_float -> option spec_float.

Lemma step_typed c D pc σ :
  wt py_sin c D -> pc <= length c -> length (stack σ) = D pc ->
  match step py_sin c pc σ with
  | Next pc' σ' => pc' <= length c /\ length (stack σ') = D pc'
  | Halt => pc = length c
  | Fault e => op_error e
  end.
Proof.
  intros Hwt Hpc Hst. unfold step.
  destruct (c !! pc) as [i|] eqn:Hl; [|apply lookup_ge_None in Hl; lia].
  assert (Hlt : pc < length c) by (apply lookup_lt_Some in Hl; done).
  pose proof (Hwt pc i ltac:(lia) Hlt Hl) as Hi.
  destruct i as [v|name|o|t|t|s]; cbn [instr_ok] in Hi.
  - simpl. split; [lia|]. rewrite Hi, Hst. done.
  - destruct (env σ !! name); simpl; [split; [lia|]; rewrite Hi, Hst; done|done].
  - simpl. split; [lia|]. rewrite Hi, Hst. done.
  - destruct Hi as (?&?&?&?). destruct (stack σ) as [|v st]; simpl in Hst; [lia|].
    simpl. destruct (py_truthy v); simpl; split; lia.
  - simpl. destruct Hi. split; [done|lia].
  - unfold op_arity in Hi. destruct (assoc s (BINARY py_sin)) as [f|] eqn:Hs.
    + destruct Hi as (?&?). destruct (stack σ) as [|y [|x st]]; simpl in Hst; [lia|lia|].
      simpl. destruct (f x y (out σ)) as [[r o]|e] eqn:Hf; simpl.
      * split; [lia|]. simpl. lia.
      * eapply binary_raise; eauto.
    + destruct (String.eqb s "NEG"); [|destruct (String.eqb s "=");
        [|destruct (String.eqb s "DROP"); [|destruct (String.eqb s "[]"); [|done]]]].
      * destruct Hi as (?&?). destruct (stack σ) as [|x st]; simpl in Hst; [lia|].
        simpl. destruct (py_neg x) as [r|e] eqn:Hn; simpl.
        -- split; [lia|]. simpl. lia.
        -- eapply py_neg_raise; eauto.
      * destruct Hi as (?&?). destruct (stack σ) as [|v [|nm st]]; simpl in Hst; [lia|lia|].
        simpl. destruct nm; simpl; try (split; [lia|]; simpl; lia). done.
      * destruct Hi as (?&?). destruct (stack σ) as [|v st]; simpl in Hst; [lia|].
        simpl. split; lia.
      * destruct Hi as (?&?). simpl. split; [lia|]. simpl. lia.
Qed.

Lemma exec_typed c D pc σ r :
  exec py_sin c pc σ r -> wt py_sin c D -> pc <= length c -> length (stack σ) = D pc ->
  match r with
  | Halted σ' => length (stack σ') = D (length c)
  | Faulted e _ => op_error e
  end.
Proof.
  induction 1 as [pc σ Hs|pc σ e Hs|pc σ pc' σ' r Hs _ IH]; intros Hwt Hpc Hst;
    pose proof (step_typed c D pc σ Hwt Hpc Hst) as Ht; rewrite Hs in Ht.
  - subst. done.
  - done.
  - destruct Ht. apply IH; done.
Qed.

Lemma compile_exprlist n filename text code :
  compile n filename text = Ok code ->
  exists lx lx', parse_exprlist n [] lx = Ok (code, lx').
Proof.
  unfold compile, parse_program, obind.
  destruct (lexer_init filename text) as [lx| |]; [|discriminate|discriminate].
  destruct (parse_exprlist n [] lx) as [[c lx']| |] eqn:E; [|discriminate|discriminate].
  destruct (expects "EOF" lx'); [|discriminate|discriminate].
  intros H. injection H as <-. eauto.
Qed.

End Safety.

Lemma run_exec py_sin fuel c pc σ r : run py_sin fuel c pc σ = Some r -> exec py_sin c pc σ r.
Proof.
  revert pc σ. induction fuel as [|fuel IH]; intros pc σ; simpl; [discriminate|].
  destruct (step py_sin c pc σ) eqn:Hs; intros H.
  - eapply exec_next; eauto.
  - injection H as <-. apply exec_halt; done.
  - injection H as <-. apply exec_fault; done.
Qed.

Lemma exec_of_run py_sin n fuel filename text E (Q : result -> Prop) :
  match compile n filename text with
  | Ok code => match run py_sin fuel code 0 (init_state E) with Some r => Q r | None => False end
  | _ => False
  end ->
  exists code r, compile n filename text = Ok code /\ exec py_sin code 0 (init_state E) r /\ Q r.
Proof.
  destruct (compile n filename text) as [code| |]; [|done|done].
  destruct (run py_sin fuel code 0 (init_state E)) as [r|] eqn:Hr; [|done].
  intros HQ. exists code, r. split; [done|]. split; [|done]. eapply run_exec; eauto.
Qed.

Section Steps.
Variable py_sin : spec_float -> option spec_float.

Lemma steps_trans c pc1 σ1 pc2 σ2 pc3 σ3 :
  steps py_sin c pc1 σ1 pc2 σ2 -> steps py_sin c pc2 σ2 pc3 σ3 -> steps py_sin c pc1 σ1 pc3 σ3.
Proof. induction 1; [done|]. intros. eapply steps_step; eauto. Qed.

Lemma steps_one c pc σ pc' σ' : step py_sin c pc σ = Next pc' σ' -> steps py_sin c pc σ pc' σ'.
Proof. intros. eapply steps_step; [eassumption|constructor]. Qed.

Lemma step_lookup c c' pc σ : c !! pc = c' !! pc -> step py_sin c pc σ = step py_sin c' pc σ.
Proof. intros H. unfold step. rewrite H. done. Qed.

Lemma step_next_lookup c pc σ pc' σ' : step py_sin c pc σ = Next pc' σ' -> exists i, c !! pc = Some i.
Proof. unfold step. destruct (c !! pc); [eauto|discriminate]. Qed.

Lemma steps_app_r c d pc σ pc' σ' : steps py_sin c pc σ pc' σ' -> steps py_sin (c ++ d) pc σ pc' σ'.
Proof.
  induction 1 as [|pc σ pc' σ' pc'' σ'' Hs _ IH]; [constructor|].
  eapply steps_step; [|exact IH].
  destruct (step_next_lookup _ _ _ _ _ Hs) as [i Hi].
  rewrite <- Hs. apply step_lookup. rewrite (lookup_app_l_Some _ _ _ _ Hi). done.
Qed.

Lemma step_shift_instr c pc σ pc' σ' o :
  step py_sin c pc σ = Next pc' σ' ->
  forall c', c' !! (o + pc) = shift_instr o <$> c !! pc ->
  step py_sin c' (o + pc) σ = Next (o + pc') σ'.
Proof.
  intros Hs c' Hl. destruct (step_next_lookup _ _ _ _ _ Hs) as [i Hi].
  rewrite Hi in Hl. simpl in Hl. revert Hs. unfold step. rewrite Hl, Hi.
  destruct i; cbn [shift_instr]; intros Hs;
    unfold exn_step, exn_bind in *;
    repeat (case_match; try discriminate); simplify_eq; f_equal; lia.
Qed.

Lemma lookup_embed (p c q : list instr) pc :
  pc < length c -> (p ++ shift (length p) c ++ q) !! (length p + pc) = shift_instr (length p) <$> c !! pc.
Proof.
  intros Hlt. rewrite lookup_app_r by lia. rewrite lookup_app_l by (rewrite length_shift; lia).
  replace (length p + pc - length p) with pc by lia. unfold shift. apply list_lookup_fmap.
Qed.

Lemma steps_embed p c q pc σ pc' σ' :
  steps py_sin c pc σ pc' σ' -> steps py_sin (p ++ shift (length p) c ++ q) (length p + pc) σ (length p + pc') σ'.
Proof.
  induction 1 as [|pc σ pc' σ' pc'' σ'' Hs _ IH]; [constructor|].
  eapply steps_step; [|exact IH].
  eapply step_shift_instr; [exact Hs|]. apply lookup_embed.
  destruct (step_next_lookup _ _ _ _ _ Hs) as [i Hi]. apply lookup_lt_Some in Hi. done.
Qed.

Lemma steps_reloc code c σ σ' :
  steps py_sin c 0 σ (length c) σ' -> steps py_sin (reloc code c) (length code) σ (length (reloc code c)) σ'.
Proof.
  intros H. rewrite length_reloc. unfold reloc.
  pose proof (steps_embed code c [] 0 σ (length c) σ' H) as H'.
  rewrite app_nil_r, Nat.add_0_r in H'. exact H'.
Qed.

End Steps.

Lemma if_noelse_false py_sin c1 c2 σ σ1 v :
  steps py_sin c1 0 σ (length c1) σ1 -> stack σ1 = v :: stack σ -> py_truthy v = false ->
  steps py_sin (if_code c1 c2 [LValue None]) 0 σ (length (if_code c1 c2 [LValue None]))
    (mkst (VNone :: stack σ) (env σ1) (out σ1)).
Proof.
  intros H1 Hst Hv.
  assert (Hc : if_code c1 c2 [LValue None] =
    (c1 ++ OnFalseJump (length c1 + length c2 + 2) :: shift (length c1 + 1) c2 ++
      [Jump (length c1 + length c2 + 2 + 1)]) ++ [LValue None]).
  { unfold if_code. rewrite shift_cons, shift_nil. simpl. rewrite <- !app_assoc. simpl. rewrite <- !app_assoc. reflexivity. }
  rewrite Hc. eapply steps_trans.
  { rewrite <- app_assoc. apply steps_app_r. exact H1. }
  eapply steps_step.
  { unfold step. rewrite <- app_assoc, <- app_comm_cons, list_lookup_middle by done. rewrite Hst. simpl. rewrite Hv. reflexivity. }
  match goal with |- steps _ _ _ _ ?L _ => replace L with (S (length c1 + length c2 + 2)) end.
  2: { rewrite !length_app. simpl. rewrite length_app, length_shift. simpl. lia. }
  apply steps_one. unfold step.
  rewrite list_lookup_middle; [reflexivity|].
  rewrite length_app. simpl. rewrite length_app, length_shift. simpl. lia.
Qed.

Section Seq.
Variable py_sin : spec_float -> option spec_float.

Lemma steps_drop_then acc c σ0 v s E O σ' :
  steps py_sin acc 0 σ0 (length acc) (mkst (v :: s) E O) ->
  steps py_sin c 0 (mkst s E O) (length c) σ' ->
  steps py_sin (reloc (acc ++ [Op "DROP"]) c) 0 σ0 (length (reloc (acc ++ [Op "DROP"]) c)) σ'.
Proof.
  intros Ha Hc. eapply steps_trans.
  { unfold reloc. rewrite <- app_assoc. apply steps_app_r. exact Ha. }
  eapply steps_step.
  { unfold step, reloc. rewrite <- app_assoc. simpl. rewrite list_lookup_middle by done. reflexivity. }
  replace (S (length acc)) with (length (acc ++ [Op "DROP"])) by (rewrite length_app; simpl; lia).
  apply steps_reloc. exact Hc.
Qed.

Lemma seq_acc_steps s cs E O w E' O' :
  seq_runs py_sin s cs E O w E' O' ->
  forall acc σ0 v, steps py_sin acc 0 σ0 (length acc) (mkst (v :: s) E O) ->
  steps py_sin (seq_acc acc cs) 0 σ0 (length (seq_acc acc cs)) (mkst (w :: s) E' O').
Proof.
  induction 1 as [c E O v E' O' Hc|c cs E O v E1 O1 w E' O' Hc _ IH]; intros acc σ0 u Ha; simpl.
  - eapply steps_drop_then; eassumption.
  - apply (IH _ σ0 v). eapply steps_drop_then; eassumption.
Qed.

End Seq.

Lemma str_app_cons ch (a b : string) : (String ch a ++ b)%string = String ch (a ++ b).
Proof. reflexivity. Qed.

Lemma str_app_assoc (a b c : string) : ((a ++ b) ++ c)%string = (a ++ (b ++ c))%string.
Proof. induction a as [|ch a IH]; [done|]. rewrite !str_app_cons, IH. done. Qed.

Lemma advance_app a b r c :
  advance (a ++ b) r c = let '(r', c') := advance a r c in advance b r' c'.
Proof.
  revert r c. induction a as [|ch a IH]; intros r c; [done|]. simpl.
  destruct (adv ch r c) as [r1 c1]. apply IH.
Qed.

Lemma take_while_spec p t r c :
  let '(w, rest, r', c') := take_while p t r c in
  t = (w ++ rest)%string /\ advance w r c = (r', c').
Proof.
  revert r c. induction t as [|ch t IH]; intros r c; simpl; [done|].
  destruct (p ch); [|done].
  destruct (adv ch r c) as [r1 c1] eqn:Ha.
  specialize (IH r1 c1). destruct (take_while p t r1 c1) as [[[w rest] r'] c'].
  destruct IH as [-> H]. simpl. rewrite Ha. done.
Qed.

Lemma inv_extend filename text lx w t r k tok :
  lx_inv filename text lx -> lx_text lx = (w ++ t)%string ->
  advance w (lx_row lx) (lx_col lx) = (r, k) ->
  lx_inv filename text (with_token lx t r k tok).
Proof.
  intros (Hf & pre & Ht & Hp) Hw Ha. split; [done|]. exists (pre ++ w)%string. simpl. split.
  - rewrite Ht, Hw. symmetry. apply str_app_assoc.
  - rewrite advance_app, Hp. done.
Qed.

Lemma adv_not_nl c r k : Ascii.eqb c "010"%char = false -> adv c r k = (r, S k).
Proof. intros H. unfold adv. rewrite H. done. Qed.

Lemma lex_error_ok {A} filename text (P : A -> Prop) lx m :
  lx_inv filename text lx -> out_ok filename text P (lex_error lx m).
Proof. intros (Hf & pre & Ht & Hp). simpl. split; [done|]. eauto. Qed.

Lemma next_token_inv filename text lx :
  lx_inv filename text lx -> out_ok filename text (lx_inv filename text) (next_token lx).
Proof.
  intros Hi. unfold next_token.
  pose proof (take_while_spec is_space (lx_text lx) (lx_row lx) (lx_col lx)) as Hs.
  destruct (take_while is_space (lx_text lx) (lx_row lx) (lx_col lx)) as [[[ws t] r] k].
  destruct Hs as [Ht Ha].
  pose proof (inv_extend filename text lx ws t r k (lx_token lx) Hi Ht Ha) as Hi'.
  set (lx' := with_token lx t r k (lx_token lx)) in *.
  destruct t as [|c t'].
  - simpl. eapply (inv_extend _ _ lx' EmptyString); [done|done|done].
  - destruct (is_alpha c).
    { simpl. unfold lex_variable.
      pose proof (take_while_spec is_alnum (lx_text lx') (lx_row lx') (lx_col lx')) as Hw.
      destruct (take_while is_alnum _ _ _) as [[[w rest] r2] k2].
      destruct Hw as [Hw1 Hw2]. eapply inv_extend; eassumption. }
    destruct (is_digit c).
    { simpl. unfold lex_number.
      pose proof (take_while_spec is_digit (lx_text lx') (lx_row lx') (lx_col lx')) as Hw.
      destruct (take_while is_digit _ _ _) as [[[w rest] r2] k2].
      destruct Hw as [Hw1 Hw2].
      destruct rest as [|d rest'];
        [destruct (Nat.ltb _ _); [exact I|eapply inv_extend; eassumption]|].
      destruct (Ascii.eqb_spec d "."%char) as [->|Hd].
      - pose proof (take_while_spec is_digit rest' r2 (S k2)) as Hf.
        destruct (take_while is_digit rest' r2 (S k2)) as [[[fr rest''] r3] k3].
        destruct Hf as [Hf1 Hf2].
        apply (inv_extend _ _ lx' (w ++ String "." fr)); [done| |].
        + rewrite Hw1, Hf1. rewrite str_app_assoc. done.
        + rewrite advance_app, Hw2. simpl. exact Hf2.
      - destruct d as [[] [] [] [] [] [] [] []];
          try (destruct (Nat.ltb _ _); [exact I|eapply inv_extend; eassumption]).
        exfalso. apply Hd. reflexivity. }
    destruct (str_in (substring 0 2 (String c t')) OPS2) eqn:H2.
    { destruct t' as [|c2 t'']; [exact Hi'|]. simpl.
      assert (Hc : Ascii.eqb c "010"%char = false /\ Ascii.eqb c2 "010"%char = false).
      { split; [destruct (Ascii.eqb c "010"%char) eqn:E|destruct (Ascii.eqb c2 "010"%char) eqn:E];
          try reflexivity; apply Ascii.eqb_eq in E; subst; simpl in H2;
          repeat (match type of H2 with context [if ?b then _ else _] => destruct b end);
          discriminate. }
      apply (inv_extend _ _ lx' (String c (String c2 EmptyString))); [done| |].
      - simpl. done.
      - simpl. destruct Hc as [Hc Hc2]. rewrite adv_not_nl by done. rewrite adv_not_nl by done. done. }
    destruct (str_in (String c EmptyString) OPS) eqn:H1.
    { simpl. apply (inv_extend _ _ lx' (String c EmptyString)); [done| |].
      - simpl. done.
      - simpl. rewrite adv_not_nl; [done|].
        destruct (Ascii.eqb_spec c "010"%char) as [->|]; [discriminate|].
        destruct (Ascii.eqb c "010"%char) eqn:E; [apply Ascii.eqb_eq in E; done|done]. }
    apply lex_error_ok. done.
Qed.

Lemma obind_assoc {A B C} (m : outcome A) (k1 : A -> outcome B) (k2 : B -> outcome C) :
  obind (obind m k1) k2 = obind m (fun a => obind (k1 a) k2).
Proof. destruct m; done. Qed.

Lemma advance_pos s : forall r c, 1 <= r -> 1 <= c ->
  1 <= fst (advance s r c) /\ 1 <= snd (advance s r c).
Proof.
  induction s as [|ch s IH]; intros r c Hr Hc; simpl; [lia|].
  unfold adv. destruct (Ascii.eqb ch "010"%char); apply IH; lia.
Qed.

Lemma exec_step_fault py_sin code pc σ e r :
  step py_sin code pc σ = Fault e -> exec py_sin code pc σ r -> r = Faulted e σ.
Proof. intros Hs Hx. inversion Hx; congruence. Qed.

(** ** Runs of the example programs *)

Lemma c3_run py_sin : exists code σ,
  compile 100 "f" "i = 0; while i < 3 do i = i + 1 end; i" = Ok code /\
  exec py_sin code 0 (init_state builtins) (Halted σ) /\ stack σ = [VInt 3].
Proof.
  destruct (exec_of_run py_sin 100 1000 "f" "i = 0; while i < 3 do i = i + 1 end; i" builtins
    (fun r => match r with Halted σ => stack σ = [VInt 3] | _ => False end)) as (code & r & Hc & Hx & Hq).
  { vm_compute. reflexivity. }
  destruct r; try contradiction. eauto.
Qed.

Lemma c4_run py_sin : exists code σ,
  compile 100 "f" "if FALSE then 1 end" = Ok code /\
  exec py_sin code 0 (init_state builtins) (Halted σ) /\ stack σ = [VNone].
Proof.
  destruct (exec_of_run py_sin 100 100 "f" "if FALSE then 1 end" builtins
    (fun r => match r with Halted σ => stack σ = [VNone] | _ => False end)) as (code & r & Hc & Hx & Hq).
  { vm_compute. reflexivity. }
  destruct r; try contradiction. eauto.
Qed.


Lemma c8_run py_sin : exists code,
  compile 100 "f" "y + 1" = Ok code /\
  exec py_sin code 0 (init_state builtins) (Faulted (NameFault "y") (init_state builtins)) /\
  (forall r, exec py_sin code 0 (init_state builtins) r -> r = Faulted (NameFault "y") (init_state builtins)).
Proof.
  exists [ID "y"; RValue (VInt 1); Op "+"]. split; [vm_compute; reflexivity|].
  assert (Hs : step py_sin [ID "y"; RValue (VInt 1); Op "+"] 0 (init_state builtins) = Fault (NameFault "y"))
    by (vm_compute; reflexivity).
  split; [apply exec_fault; exact Hs|]. intros r. apply exec_step_fault. exact Hs.
Qed.

Lemma c9_run py_sin : exists code σ,
  compile 100 "f" "a = 2; b = 3; -a + b" = Ok code /\
  exec py_sin code 0 (init_state builtins) (Halted σ) /\ stack σ = [VInt 1].
Proof.
  destruct (exec_of_run py_sin 100 100 "f" "a = 2; b = 3; -a + b" builtins
    (fun r => match r with Halted σ => stack σ = [VInt 1] | _ => False end)) as (code & r & Hc & Hx & Hq).
  { vm_compute. reflexivity. }
  destruct r; try contradiction. eauto.
Qed.

Lemma take_while_app p w rest r c :
  all_chars p w = true -> starts_with p rest = false ->
  take_while p (w ++ rest) r c = (w, rest, fst (advance w r c), snd (advance w r c)).
Proof.
  revert r c. induction w as [|ch w IH]; intros r c Hw Hr.
  - destruct rest as [|ch rest]; [done|]. simpl in *. rewrite Hr. done.
  - simpl in Hw. apply andb_true_iff in Hw as [Hch Hw]. simpl. rewrite Hch.
    destruct (adv ch r c) as [r1 c1]. rewrite IH by done. done.
Qed.

Lemma take_while_all p t r c :
  let '(w, rest, r', c') := take_while p t r c in
  all_chars p w = true /\ starts_with p rest = false.
Proof.
  revert r c. induction t as [|ch t IH]; intros r c; simpl; [done|].
  destruct (p ch) eqn:Hp; [|simpl; rewrite Hp; done].
  destruct (adv ch r c) as [r1 c1].
  specialize (IH r1 c1). destruct (take_while p t r1 c1) as [[[w rest] r'] c'].
  destruct IH as [H1 H2]. simpl. rewrite Hp, H1. done.
Qed.

Lemma all_chars_app p a b : all_chars p (a ++ b) = all_chars p a && all_chars p b.
Proof. induction a as [|ch a IH]; [done|]. simpl. rewrite IH, andb_assoc. done. Qed.

Lemma alpha_not_space ch : is_alpha ch = true -> is_space ch = false.
Proof. unfold is_alpha, is_space. generalize (nat_of_ascii ch). intros k. leb_cases; done. Qed.

Lemma digit_not_space ch : is_digit ch = true -> is_space ch = false.
Proof. unfold is_digit, is_space. generalize (nat_of_ascii ch). intros k. leb_cases; done. Qed.

Lemma digit_not_alpha ch : is_digit ch = true -> is_alpha ch = false.
Proof. unfold is_digit, is_alpha. generalize (nat_of_ascii ch). intros k. leb_cases; done. Qed.

Lemma alnum_of_alpha ch : is_alpha ch = true -> is_alnum ch = true.
Proof. unfold is_alnum. intros ->. done. Qed.

Lemma alpha_not_nl ch : is_alpha ch = true -> Ascii.eqb ch "010"%char = false.
Proof.
  intros H. destruct (Ascii.eqb_spec ch "010"%char) as [->|]; [discriminate|done].
Qed.

(** * Chains of items and the position of faults *)

Lemma tok_in_single t s : tok_in t [s] = tok_is t s.
Proof. destruct t; simpl; [apply orb_false_r|done|done]. Qed.

Lemma exprlist_loop_chain n acc lx code lx' :
  exprlist_loop n acc lx = Ok (code, lx') ->
  exists ps, code = seq_acc acc (map fst ps) /\ sep_chain [";"] parse_expr lx ps lx'.
Proof.
  revert acc lx. induction n as [|n IH]; intros acc lx; [discriminate|].
  destruct (parse_reloc n) as (_&_&R3&_).
  cbn [exprlist_loop]. destruct (tok_is (lx_token lx) ";") eqn:Hs.
  - unfold obind. destruct (next_token lx) as [l1| |] eqn:E1; try discriminate.
    rewrite R3. destruct (parse_expr n [] l1) as [[c l2]| |] eqn:E; cbn [relocate]; try discriminate.
    intros H. destruct (IH _ _ H) as (ps & -> & Hc). exists ((c, ";"%string) :: ps). split; [done|].
    destruct (lx_token lx) as [s| |] eqn:Ht; try discriminate.
    cbn [tok_is] in Hs. apply String.eqb_eq in Hs. subst s. eapply chain_step; eauto.
  - intros H. injection H as <- <-. exists []. split; [done|].
    constructor. rewrite tok_in_single. done.
Qed.

Lemma args_loop_chain n acc lx code lx' :
  args_loop n acc lx = Ok (code, lx') ->
  exists ps, code = args_acc acc (map fst ps) /\ sep_chain [","] parse_expr lx ps lx'.
Proof.
  revert acc lx. induction n as [|n IH]; intros acc lx; [discriminate|].
  destruct (parse_reloc n) as (_&_&R3&_).
  cbn [args_loop]. destruct (tok_is (lx_token lx) ",") eqn:Hs.
  - unfold obind. destruct (next_token lx) as [l1| |] eqn:E1; try discriminate.
    rewrite R3. destruct (parse_expr n [] l1) as [[c l2]| |] eqn:E; cbn [relocate]; try discriminate.
    intros H. destruct (IH _ _ H) as (ps & -> & Hc). exists ((c, ","%string) :: ps). split; [done|].
    destruct (lx_token lx) as [s| |] eqn:Ht; try discriminate.
    cbn [tok_is] in Hs. apply String.eqb_eq in Hs. subst s. eapply chain_step; eauto.
  - intros H. injection H as <- <-. exists []. split; [done|].
    constructor. rewrite tok_in_single. done.
Qed.

Lemma arexpr_loop_chain n acc lx code lx' :
  arexpr_loop n acc lx = Ok (code, lx') ->
  exists ps, code = binop_acc acc ps /\ sep_chain ["+"; "-"] parse_term lx ps lx'.
Proof.
  revert acc lx. induction n as [|n IH]; intros acc lx; [discriminate|].
  destruct (parse_reloc n) as (_&_&_&_&_&R6&_).
  cbn [arexpr_loop]. destruct (lx_token lx) as [sign|x|v] eqn:Ht.
  - destruct (str_in sign ["+"; "-"]%string) eqn:Hs.
    + unfold obind. destruct (next_token lx) as [l1| |] eqn:E1; try discriminate.
      rewrite R6. destruct (parse_term n [] l1) as [[c l2]| |] eqn:E; cbn [relocate]; try discriminate.
      intros H. destruct (IH _ _ H) as (ps & -> & Hc). exists ((c, sign) :: ps).
      split; [done|]. eapply chain_step; eauto.
    + intros H. injection H as <- <-. exists []. split; [done|]. constructor. rewrite Ht. exact Hs.
  - intros H. injection H as <- <-. exists []. split; [done|]. constructor. rewrite Ht. done.
  - intros H. injection H as <- <-. exists []. split; [done|]. constructor. rewrite Ht. done.
Qed.

Lemma term_loop_chain n acc lx code lx' :
  term_loop n acc lx = Ok (code, lx') ->
  exists ps, code = binop_acc acc ps /\ sep_chain ["*"; "/"] parse_factor lx ps lx'.
Proof.
  revert acc lx. induction n as [|n IH]; intros acc lx; [discriminate|].
  destruct (parse_reloc n) as (_&_&_&_&_&_&_&R8&_).
  cbn [term_loop]. destruct (lx_token lx) as [sign|x|v] eqn:Ht.
  - destruct (str_in sign ["*"; "/"]%string) eqn:Hs.
    + unfold obind. destruct (next_token lx) as [l1| |] eqn:E1; try discriminate.
      rewrite R8. destruct (parse_factor n [] l1) as [[c l2]| |] eqn:E; cbn [relocate]; try discriminate.
      intros H. destruct (IH _ _ H) as (ps & -> & Hc). exists ((c, sign) :: ps).
      split; [done|]. eapply chain_step; eauto.
    + intros H. injection H as <- <-. exists []. split; [done|]. constructor. rewrite Ht. exact Hs.
  - intros H. injection H as <- <-. exists []. split; [done|]. constructor. rewrite Ht. done.
  - intros H. injection H as <- <-. exists []. split; [done|]. constructor. rewrite Ht. done.
Qed.

Lemma reach_inv filename text lx : lex_reach filename text lx -> lx_inv filename text lx.
Proof.
  induction 1 as [|lx lx' _ IH Hn].
  - split; [done|]. exists EmptyString. done.
  - pose proof (next_token_inv filename text lx IH) as H. rewrite Hn in H. exact H.
Qed.

Lemma read_reach filename text lx : read_at filename text lx -> lex_reach filename text lx.
Proof. intros (lx0 & H0 & Hn). eapply reach_next; eassumption. Qed.

Lemma next_token_fail lx f r c m :
  next_token lx = Fail (SyntaxError f r c m) ->
  f = lx_file lx /\ exists ws ch t, lx_text lx = (ws ++ String ch t)%string /\
    all_chars is_space ws = true /\ (r, c) = advance ws (lx_row lx) (lx_col lx).
Proof.
  unfold next_token.
  pose proof (take_while_spec is_space (lx_text lx) (lx_row lx) (lx_col lx)) as Hs.
  pose proof (take_while_all is_space (lx_text lx) (lx_row lx) (lx_col lx)) as Ha.
  destruct (take_while is_space (lx_text lx) (lx_row lx) (lx_col lx)) as [[[ws t] r'] k'].
  destruct Hs as [Ht Hadv]. destruct Ha as [Hws _].
  destruct t as [|ch t]; [discriminate|].
  destruct (is_alpha ch); [discriminate|].
  destruct (is_digit ch).
  { unfold lex_number. cbn [with_token lx_text lx_row lx_col].
    destruct (take_while is_digit _ _ _) as [[[w rest] r2] k2].
    destruct rest as [|d rest]; [destruct (Nat.ltb _ _); discriminate|].
    destruct d as [[] [] [] [] [] [] [] []];
      try (destruct (take_while is_digit _ _ _) as [[[? ?] ?] ?]; discriminate);
      destruct (Nat.ltb _ _); discriminate. }
  destruct (str_in _ OPS2); [destruct t; discriminate|].
  destruct (str_in _ OPS); [discriminate|].
  intros H. injection H as <- <- <- _. split; [done|].
  exists ws, ch, t. split; [done|]. split; [done|]. rewrite Hadv. done.
Qed.

Lemma out_at_bind {A B} filename text (Q : A -> Prop) (P : B -> Prop) m k :
  out_at filename text Q m -> (forall a, Q a -> out_at filename text P (k a)) ->
  out_at filename text P (obind m k).
Proof. destruct m; simpl; auto. Qed.

Lemma next_token_at filename text lx :
  lex_reach filename text lx -> out_at filename text (read_at filename text) (next_token lx).
Proof.
  intros Hr. destruct (next_token lx) as [lx'|e|] eqn:Hn; cbn [out_at]; [eexists; eauto| |done].
  destruct e as [f r c m| |]; cbn [fault_at]; [|done|done].
  destruct (next_token_fail lx f r c m Hn) as [-> Hp].
  destruct (reach_inv filename text lx Hr) as [Hf _]. split; [done|].
  exists lx. split; [done|]. right. split; [done|exact Hp].
Qed.

Lemma lex_error_at {A} filename text (P : A -> Prop) lx pfx s :
  read_at filename text lx ->
  (token_str (lx_token lx) = Ok s \/ token_repr (lx_token lx) = Ok s) ->
  out_at filename text P (lex_error lx (pfx ++ s)).
Proof.
  intros (lx0 & H0 & Hn) Hs. cbn [lex_error out_at fault_at].
  destruct (reach_inv filename text lx (reach_next _ _ _ _ H0 Hn)) as [Hf _].
  split; [done|]. exists lx0. split; [done|]. left. exists lx. eauto 10.
Qed.

Lemma repr_error_at {A} filename text (P : A -> Prop) lx t pfx :
  read_at filename text lx -> lx_token lx = t ->
  out_at filename text P (obind (token_repr t) (fun r => lex_error lx (pfx ++ r))).
Proof.
  intros Hr <-. destruct (token_repr (lx_token lx)) as [s|e|] eqn:Hs; cbn [obind out_at];
    [apply lex_error_at; auto| |done].
  destruct (lx_token lx); discriminate Hs || (injection Hs as <-; done).
Qed.

Lemma expects_at filename text tok lx :
  read_at filename text lx -> out_at filename text (read_at filename text) (expects tok lx).
Proof.
  intros Hr. unfold expects. destruct (tok_is (lx_token lx) tok).
  - apply next_token_at. apply read_reach. exact Hr.
  - destruct (token_str (lx_token lx)) as [s|e|] eqn:Hs; cbn [obind out_at]; [| |done].
    + rewrite <- !str_app_assoc.
      apply lex_error_at; auto.
    + destruct (lx_token lx); discriminate Hs || (injection Hs as <-; done).
Qed.

Ltac at_step :=
  match goal with
  | |- out_at _ _ _ (obind (obind _ _) _) => rewrite obind_assoc
  | |- out_at _ _ _ (obind (next_token _) _) =>
      eapply out_at_bind; [apply next_token_at; apply read_reach; assumption|intros ? ?]
  | |- out_at _ _ _ (obind (expects _ _) _) =>
      eapply out_at_bind; [apply expects_at; assumption|intros ? ?]
  | |- out_at _ _ _ (obind (token_repr _) _) =>
      apply repr_error_at; [assumption|first [reflexivity|assumption]]
  | |- out_at _ _ _ (obind (Ok _) _) => cbn [obind]
  | H : forall code lx, read_at _ _ lx -> out_at _ _ _ (?f ?m code lx)
    |- out_at _ _ _ (obind (?f ?m _ _) _) =>
      eapply out_at_bind; [apply H; assumption|intros [? ?] ?; cbn [snd] in *]
  | H : forall code lx, read_at _ _ lx -> out_at _ _ _ (?f ?m code lx)
    |- out_at _ _ _ (?f ?m _ _) => apply H; assumption
  | |- out_at _ _ _ (Ok (_, _)) => cbn [out_at snd]; assumption
  | |- out_at _ _ _ (obind (match lx_token ?l with _ => _ end) _) => destruct (lx_token l) eqn:?
  | |- out_at _ _ _ (match lx_token ?l with _ => _ end) => destruct (lx_token l) eqn:?
  | |- out_at _ _ _ (obind (match ?x with _ => _ end) _) => destruct x
  | |- out_at _ _ _ (obind (if ?b then _ else _) _) => destruct b
  | |- out_at _ _ _ (match ?x with _ => _ end) => destruct x
  | |- out_at _ _ _ (if ?b then _ else _) => destruct b
  end.

Lemma parse_at filename text n :
  pos_at filename text parse_exprlist n /\ pos_at filename text exprlist_loop n /\
  pos_at filename text parse_expr n /\ pos_at filename text parse_arexpr n /\
  pos_at filename text arexpr_loop n /\ pos_at filename text parse_term n /\
  pos_at filename text term_loop n /\ pos_at filename text parse_factor n /\
  pos_at filename text factor_loop n /\ pos_at filename text parse_primary n /\
  pos_at filename text parse_statement n /\ pos_at filename text parse_if_statement n /\
  pos_at filename text parse_while_statement n /\ pos_at filename text parse_args n /\
  pos_at filename text args_loop n.
Proof.
  unfold pos_at. induction n as [|n IH]; [repeat split; intros; exact I|].
  destruct IH as (H1&H2&H3&H4&H5&H6&H7&H8&H9&H10&H11&H12&H13&H14&H15).
  repeat split; intros code lx Hi;
    cbn [parse_exprlist exprlist_loop parse_expr parse_arexpr arexpr_loop parse_term term_loop
         parse_factor factor_loop parse_primary parse_statement parse_if_statement
         parse_while_statement parse_args args_loop];
    repeat at_step.
Qed.

Lemma compile_at n filename text :
  out_at filename text (fun _ => True) (compile n filename text).
Proof.
  unfold compile, lexer_init, parse_program.
  eapply out_at_bind; [apply next_token_at; apply reach_init|].
  intros lx Hi. rewrite obind_assoc.
  eapply out_at_bind; [apply (parse_at filename text n); exact Hi|].
  intros [code lx'] Hi'. cbn [snd] in Hi'. cbv beta iota. rewrite ?obind_assoc.
  eapply out_at_bind; [apply expects_at; exact Hi'|]. done.
Qed.

(** * The claims *)

(** ** C1 *)

(** C1: the tape compiled from a syntactically valid program never
    underflows the stack and never meets an instruction the machine does
    not know: when its run halts, exactly one value is left on the stack,
    and when it faults, the fault is neither [Underflow] nor
    [BadInstruction]. It is one of [NameFault], [TypeErr], [ZeroDivErr],
    [OverflowErr] and [ValueErr] ([op_error]). *)
Theorem compiled_tape_safe py_sin n filename text code E r :
  compile n filename text = Ok code ->
  exec py_sin code 0 (init_state E) r ->
  match r with
  | Halted σ => exists v, stack σ = [v]
  | Faulted e _ => e <> Underflow /\ e <> BadInstruction /\ op_error e
  end.
Proof.
  intros Hc Hx. destruct (compile_exprlist n filename text code Hc) as (lx & lx' & Hp).
  destruct (proj1 (parse_typed py_sin n) lx code lx' Hp 0) as (D & HD0 & HDn & Hwt).
  pose proof (exec_typed py_sin code D 0 (init_state E) r Hx Hwt ltac:(lia)
    ltac:(rewrite HD0; reflexivity)) as H.
  destruct r as [σ|e σ].
  - rewrite HDn in H. destruct (stack σ) as [|v [|]]; simpl in H; try lia. eauto.
  - destruct e; simpl in H; try contradiction; repeat split; try discriminate; exact I.
Qed.

Lemma compiled_tape_safe_witness : exists code σ,
  compile 100 "f" "i = 0; while i < 3 do i = i + 1 end; i" = Ok code /\
  exec (fun _ => None) code 0 (init_state builtins) (Halted σ) /\ exists v, stack σ = [v].
Proof.
  destruct (exec_of_run (fun _ => None) 100 1000 "f" "i = 0; while i < 3 do i = i + 1 end; i" builtins
    (fun r => match r with Halted _ => True | _ => False end)) as (code & r & Hc & Hx & Hq).
  { vm_compute. exact I. }
  destruct r as [σ|]; [|contradiction]. exists code, σ. split; [exact Hc|]. split; [exact Hx|].
  exact (compiled_tape_safe (fun _ => None) 100 "f" _ code builtins (Halted σ) Hc Hx).
Defined.

(** [1/0] compiles, and its run faults with Python's [ZeroDivisionError]:
    neither a stack underflow nor an unbound name. *)
Lemma c1_cex : exists code σ,
  compile 100 "f" "1/0" = Ok code /\
  forall py_sin, exec py_sin code 0 (init_state builtins) (Faulted ZeroDivErr σ).
Proof.
  exists [RValue (VInt 1); RValue (VInt 0); Op "/"], (mkst [VInt 0; VInt 1] builtins []).
  split; [vm_compute; reflexivity|]. intros py_sin. apply (run_exec py_sin 10). vm_compute. reflexivity.
Qed.

(** ** C2 *)

(** C2: [OnFalseJump t] pops the tested value and jumps to [t] exactly when
    the value is falsy for Python: [False], [None], the integer 0, the
    floats 0.0 and -0.0, the empty list and the empty string. *)
Theorem onfalsejump_truthiness py_sin code pc t σ v s :
  code !! pc = Some (OnFalseJump t) -> stack σ = v :: s ->
  step py_sin code pc σ = Next (if py_truthy v then S pc else t) (mkst s (env σ) (out σ)) /\
  (py_truthy v = false <->
     v = VBool false \/ v = VNone \/ v = VInt 0 \/ v = VFloat (S754_zero false) \/
     v = VFloat (S754_zero true) \/ v = VList [] \/ v = VStr EmptyString).
Proof.
  intros Hl Hs. split.
  - unfold step. rewrite Hl, Hs. reflexivity.
  - split.
    + destruct v as [z|f|b| |l|str|g]; simpl; intros H.
      * destruct z; simpl in H; try discriminate. tauto.
      * destruct f as [[]| | |]; simpl in H; try discriminate; tauto.
      * destruct b; [discriminate|tauto].
      * tauto.
      * destruct l; [tauto|discriminate].
      * destruct str; [tauto|discriminate].
      * discriminate.
    + intros [->|[->|[->|[->|[->|[->| ->]]]]]]; reflexivity.
Qed.

Lemma onfalsejump_truthiness_witness :
  [OnFalseJump 5] !! 0 = Some (OnFalseJump 5) /\
  stack (mkst [VList []] ∅ []) = VList [] :: [] /\
  step (fun _ => None) [OnFalseJump 5] 0 (mkst [VList []] ∅ []) =
    Next (if py_truthy (VList []) then 1 else 5) (mkst [] ∅ []) /\
  (py_truthy (VList []) = false <->
     VList [] = VBool false \/ VList [] = VNone \/ VList [] = VInt 0 \/
     VList [] = VFloat (S754_zero false) \/ VList [] = VFloat (S754_zero true) \/
     VList [] = VList [] \/ VList [] = VStr EmptyString).
Proof.
  split; [reflexivity|]. split; [reflexivity|].
  exact (onfalsejump_truthiness (fun _ => None) [OnFalseJump 5] 0 5 (mkst [VList []] ∅ [])
    (VList []) [] eq_refl eq_refl).
Defined.

(** The integer 0 and the empty list are falsy: [OnFalseJump] jumps on them. *)
Lemma c2_cex :
  py_truthy (VInt 0) = false /\ py_truthy (VList []) = false /\
  forall py_sin,
    step py_sin [OnFalseJump 5] 0 (mkst [VInt 0] ∅ []) = Next 5 (mkst [] ∅ []) /\
    step py_sin [OnFalseJump 5] 0 (mkst [VList []] ∅ []) = Next 5 (mkst [] ∅ []).
Proof. split; [reflexivity|]. split; [reflexivity|]. intros py_sin. split; reflexivity. Qed.

(** ** C3 *)

(** C3: [parse_while_statement] reads [while], the condition, [do], the body
    and [end] in this order, each from the lexer the previous one left, and
    appends to the tape [code], in order: a push of [None], the condition's
    tape (the loop head, at [length code + 1]), an [OnFalseJump] to the end
    of the loop, a [DROP], the body's tape and a [Jump] back to the loop
    head. The program [i = 0; while i < 3 do i = i + 1 end; i] halts with
    the stack [[3]]. *)
Theorem while_layout py_sin n code lx code' lx' :
  parse_while_statement n code lx = Ok (code', lx') ->
  (exists m lx1 c1 lx2 lx3 c2 lx4,
    expects "while" lx = Ok lx1 /\ parse_expr m [] lx1 = Ok (c1, lx2) /\
    expects "do" lx2 = Ok lx3 /\ parse_exprlist m [] lx3 = Ok (c2, lx4) /\
    expects "end" lx4 = Ok lx' /\
    code' = code ++ [LValue None] ++ shift (length code + 1) c1 ++
            [OnFalseJump (length code'); Op "DROP"] ++
            shift (length code + 1 + length c1 + 2) c2 ++ [Jump (length code + 1)]) /\
  (exists tape σ,
    compile 100 "f" "i = 0; while i < 3 do i = i + 1 end; i" = Ok tape /\
    exec py_sin tape 0 (init_state builtins) (Halted σ) /\ stack σ = [VInt 3]).
Proof.
  intros H. split; [|apply c3_run]. revert H.
  destruct n as [|m]; [discriminate|].
  destruct (parse_reloc m) as (R1&_&R3&_).
  cbn [parse_while_statement]. unfold obind.
  destruct (expects "while" lx) as [l1| |] eqn:Ew; try discriminate.
  rewrite R3. destruct (parse_expr m [] l1) as [[c1 l2]| |] eqn:E1; cbn [relocate]; try discriminate.
  destruct (expects "do" l2) as [l3| |] eqn:Ed; try discriminate.
  rewrite R1. destruct (parse_exprlist m [] l3) as [[c2 l4]| |] eqn:E2; cbn [relocate]; try discriminate.
  destruct (expects "end" l4) as [l5| |] eqn:Ee; try discriminate.
  intros H. injection H as <- <-. exists m, l1, c1, l2, l3, c2, l4. do 5 (split; [done|]).
  rewrite while_build, length_reloc. unfold reloc, while_code.
  rewrite !shift_app, !shift_shift, !shift_cons, !shift_nil. simpl.
  rewrite ?length_app, ?length_shift. simpl.
  repeat (f_equal; try (rewrite ?length_app, ?length_shift; simpl; lia)).
Qed.

Lemma while_layout_witness :
  let py_sin : spec_float -> option spec_float := (fun _ => None) in
  let n : nat := 100 in
  let code : list instr := [RValue (VInt 7)] in
  let lx : lexer := mklexer "f" " 0 do 1 end" 1 6 (TStr "while") in
  let code' : list instr := [RValue (VInt 7); LValue None; RValue (VInt 0); OnFalseJump 7; Op "DROP"; RValue (VInt 1); Jump 2] in
  let lx' : lexer := mklexer "f" "" 1 17 (TStr "EOF") in
  (parse_while_statement n code lx = Ok (code', lx')) /\
  ((exists m lx1 c1 lx2 lx3 c2 lx4,
    expects "while" lx = Ok lx1 /\ parse_expr m [] lx1 = Ok (c1, lx2) /\
    expects "do" lx2 = Ok lx3 /\ parse_exprlist m [] lx3 = Ok (c2, lx4) /\
    expects "end" lx4 = Ok lx' /\
    code' = code ++ [LValue None] ++ shift (length code + 1) c1 ++
            [OnFalseJump (length code'); Op "DROP"] ++
            shift (length code + 1 + length c1 + 2) c2 ++ [Jump (length code + 1)]) /\
  (exists tape σ,
    compile 100 "f" "i = 0; while i < 3 do i = i + 1 end; i" = Ok tape /\
    exec py_sin tape 0 (init_state builtins) (Halted σ) /\ stack σ = [VInt 3])).
Proof.
  intros py_sin n code lx code' lx'.
  assert (H1 : parse_while_statement n code lx = Ok (code', lx')) by (vm_compute; reflexivity).
  exact (conj H1 (while_layout py_sin n code lx code' lx' H1)).
Defined.

(** ** C4 *)

(** C4: [parse_if_statement] reads [if], the condition, [then] and the then
    branch in this order, each from the lexer the previous one left. When
    the next token is not [else], it expects [end] there and appends [None]
    as the else branch: when the condition's tape leaves a falsy value, the
    construct's tape ends with [None] pushed on the stack it started from.
    [if FALSE then 1 end] halts with the stack [[None]]. *)
Theorem if_without_else_null py_sin n code lx code' lx' :
  parse_if_statement n code lx = Ok (code', lx') ->
  (exists m lx1 c1 lx2 lx3 c2 lx4,
    expects "if" lx = Ok lx1 /\ parse_expr m [] lx1 = Ok (c1, lx2) /\
    expects "then" lx2 = Ok lx3 /\ parse_exprlist m [] lx3 = Ok (c2, lx4) /\
    (tok_is (lx_token lx4) "else" = false ->
     expects "end" lx4 = Ok lx' /\
     code' = reloc code (if_code c1 c2 [LValue None]) /\
     forall σ σ1 v,
       steps py_sin c1 0 σ (length c1) σ1 -> stack σ1 = v :: stack σ -> py_truthy v = false ->
       steps py_sin code' (length code) σ (length code') (mkst (VNone :: stack σ) (env σ1) (out σ1)))) /\
  (exists tape σ,
    compile 100 "f" "if FALSE then 1 end" = Ok tape /\
    exec py_sin tape 0 (init_state builtins) (Halted σ) /\ stack σ = [VNone]).
Proof.
  intros H. split; [|apply c4_run]. revert H.
  destruct n as [|m]; [discriminate|].
  destruct (parse_reloc m) as (R1&_&R3&_).
  cbn [parse_if_statement]. unfold obind.
  destruct (expects "if" lx) as [l1| |] eqn:Ei; try discriminate.
  rewrite R3. destruct (parse_expr m [] l1) as [[c1 l2]| |] eqn:E1; cbn [relocate]; try discriminate.
  destruct (expects "then" l2) as [l3| |] eqn:Et; try discriminate.
  rewrite R1. destruct (parse_exprlist m [] l3) as [[c2 l4]| |] eqn:E2; cbn [relocate]; try discriminate.
  intros H. exists m, l1, c1, l2, l3, c2, l4. do 4 (split; [done|]).
  intros Hno. rewrite Hno in H.
  destruct (expects "end" l4) as [l5| |] eqn:Ee; try discriminate.
  injection H as <- <-. split; [done|].
  rewrite if_build_noelse. split; [done|].
  intros σ σ1 v H1 Hst Hv. apply steps_reloc. eapply if_noelse_false; eassumption.
Qed.

Lemma if_without_else_null_witness :
  let py_sin : spec_float -> option spec_float := (fun _ => None) in
  let n : nat := 100 in
  let code : list instr := [] in
  let lx : lexer := mklexer "f" " FALSE then 1 end" 1 3 (TStr "if") in
  let code' : list instr := [RValue (VBool false); OnFalseJump 4; RValue (VInt 1); Jump 5; LValue None] in
  let lx' : lexer := mklexer "f" "" 1 20 (TStr "EOF") in
  (parse_if_statement n code lx = Ok (code', lx')) /\
  ((exists m lx1 c1 lx2 lx3 c2 lx4,
    expects "if" lx = Ok lx1 /\ parse_expr m [] lx1 = Ok (c1, lx2) /\
    expects "then" lx2 = Ok lx3 /\ parse_exprlist m [] lx3 = Ok (c2, lx4) /\
    (tok_is (lx_token lx4) "else" = false ->
     expects "end" lx4 = Ok lx' /\
     code' = reloc code (if_code c1 c2 [LValue None]) /\
     forall σ σ1 v,
       steps py_sin c1 0 σ (length c1) σ1 -> stack σ1 = v :: stack σ -> py_truthy v = false ->
       steps py_sin code' (length code) σ (length code') (mkst (VNone :: stack σ) (env σ1) (out σ1)))) /\
  (exists tape σ,
    compile 100 "f" "if FALSE then 1 end" = Ok tape /\
    exec py_sin tape 0 (init_state builtins) (Halted σ) /\ stack σ = [VNone])).
Proof.
  intros py_sin n code lx code' lx'.
  assert (H1 : parse_if_statement n code lx = Ok (code', lx')) by (vm_compute; reflexivity).
  exact (conj H1 (if_without_else_null py_sin n code lx code' lx' H1)).
Defined.

(** ** C5 *)

(** C5: [parse_exprlist] reads an expression [e1], then, while the token is
    [;], the separator and a further expression from the lexer after it
    ([sep_chain]), and stops at the first token that is not [;]. The tape is
    the tapes of [e1], ..., [ek] in order with a [DROP] between two
    consecutive ones ([seq_tape]); when each [ei] runs from the environment
    and output the previous one left and leaves one value on the stack, the
    whole tape runs the same way and leaves only the value of [ek]. *)
Theorem exprlist_sequence py_sin n lx code lx' :
  parse_exprlist n [] lx = Ok (code, lx') ->
  exists m c0 lx1 ps, parse_expr m [] lx = Ok (c0, lx1) /\ sep_chain [";"] parse_expr lx1 ps lx' /\
    code = seq_tape (c0 :: map fst ps) /\
    forall s E O w E' O', seq_runs py_sin s (c0 :: map fst ps) E O w E' O' ->
      steps py_sin code 0 (mkst s E O) (length code) (mkst (w :: s) E' O').
Proof.
  destruct n as [|m]; [discriminate|]. cbn [parse_exprlist]. unfold obind.
  destruct (parse_expr m [] lx) as [[c l1]| |] eqn:E; try discriminate.
  intros H. destruct (exprlist_loop_chain _ _ _ _ _ H) as (ps & -> & Hps).
  exists m, c, l1, ps. split; [done|]. split; [done|]. split; [done|].
  intros s E0 O w E' O' Hr. simpl. inversion Hr as [? ? ? v ? ? Hc|? ? ? ? v E1 O1 ? ? ? Hc Hr']; subst.
  - rewrite <- H1 in *. exact Hc.
  - eapply seq_acc_steps; eassumption.
Qed.

Lemma exprlist_sequence_witness :
  let py_sin : spec_float -> option spec_float := (fun _ => None) in
  let n : nat := 100 in
  let lx : lexer := mklexer "f" "; x = 2; x" 1 2 (TNum (VInt 1)) in
  let code : list instr := [RValue (VInt 1); Op "DROP"; LValue (Some "x"); RValue (VInt 2); Op "="; Op "DROP"; ID "x"] in
  let lx' : lexer := mklexer "f" "" 1 12 (TStr "EOF") in
  (parse_exprlist n [] lx = Ok (code, lx')) /\
  (exists m c0 lx1 ps, parse_expr m [] lx = Ok (c0, lx1) /\ sep_chain [";"] parse_expr lx1 ps lx' /\
    code = seq_tape (c0 :: map fst ps) /\
    forall s E O w E' O', seq_runs py_sin s (c0 :: map fst ps) E O w E' O' ->
      steps py_sin code 0 (mkst s E O) (length code) (mkst (w :: s) E' O')).
Proof.
  intros py_sin n lx code lx'.
  assert (H1 : parse_exprlist n [] lx = Ok (code, lx')) by (vm_compute; reflexivity).
  exact (conj H1 (exprlist_sequence py_sin n lx code lx' H1)).
Defined.

(** ** C6 *)




(** ** C7 *)

(** C7: a syntax fault carries the file name and a 1-based row and column,
    which are the lexer's position when the fault is raised. The lexer
    [lx0] at the fault is one met while reading the text from its start
    ([lex_reach]). For a fault of the parser, the position is the one of the
    lexer [lx] that [lx0] gave when it read the unexpected token, that is
    the first character not yet read, just after that token, and the
    message ends with the token; for a fault of the lexer, it is the
    position of the offending character after the spaces. *)
Theorem syntax_fault_position n filename text f r c m :
  compile n filename text = Fail (SyntaxError f r c m) ->
  f = filename /\ 1 <= r /\ 1 <= c /\
  exists lx0, lex_reach filename text lx0 /\
  ((exists lx, next_token lx0 = Ok lx /\ (r, c) = (lx_row lx, lx_col lx) /\
      (exists pre, text = (pre ++ lx_text lx)%string /\ advance pre 1 1 = (r, c)) /\
      exists pfx s, m = (pfx ++ s)%string /\
        (token_str (lx_token lx) = Ok s \/ token_repr (lx_token lx) = Ok s)) \/
   (next_token lx0 = Fail (SyntaxError f r c m) /\
      exists pre ws ch t, lx_text lx0 = (ws ++ String ch t)%string /\ all_chars is_space ws = true /\
        text = (pre ++ String ch t)%string /\ advance pre 1 1 = (r, c))).
Proof.
  intros H. pose proof (compile_at n filename text) as Hp. rewrite H in Hp.
  destruct Hp as (Hf & lx0 & H0 & Hk). split; [done|].
  assert (Hrc : exists pre, advance pre 1 1 = (r, c)).
  { destruct Hk as [(lx & Hn & Hp & _)|(Hn & ws & ch & t & Ht & Hws & Ha)].
    - destruct (reach_inv filename text lx (reach_next _ _ _ _ H0 Hn)) as (_ & pre & _ & Ha).
      rewrite <- Hp in Ha. eauto.
    - destruct (reach_inv filename text lx0 H0) as (_ & pre0 & _ & Ha0).
      exists (pre0 ++ ws)%string. rewrite advance_app, Ha0. symmetry. exact Ha. }
  destruct Hrc as (pre & Ha).
  pose proof (advance_pos pre 1 1 ltac:(lia) ltac:(lia)) as [H1 H2].
  rewrite Ha in H1, H2. simpl in H1, H2. split; [done|]. split; [done|].
  exists lx0. split; [done|].
  destruct Hk as [(lx & Hn & Hp & Hm)|(Hn & ws & ch & t & Ht & Hws & Ha')].
  - left. exists lx. split; [done|]. split; [done|]. split; [|exact Hm].
    destruct (reach_inv filename text lx (reach_next _ _ _ _ H0 Hn)) as (_ & pre' & Ht' & Ha').
    rewrite <- Hp in Ha'. eauto.
  - right. split; [done|]. destruct (reach_inv filename text lx0 H0) as (_ & pre0 & Ht0 & Ha0).
    exists (pre0 ++ ws)%string, ws, ch, t. split; [done|]. split; [done|]. split.
    + rewrite Ht0, Ht, str_app_assoc. done.
    + rewrite advance_app, Ha0. symmetry. exact Ha'.
Qed.

Lemma syntax_fault_position_witness :
  let n : nat := 100 in
  let filename : string := "f"%string in
  let text : string := "1 +"%string in
  let f : string := "f"%string in
  let r : nat := 1 in
  let c : nat := 4 in
  let m : string := "Expected number, varname or '(', but got 'EOF'"%string in
  (compile n filename text = Fail (SyntaxError f r c m)) /\
  (f = filename /\ 1 <= r /\ 1 <= c /\
  exists lx0, lex_reach filename text lx0 /\
  ((exists lx, next_token lx0 = Ok lx /\ (r, c) = (lx_row lx, lx_col lx) /\
      (exists pre, text = (pre ++ lx_text lx)%string /\ advance pre 1 1 = (r, c)) /\
      exists pfx s, m = (pfx ++ s)%string /\
        (token_str (lx_token lx) = Ok s \/ token_repr (lx_token lx) = Ok s)) \/
   (next_token lx0 = Fail (SyntaxError f r c m) /\
      exists pre ws ch t, lx_text lx0 = (ws ++ String ch t)%string /\ all_chars is_space ws = true /\
        text = (pre ++ String ch t)%string /\ advance pre 1 1 = (r, c)))).
Proof.
  intros n filename text f r c m.
  assert (H1 : compile n filename text = Fail (SyntaxError f r c m)) by (vm_compute; reflexivity).
  exact (conj H1 (syntax_fault_position n filename text f r c m H1)).
Defined.

(** In [")"] the unexpected token [")"] starts at column 1; the fault
    reports column 2, the position after it. *)
Lemma c7_cex :
  compile 100 "f" ")" = Fail (SyntaxError "f" 1 2 "Expected number, varname or '(', but got ')'").
Proof. vm_compute. reflexivity. Qed.

(** ** C8 *)

(** C8: an [ID x] instruction reached with no binding of [x] in the
    environment faults with [NameFault x], and the run ends there with no
    value substituted. [y + 1] with [y] never assigned faults so. *)
Theorem unbound_name_fault py_sin code pc σ x :
  code !! pc = Some (ID x) -> env σ !! x = None ->
  (step py_sin code pc σ = Fault (NameFault x) /\
   exec py_sin code pc σ (Faulted (NameFault x) σ) /\
   (forall r, exec py_sin code pc σ r -> r = Faulted (NameFault x) σ)) /\
  (exists tape,
    compile 100 "f" "y + 1" = Ok tape /\
    exec py_sin tape 0 (init_state builtins) (Faulted (NameFault "y") (init_state builtins)) /\
    (forall r, exec py_sin tape 0 (init_state builtins) r ->
       r = Faulted (NameFault "y") (init_state builtins))).
Proof.
  intros Hl He. split; [|apply c8_run].
  assert (Hs : step py_sin code pc σ = Fault (NameFault x))
    by (unfold step; rewrite Hl, He; reflexivity).
  split; [done|]. split; [apply exec_fault; done|]. intros r. apply exec_step_fault; done.
Qed.

Lemma unbound_name_fault_witness :
  [RValue (VInt 1); ID "z"] !! 1 = Some (ID "z") /\ env (mkst [VInt 1] builtins []) !! "z" = None /\
  (step (fun _ => None) [RValue (VInt 1); ID "z"] 1 (mkst [VInt 1] builtins []) = Fault (NameFault "z") /\
   exec (fun _ => None) [RValue (VInt 1); ID "z"] 1 (mkst [VInt 1] builtins [])
     (Faulted (NameFault "z") (mkst [VInt 1] builtins [])) /\
   (forall r, exec (fun _ => None) [RValue (VInt 1); ID "z"] 1 (mkst [VInt 1] builtins []) r ->
      r = Faulted (NameFault "z") (mkst [VInt 1] builtins []))) /\
  (exists tape,
    compile 100 "f" "y + 1" = Ok tape /\
    exec (fun _ => None) tape 0 (init_state builtins) (Faulted (NameFault "y") (init_state builtins)) /\
    (forall r, exec (fun _ => None) tape 0 (init_state builtins) r ->
       r = Faulted (NameFault "y") (init_state builtins))).
Proof.
  assert (He : env (mkst [VInt 1] builtins []) !! "z" = None) by (vm_compute; reflexivity).
  split; [reflexivity|]. split; [exact He|].
  exact (unbound_name_fault (fun _ => None) [RValue (VInt 1); ID "z"] 1 (mkst [VInt 1] builtins []) "z"
    eq_refl He).
Defined.

(** ** C9 *)

(** C9: [parse_arexpr] reads a leading [+] or [-] if there is one, the first
    term from the lexer after it, and then the further terms with their
    operators ([sep_chain]). The tape is the first term's tape, then [NEG]
    after a leading [-] (nothing after a leading [+]), then each further
    term's tape followed by its operator. So [-a + b] compiles to
    [a NEG b +] and [-a * b] to [a b * NEG]; with [a = 2] and [b = 3],
    [-a + b] is 1. *)
Theorem arexpr_leading_sign py_sin n code lx code' lx' :
  parse_arexpr (S n) code lx = Ok (code', lx') ->
  (exists lx1 c1 lx2 ps,
    ((tok_in (lx_token lx) ["+"; "-"] = true /\ next_token lx = Ok lx1) \/
     (tok_in (lx_token lx) ["+"; "-"] = false /\ lx1 = lx)) /\
    parse_term n [] lx1 = Ok (c1, lx2) /\ sep_chain ["+"; "-"] parse_term lx2 ps lx' /\
    code' = binop_acc (reloc code c1 ++ (if tok_is (lx_token lx) "-" then [Op "NEG"] else [])) ps) /\
  (compile 100 "f" "-a + b" = Ok [ID "a"; Op "NEG"; ID "b"; Op "+"] /\
   compile 100 "f" "-a * b" = Ok [ID "a"; ID "b"; Op "*"; Op "NEG"] /\
   compile 100 "f" "+a * b" = Ok [ID "a"; ID "b"; Op "*"]) /\
  (exists tape σ,
    compile 100 "f" "a = 2; b = 3; -a + b" = Ok tape /\
    exec py_sin tape 0 (init_state builtins) (Halted σ) /\ stack σ = [VInt 1]).
Proof.
  intros H. split; [|split; [vm_compute; auto|apply c9_run]]. revert H.
  destruct (parse_reloc n) as (_&_&_&_&_&R6&_).
  cbn [parse_arexpr]. unfold obind.
  destruct (lx_token lx) as [s|name|val] eqn:Et.
  - cbn [tok_is tok_in]. destruct (str_in s ["+"; "-"]) eqn:Hs.
    + destruct (next_token lx) as [l1| |] eqn:En; try discriminate.
      rewrite R6. destruct (parse_term n [] l1) as [[c1 l2]| |] eqn:E1; cbn [relocate]; try discriminate.
      intros H. destruct (arexpr_loop_chain _ _ _ _ _ H) as (ps & -> & Hps).
      exists l1, c1, l2, ps. split; [left; done|]. split; [done|]. split; [done|].
      destruct (String.eqb s "-"); rewrite ?app_nil_r; done.
    + assert (Hm : String.eqb s "-" = false).
      { unfold str_in in Hs. simpl in Hs. apply orb_false_iff in Hs as [_ Hs].
        apply orb_false_iff in Hs as [Hs _]. done. }
      rewrite Hm, R6. destruct (parse_term n [] lx) as [[c1 l2]| |] eqn:E1; cbn [relocate]; try discriminate.
      intros H. destruct (arexpr_loop_chain _ _ _ _ _ H) as (ps & -> & Hps).
      exists lx, c1, l2, ps. split; [right; done|]. split; [done|]. split; [done|]. rewrite app_nil_r. done.
  - rewrite R6. destruct (parse_term n [] lx) as [[c1 l2]| |] eqn:E1; cbn [relocate]; try discriminate.
    intros H. destruct (arexpr_loop_chain _ _ _ _ _ H) as (ps & -> & Hps).
    exists lx, c1, l2, ps. split; [right; done|]. split; [done|]. split; [done|]. rewrite app_nil_r. done.
  - rewrite R6. destruct (parse_term n [] lx) as [[c1 l2]| |] eqn:E1; cbn [relocate]; try discriminate.
    intros H. destruct (arexpr_loop_chain _ _ _ _ _ H) as (ps & -> & Hps).
    exists lx, c1, l2, ps. split; [right; done|]. split; [done|]. split; [done|]. rewrite app_nil_r. done.
Qed.

Lemma arexpr_leading_sign_witness :
  let py_sin : spec_float -> option spec_float := (fun _ => None) in
  let n : nat := 99 in
  let code : list instr := [] in
  let lx : lexer := mklexer "f" "a + b" 1 2 (TStr "-") in
  let code' : list instr := [ID "a"; Op "NEG"; ID "b"; Op "+"] in
  let lx' : lexer := mklexer "f" "" 1 7 (TStr "EOF") in
  (parse_arexpr (S n) code lx = Ok (code', lx')) /\
  ((exists lx1 c1 lx2 ps,
    ((tok_in (lx_token lx) ["+"; "-"] = true /\ next_token lx = Ok lx1) \/
     (tok_in (lx_token lx) ["+"; "-"] = false /\ lx1 = lx)) /\
    parse_term n [] lx1 = Ok (c1, lx2) /\ sep_chain ["+"; "-"] parse_term lx2 ps lx' /\
    code' = binop_acc (reloc code c1 ++ (if tok_is (lx_token lx) "-" then [Op "NEG"] else [])) ps) /\
  (compile 100 "f" "-a + b" = Ok [ID "a"; Op "NEG"; ID "b"; Op "+"] /\
   compile 100 "f" "-a * b" = Ok [ID "a"; ID "b"; Op "*"; Op "NEG"] /\
   compile 100 "f" "+a * b" = Ok [ID "a"; ID "b"; Op "*"]) /\
  (exists tape σ,
    compile 100 "f" "a = 2; b = 3; -a + b" = Ok tape /\
    exec py_sin tape 0 (init_state builtins) (Halted σ) /\ stack σ = [VInt 1])).
Proof.
  intros py_sin n code lx code' lx'.
  assert (H1 : parse_arexpr (S n) code lx = Ok (code', lx')) by (vm_compute; reflexivity).
  exact (conj H1 (arexpr_leading_sign py_sin n code lx code' lx' H1)).
Defined.

(** ** C10 *)

(** C10: [Op "="] with a value [v] on top of a name [x] binds [x] to [v] and
    leaves [v] on the rest of the stack; every other name keeps its binding,
    the stack below the two popped entries and the output are unchanged. *)
Theorem assign_frame py_sin code pc σ x v st :
  code !! pc = Some (Op "=") -> stack σ = v :: VStr x :: st ->
  exists E', step py_sin code pc σ = Next (S pc) (mkst (v :: st) E' (out σ)) /\
    E' !! x = Some v /\ (forall y, y <> x -> E' !! y = env σ !! y).
Proof.
  intros Hl Hs. exists (<[x := v]> (env σ)). split.
  - unfold step. rewrite Hl, Hs. reflexivity.
  - split; [apply lookup_insert_eq|]. intros y Hy. apply lookup_insert_ne. done.
Qed.

Lemma assign_frame_witness :
  [Op "="] !! 0 = Some (Op "=") /\
  stack (mkst [VInt 5; VStr "x"; VInt 9] builtins []) = VInt 5 :: VStr "x" :: [VInt 9] /\
  exists E', step (fun _ => None) [Op "="] 0 (mkst [VInt 5; VStr "x"; VInt 9] builtins []) =
      Next 1 (mkst [VInt 5; VInt 9] E' []) /\
    E' !! "x" = Some (VInt 5) /\ (forall y, y <> "x" -> E' !! y = builtins !! y).
Proof.
  split; [reflexivity|]. split; [reflexivity|].
  exact (assign_frame (fun _ => None) [Op "="] 0 (mkst [VInt 5; VStr "x"; VInt 9] builtins [])
    "x" (VInt 5) [VInt 9] eq_refl eq_refl).
Defined.

(** * Further properties of the lexer, the parser, the machine and [main] *)

Section Segments.
Variable py_sin : spec_float -> option spec_float.

Lemma steps_seg T p c q o σ σ' :
  T = p ++ shift o c ++ q -> o = length p -> steps py_sin c 0 σ (length c) σ' ->
  steps py_sin T o σ (o + length c) σ'.
Proof.
  intros -> -> H. pose proof (steps_embed py_sin p c q 0 σ (length c) σ' H) as H'.
  rewrite Nat.add_0_r in H'. exact H'.
Qed.

Lemma lookup_at (T p : list instr) i q n : T = p ++ i :: q -> n = length p -> T !! n = Some i.
Proof. intros -> ->. apply list_lookup_middle. done. Qed.

Lemma steps_at T pc σ pc' σ' pc'' σ'' :
  pc' = pc'' -> σ' = σ'' -> steps py_sin T pc σ pc' σ' -> steps py_sin T pc σ pc'' σ''.
Proof. intros -> ->. done. Qed.

Lemma if_true c1 c2 c3 σ σ1 v σ2 :
  steps py_sin c1 0 σ (length c1) σ1 -> stack σ1 = v :: stack σ -> py_truthy v = true ->
  steps py_sin c2 0 (mkst (stack σ) (env σ1) (out σ1)) (length c2) σ2 ->
  steps py_sin (if_code c1 c2 c3) 0 σ (length (if_code c1 c2 c3)) σ2.
Proof.
  intros H1 Hst Hv H2.
  set (l1 := length c1) in *. set (l2 := length c2). set (l3 := length c3).
  assert (HL : length (if_code c1 c2 c3) = l1 + l2 + 2 + l3).
  { unfold if_code. rewrite !length_app, !length_shift. simpl. unfold l1, l2, l3. lia. }
  eapply steps_trans.
  { unfold if_code. apply steps_app_r. exact H1. }
  eapply steps_step.
  { unfold step. erewrite (lookup_at _ c1 (OnFalseJump (l1 + l2 + 2))
      (shift (l1 + 1) c2 ++ [Jump (l1 + l2 + 2 + l3)] ++ shift (l1 + l2 + 2) c3)) by reflexivity.
    rewrite Hst. simpl. rewrite Hv. reflexivity. }
  eapply steps_trans.
  { replace (S l1) with (l1 + 1) by lia.
    apply (steps_seg _ (c1 ++ [OnFalseJump (l1 + l2 + 2)]) c2
      ([Jump (l1 + l2 + 2 + l3)] ++ shift (l1 + l2 + 2) c3)).
    - unfold if_code. rewrite <- !app_assoc. reflexivity.
    - rewrite length_app. simpl. lia.
    - exact H2. }
  apply steps_one.
  unfold step. erewrite (lookup_at _ (c1 ++ [OnFalseJump (l1 + l2 + 2)] ++ shift (l1 + 1) c2)
      (Jump (l1 + l2 + 2 + l3)) (shift (l1 + l2 + 2) c3)).
  - by rewrite HL.
  - unfold if_code. rewrite <- !app_assoc. reflexivity.
  - rewrite !length_app, length_shift. simpl. fold l1 l2. lia.
Qed.

Lemma if_false c1 c2 c3 σ σ1 v σ3 :
  steps py_sin c1 0 σ (length c1) σ1 -> stack σ1 = v :: stack σ -> py_truthy v = false ->
  steps py_sin c3 0 (mkst (stack σ) (env σ1) (out σ1)) (length c3) σ3 ->
  steps py_sin (if_code c1 c2 c3) 0 σ (length (if_code c1 c2 c3)) σ3.
Proof.
  intros H1 Hst Hv H3.
  set (l1 := length c1) in *. set (l2 := length c2). set (l3 := length c3) in *.
  assert (HL : length (if_code c1 c2 c3) = l1 + l2 + 2 + l3).
  { unfold if_code. rewrite !length_app, !length_shift. simpl. unfold l1, l2, l3. lia. }
  eapply steps_trans.
  { unfold if_code. apply steps_app_r. exact H1. }
  eapply steps_step.
  { unfold step. erewrite (lookup_at _ c1 (OnFalseJump (l1 + l2 + 2))
      (shift (l1 + 1) c2 ++ [Jump (l1 + l2 + 2 + l3)] ++ shift (l1 + l2 + 2) c3)) by reflexivity.
    rewrite Hst. simpl. rewrite Hv. reflexivity. }
  rewrite HL.
  assert (Hp : length (c1 ++ [OnFalseJump (l1 + l2 + 2)] ++ shift (l1 + 1) c2 ++ [Jump (l1 + l2 + 2 + l3)])
    = l1 + l2 + 2) by (rewrite !length_app, length_shift; simpl; unfold l1, l2; lia).
  replace (S (l1 + l2 + 2 - 1)) with (l1 + l2 + 2) by lia.
  apply (steps_seg _ (c1 ++ [OnFalseJump (l1 + l2 + 2)] ++ shift (l1 + 1) c2 ++ [Jump (l1 + l2 + 2 + l3)]) c3 []);
    [|rewrite Hp; reflexivity|exact H3].
  unfold if_code. rewrite app_nil_r, <- !app_assoc. reflexivity.
Qed.

Lemma while_enter c1 c2 σ :
  steps py_sin (while_code c1 c2) 0 σ 1 (mkst (VNone :: stack σ) (env σ) (out σ)).
Proof. apply steps_one. reflexivity. Qed.

Lemma while_exit c1 c2 u s E O σ1 v :
  steps py_sin c1 0 (mkst (u :: s) E O) (length c1) σ1 -> stack σ1 = v :: u :: s ->
  py_truthy v = false ->
  steps py_sin (while_code c1 c2) 1 (mkst (u :: s) E O) (length (while_code c1 c2))
    (mkst (u :: s) (env σ1) (out σ1)).
Proof.
  intros H1 Hst Hv.
  assert (HL : length (while_code c1 c2) = length c1 + length c2 + 4).
  { unfold while_code. rewrite !length_app, !length_shift. simpl. lia. }
  eapply steps_trans.
  { apply (steps_seg _ [LValue None] c1
      ([OnFalseJump (length c1 + length c2 + 4); Op "DROP"] ++ shift (length c1 + 3) c2 ++ [Jump 1]));
      [reflexivity|reflexivity|exact H1]. }
  apply steps_one. unfold step.
  erewrite (lookup_at _ ([LValue None] ++ shift 1 c1) (OnFalseJump (length c1 + length c2 + 4))
    (Op "DROP" :: shift (length c1 + 3) c2 ++ [Jump 1])).
  - rewrite Hst. simpl. rewrite Hv. f_equal. repeat progress (simpl; rewrite ?length_app, ?length_shift). lia.
  - unfold while_code. rewrite <- !app_assoc. reflexivity.
  - simpl. rewrite length_shift. lia.
Qed.

Lemma while_iterate c1 c2 u s E O σ1 v σ2 :
  steps py_sin c1 0 (mkst (u :: s) E O) (length c1) σ1 -> stack σ1 = v :: u :: s ->
  py_truthy v = true ->
  steps py_sin c2 0 (mkst s (env σ1) (out σ1)) (length c2) σ2 ->
  steps py_sin (while_code c1 c2) 1 (mkst (u :: s) E O) 1 σ2.
Proof.
  intros H1 Hst Hv H2.
  set (l1 := length c1) in *. set (l2 := length c2) in *.
  eapply steps_trans.
  { apply (steps_seg _ [LValue None] c1
      ([OnFalseJump (l1 + l2 + 4); Op "DROP"] ++ shift (l1 + 3) c2 ++ [Jump 1]));
      [reflexivity|reflexivity|exact H1]. }
  eapply steps_step.
  { unfold step.
    erewrite (lookup_at _ ([LValue None] ++ shift 1 c1) (OnFalseJump (l1 + l2 + 4))
      (Op "DROP" :: shift (l1 + 3) c2 ++ [Jump 1])).
    - rewrite Hst. simpl. rewrite Hv. reflexivity.
    - unfold while_code. rewrite <- !app_assoc. reflexivity.
    - simpl. rewrite length_shift. fold l1. lia. }
  eapply steps_step.
  { unfold step.
    erewrite (lookup_at _ ([LValue None] ++ shift 1 c1 ++ [OnFalseJump (l1 + l2 + 4)]) (Op "DROP")
      (shift (l1 + 3) c2 ++ [Jump 1])).
    - simpl. reflexivity.
    - unfold while_code. rewrite <- !app_assoc. reflexivity.
    - rewrite !length_app, length_shift. simpl. fold l1. lia. }
  cbn [stack env out].
  assert (Hp : length ([LValue None] ++ shift 1 c1 ++ [OnFalseJump (l1 + l2 + 4); Op "DROP"]) = l1 + 3)
    by (rewrite !length_app, length_shift; simpl; unfold l1; lia).
  eapply steps_trans.
  { apply (steps_seg _ ([LValue None] ++ shift 1 c1 ++ [OnFalseJump (l1 + l2 + 4); Op "DROP"]) c2 [Jump 1]);
      [|rewrite Hp; unfold l1; lia|exact H2].
    unfold while_code. rewrite <- !app_assoc. replace (length c1 + 3) with (S (S (S (length c1)))) by lia. reflexivity. }
  apply steps_one. unfold step.
  erewrite (lookup_at _ ([LValue None] ++ shift 1 c1 ++ [OnFalseJump (l1 + l2 + 4); Op "DROP"] ++ shift (l1 + 3) c2)
    (Jump 1) []).
  - reflexivity.
  - unfold while_code. rewrite <- !app_assoc. reflexivity.
  - rewrite !length_app, !length_shift. simpl. fold l1 l2. lia.
Qed.

End Segments.

Lemma steps_reloc_at py_sin code W pc σ pc' σ' :
  steps py_sin W pc σ pc' σ' -> steps py_sin (reloc code W) (length code + pc) σ (length code + pc') σ'.
Proof.
  intros H. unfold reloc. pose proof (steps_embed py_sin code W [] pc σ pc' σ' H) as H'.
  rewrite app_nil_r in H'. exact H'.
Qed.

(** X1: [parse_if_statement] reads [if], the condition, [then] and the then branch, then either [end], or [else], the else branch and [end], each from the lexer the previous one left. It compiles [if e then l1 else l2 end] onto a tape [code] as the code of [e], an [OnFalseJump] past the then branch, the code of [l1], a [Jump] to the end and the code of [l2] (a push of [None] when there is no else branch), all relocated after [code]. Running the construct runs [e], then [l1] when its value is truthy and [l2] otherwise, and ends at the end of the tape. *)
Theorem if_semantics py_sin n code lx code' lx' :
  parse_if_statement n code lx = Ok (code', lx') ->
  exists m lx1 c1 lx2 lx3 c2 lx4 c3,
    expects "if" lx = Ok lx1 /\ parse_expr m [] lx1 = Ok (c1, lx2) /\
    expects "then" lx2 = Ok lx3 /\ parse_exprlist m [] lx3 = Ok (c2, lx4) /\
    ((tok_is (lx_token lx4) "else" = false /\ c3 = [LValue None] /\ expects "end" lx4 = Ok lx') \/
     (tok_is (lx_token lx4) "else" = true /\
      exists lx5 lx6, next_token lx4 = Ok lx5 /\ parse_exprlist m [] lx5 = Ok (c3, lx6) /\
        expects "end" lx6 = Ok lx')) /\
    code' = reloc code (if_code c1 c2 c3) /\
    forall σ σ1 v σ2,
      steps py_sin c1 0 σ (length c1) σ1 -> stack σ1 = v :: stack σ ->
      steps py_sin (if py_truthy v then c2 else c3) 0 (mkst (stack σ) (env σ1) (out σ1))
        (length (if py_truthy v then c2 else c3)) σ2 ->
      steps py_sin code' (length code) σ (length code') σ2.
Proof.
  destruct n as [|m]; [discriminate|].
  destruct (parse_reloc m) as (R1&_&R3&_).
  cbn [parse_if_statement]. unfold obind.
  destruct (expects "if" lx) as [l1| |] eqn:Ei; try discriminate.
  rewrite R3. destruct (parse_expr m [] l1) as [[c1 l2]| |] eqn:E1; cbn [relocate]; try discriminate.
  destruct (expects "then" l2) as [l3| |] eqn:Et; try discriminate.
  rewrite R1. destruct (parse_exprlist m [] l3) as [[c2 l4]| |] eqn:E2; cbn [relocate]; try discriminate.
  destruct (tok_is (lx_token l4) "else") eqn:Hel.
  - destruct (next_token l4) as [l5| |] eqn:E5; try discriminate.
    rewrite R1. destruct (parse_exprlist m [] l5) as [[c3 l6]| |] eqn:E3; cbn [relocate]; try discriminate.
    destruct (expects "end" l6) as [l7| |] eqn:Ee; try discriminate.
    intros H. injection H as <- <-.
    exists m, l1, c1, l2, l3, c2, l4, c3. do 4 (split; [done|]).
    split; [right; split; [done|]; eauto|]. rewrite if_build. split; [done|].
    intros σ σ1 v σ2 H1 Hst H2. apply steps_reloc.
    destruct (py_truthy v) eqn:Hv; [eapply if_true|eapply if_false]; eassumption.
  - destruct (expects "end" l4) as [l7| |] eqn:Ee; try discriminate.
    intros H. injection H as <- <-.
    exists m, l1, c1, l2, l3, c2, l4, [LValue None]. do 4 (split; [done|]).
    split; [left; done|]. rewrite if_build_noelse. split; [done|].
    intros σ σ1 v σ2 H1 Hst H2. apply steps_reloc.
    destruct (py_truthy v) eqn:Hv; [eapply if_true|eapply if_false]; eassumption.
Qed.

Lemma if_semantics_witness :
  let py_sin : spec_float -> option spec_float := (fun _ => None) in
  let n : nat := 100 in
  let code : list instr := [] in
  let lx : lexer := mklexer "f" " 1 < 2 then 3 else 4 end" 1 3 (TStr "if") in
  let code' : list instr := [RValue (VInt 1); RValue (VInt 2); Op "<"; OnFalseJump 6; RValue (VInt 3); Jump 7; RValue (VInt 4)] in
  let lx' : lexer := mklexer "f" "" 1 27 (TStr "EOF") in
  (parse_if_statement n code lx = Ok (code', lx')) /\
  (exists m lx1 c1 lx2 lx3 c2 lx4 c3,
    expects "if" lx = Ok lx1 /\ parse_expr m [] lx1 = Ok (c1, lx2) /\
    expects "then" lx2 = Ok lx3 /\ parse_exprlist m [] lx3 = Ok (c2, lx4) /\
    ((tok_is (lx_token lx4) "else" = false /\ c3 = [LValue None] /\ expects "end" lx4 = Ok lx') \/
     (tok_is (lx_token lx4) "else" = true /\
      exists lx5 lx6, next_token lx4 = Ok lx5 /\ parse_exprlist m [] lx5 = Ok (c3, lx6) /\
        expects "end" lx6 = Ok lx')) /\
    code' = reloc code (if_code c1 c2 c3) /\
    forall σ σ1 v σ2,
      steps py_sin c1 0 σ (length c1) σ1 -> stack σ1 = v :: stack σ ->
      steps py_sin (if py_truthy v then c2 else c3) 0 (mkst (stack σ) (env σ1) (out σ1))
        (length (if py_truthy v then c2 else c3)) σ2 ->
      steps py_sin code' (length code) σ (length code') σ2).
Proof.
  intros py_sin n code lx code' lx'.
  assert (H1 : parse_if_statement n code lx = Ok (code', lx')) by (vm_compute; reflexivity).
  exact (conj H1 (if_semantics py_sin n code lx code' lx' H1)).
Defined.

(** X2: [parse_while_statement] reads [while], the condition, [do], the body and [end], each from the lexer the previous one left, and compiles [while e do l end] onto [code] as a push of [None], the code of [e], an [OnFalseJump] to the end, a [DROP], the code of [l] and a [Jump] back to the code of [e]. Run from its start it pushes [None] and reaches the loop head; at the head with [u] on top of the stack, a falsy condition leaves the loop with [u] as its value, and a truthy one drops [u], runs the body and comes back to the head with the body's state. *)
Theorem while_semantics py_sin n code lx code' lx' :
  parse_while_statement n code lx = Ok (code', lx') ->
  exists m lx1 c1 lx2 lx3 c2 lx4,
    expects "while" lx = Ok lx1 /\ parse_expr m [] lx1 = Ok (c1, lx2) /\
    expects "do" lx2 = Ok lx3 /\ parse_exprlist m [] lx3 = Ok (c2, lx4) /\
    expects "end" lx4 = Ok lx' /\
    code' = reloc code (while_code c1 c2) /\
    (forall σ, steps py_sin code' (length code) σ (length code + 1)
                 (mkst (VNone :: stack σ) (env σ) (out σ))) /\
    (forall u s E O σ1 v,
       steps py_sin c1 0 (mkst (u :: s) E O) (length c1) σ1 -> stack σ1 = v :: u :: s ->
       py_truthy v = false ->
       steps py_sin code' (length code + 1) (mkst (u :: s) E O) (length code')
         (mkst (u :: s) (env σ1) (out σ1))) /\
    (forall u s E O σ1 v σ2,
       steps py_sin c1 0 (mkst (u :: s) E O) (length c1) σ1 -> stack σ1 = v :: u :: s ->
       py_truthy v = true ->
       steps py_sin c2 0 (mkst s (env σ1) (out σ1)) (length c2) σ2 ->
       steps py_sin code' (length code + 1) (mkst (u :: s) E O) (length code + 1) σ2).
Proof.
  destruct n as [|m]; [discriminate|].
  destruct (parse_reloc m) as (R1&_&R3&_).
  cbn [parse_while_statement]. unfold obind.
  destruct (expects "while" lx) as [l1| |] eqn:Ew; try discriminate.
  rewrite R3. destruct (parse_expr m [] l1) as [[c1 l2]| |] eqn:E1; cbn [relocate]; try discriminate.
  destruct (expects "do" l2) as [l3| |] eqn:Ed; try discriminate.
  rewrite R1. destruct (parse_exprlist m [] l3) as [[c2 l4]| |] eqn:E2; cbn [relocate]; try discriminate.
  destruct (expects "end" l4) as [l5| |] eqn:Ee; try discriminate.
  intros H. injection H as <- <-. rewrite while_build.
  exists m, l1, c1, l2, l3, c2, l4. do 6 (split; [done|]).
  split; [|split].
  - intros σ. rewrite <- (Nat.add_0_r (length code)) at 1. apply steps_reloc_at. apply while_enter.
  - intros u s E O σ1 v H1 Hst Hv. rewrite length_reloc. apply steps_reloc_at.
    eapply while_exit; eassumption.
  - intros u s E O σ1 v σ2 H1 Hst Hv H2. apply steps_reloc_at. eapply while_iterate; eassumption.
Qed.

Lemma while_semantics_witness :
  let py_sin : spec_float -> option spec_float := (fun _ => None) in
  let n : nat := 100 in
  let code : list instr := [] in
  let lx : lexer := mklexer "f" " x do x = 0 end" 1 6 (TStr "while") in
  let code' : list instr := [LValue None; ID "x"; OnFalseJump 8; Op "DROP"; LValue (Some "x"); RValue (VInt 0); Op "="; Jump 1] in
  let lx' : lexer := mklexer "f" "" 1 21 (TStr "EOF") in
  (parse_while_statement n code lx = Ok (code', lx')) /\
  (exists m lx1 c1 lx2 lx3 c2 lx4,
    expects "while" lx = Ok lx1 /\ parse_expr m [] lx1 = Ok (c1, lx2) /\
    expects "do" lx2 = Ok lx3 /\ parse_exprlist m [] lx3 = Ok (c2, lx4) /\
    expects "end" lx4 = Ok lx' /\
    code' = reloc code (while_code c1 c2) /\
    (forall σ, steps py_sin code' (length code) σ (length code + 1)
                 (mkst (VNone :: stack σ) (env σ) (out σ))) /\
    (forall u s E O σ1 v,
       steps py_sin c1 0 (mkst (u :: s) E O) (length c1) σ1 -> stack σ1 = v :: u :: s ->
       py_truthy v = false ->
       steps py_sin code' (length code + 1) (mkst (u :: s) E O) (length code')
         (mkst (u :: s) (env σ1) (out σ1))) /\
    (forall u s E O σ1 v σ2,
       steps py_sin c1 0 (mkst (u :: s) E O) (length c1) σ1 -> stack σ1 = v :: u :: s ->
       py_truthy v = true ->
       steps py_sin c2 0 (mkst s (env σ1) (out σ1)) (length c2) σ2 ->
       steps py_sin code' (length code + 1) (mkst (u :: s) E O) (length code + 1) σ2)).
Proof.
  intros py_sin n code lx code' lx'.
  assert (H1 : parse_while_statement n code lx = Ok (code', lx')) by (vm_compute; reflexivity).
  exact (conj H1 (while_semantics py_sin n code lx code' lx' H1)).
Defined.

(** X3: A name followed by [=] compiles to [LValue(name)], the code of the right-hand expression and [=]; running it leaves the value on the stack and binds the name to it in the environment the expression left. A name not followed by [=] compiles to the single instruction [ID(name)]. *)
Theorem assign_semantics py_sin n code lx x code' lx' :
  lx_token lx = TID x -> parse_primary (S n) code lx = Ok (code', lx') ->
  (exists lx1, next_token lx = Ok lx1 /\ tok_is (lx_token lx1) "=" = false /\
     lx' = lx1 /\ code' = code ++ [ID x]) \/
  (exists lx1 lx2 c, next_token lx = Ok lx1 /\ tok_is (lx_token lx1) "=" = true /\
     next_token lx1 = Ok lx2 /\ parse_expr n [] lx2 = Ok (c, lx') /\
     code' = reloc (code ++ [LValue (Some x)]) c ++ [Op "="] /\
     forall s E O v E' O',
       steps py_sin c 0 (mkst (VStr x :: s) E O) (length c) (mkst (v :: VStr x :: s) E' O') ->
       steps py_sin code' (length code) (mkst s E O) (length code') (mkst (v :: s) (<[x := v]> E') O')).
Proof.
  intros Hx. destruct (parse_reloc n) as (_&_&R3&_).
  cbn [parse_primary]. rewrite Hx. unfold obind.
  destruct (next_token lx) as [l1| |]; try discriminate.
  destruct (tok_is (lx_token l1) "=") eqn:Heq.
  - destruct (next_token l1) as [l2| |] eqn:E2; try discriminate.
    rewrite R3. destruct (parse_expr n [] l2) as [[c l3]| |] eqn:E3; cbn [relocate]; try discriminate.
    intros H. injection H as <- <-. right. exists l1, l2, c.
    do 4 (split; [done|]). split; [done|].
    intros s E O v E' O' Hc.
    eapply steps_step.
    { unfold step. rewrite lookup_app_l by (rewrite length_reloc, length_app; simpl; lia).
      unfold reloc. rewrite lookup_app_l by (rewrite length_app; simpl; lia).
      rewrite list_lookup_middle by done. reflexivity. }
    cbn [stack env out]. eapply steps_trans.
    { apply steps_app_r. replace (S (length code)) with (length (code ++ [LValue (Some x)]))
        by (rewrite length_app; simpl; lia).
      apply steps_reloc. exact Hc. }
    apply steps_one. unfold step. rewrite list_lookup_middle by done. simpl.
    rewrite length_app. simpl. rewrite Nat.add_1_r. reflexivity.
  - intros H. injection H as <- <-. left. exists l1. done.
Qed.

Lemma assign_semantics_witness :
  let py_sin : spec_float -> option spec_float := (fun _ => None) in
  let n : nat := 99 in
  let code : list instr := [] in
  let lx : lexer := mklexer "f" " = 2" 1 2 (TID "x") in
  let x : string := "x"%string in
  let code' : list instr := [LValue (Some "x"); RValue (VInt 2); Op "="] in
  let lx' : lexer := mklexer "f" "" 1 6 (TStr "EOF") in
  (lx_token lx = TID x) /\
  (parse_primary (S n) code lx = Ok (code', lx')) /\
  ((exists lx1, next_token lx = Ok lx1 /\ tok_is (lx_token lx1) "=" = false /\
     lx' = lx1 /\ code' = code ++ [ID x]) \/
  (exists lx1 lx2 c, next_token lx = Ok lx1 /\ tok_is (lx_token lx1) "=" = true /\
     next_token lx1 = Ok lx2 /\ parse_expr n [] lx2 = Ok (c, lx') /\
     code' = reloc (code ++ [LValue (Some x)]) c ++ [Op "="] /\
     forall s E O v E' O',
       steps py_sin c 0 (mkst (VStr x :: s) E O) (length c) (mkst (v :: VStr x :: s) E' O') ->
       steps py_sin code' (length code) (mkst s E O) (length code') (mkst (v :: s) (<[x := v]> E') O'))).
Proof.
  intros py_sin n code lx x code' lx'.
  assert (H1 : lx_token lx = TID x) by (vm_compute; reflexivity).
  assert (H2 : parse_primary (S n) code lx = Ok (code', lx')) by (vm_compute; reflexivity).
  exact (conj H1 (conj H2 (assign_semantics py_sin n code lx x code' lx' H1 H2))).
Defined.


Lemma args_acc_steps py_sin s cs acc E O l E' O' :
  args_runs py_sin s cs acc E O l E' O' ->
  forall T p σ0, steps py_sin T p σ0 (length T) (mkst (VList acc :: s) E O) ->
  steps py_sin (args_acc T cs) p σ0 (length (args_acc T cs)) (mkst (VList l :: s) E' O').
Proof.
  induction 1 as [acc E O|c cs acc E O v E1 O1 l E' O' Hc _ IH]; intros T p σ0 HT; [exact HT|].
  simpl. apply IH. eapply steps_trans.
  { unfold reloc. rewrite <- app_assoc. apply steps_app_r. exact HT. }
  eapply steps_trans.
  { apply steps_app_r. apply steps_reloc. exact Hc. }
  apply steps_one. unfold step. rewrite list_lookup_middle by done. cbn.
  rewrite length_app. simpl. rewrite Nat.add_1_r. reflexivity.
Qed.

(** X4: [parse_args] reads [(], then either [)] at once or a first argument followed by the further arguments each after a [,] ([sep_chain]) and then [)], each from the lexer the previous one left. It compiles [(e1, ..., ek)] to [[]], the code of each argument followed by [APPEND], and [CALL]. Run with a function value [f] on the stack, it collects the argument values, left to right, into one list [l] above [f], and the [CALL] then replaces [f] by the result of calling [f] with [l], or raises what that call raises. *)
Theorem call_semantics py_sin n code lx code' lx' :
  parse_args n code lx = Ok (code', lx') ->
  exists lx1 cs lx2,
    expects "(" lx = Ok lx1 /\
    ((tok_is (lx_token lx1) ")" = true /\ cs = [] /\ lx2 = lx1) \/
     (tok_is (lx_token lx1) ")" = false /\
      exists m c0 l1 ps, parse_expr m [] lx1 = Ok (c0, l1) /\
        sep_chain [","] parse_expr l1 ps lx2 /\ cs = c0 :: map fst ps)) /\
    expects ")" lx2 = Ok lx' /\
    code' = args_acc (code ++ [Op "[]"]) cs ++ [Op "CALL"] /\
    forall f s E O l E' O',
      args_runs py_sin (f :: s) cs [] E O l E' O' ->
      steps py_sin code' (length code) (mkst (f :: s) E O) (length code' - 1)
        (mkst (VList l :: f :: s) E' O') /\
      step py_sin code' (length code' - 1) (mkst (VList l :: f :: s) E' O') =
        match py_call py_sin f (VList l) O' with
        | Val (r, O'') => Next (length code') (mkst (r :: s) E' O'')
        | Raise e => Fault e
        end.
Proof.
  destruct n as [|m]; [discriminate|].
  destruct (parse_reloc m) as (_&_&R3&_).
  cbn [parse_args]. unfold obind.
  destruct (expects "(" lx) as [l1| |] eqn:Eo; try discriminate.
  intros H. assert (Hcs : exists cs lx2,
      ((tok_is (lx_token l1) ")" = true /\ cs = [] /\ lx2 = l1) \/
       (tok_is (lx_token l1) ")" = false /\
        exists m c0 l1' ps, parse_expr m [] l1 = Ok (c0, l1') /\
          sep_chain [","] parse_expr l1' ps lx2 /\ cs = c0 :: map fst ps)) /\
      expects ")" lx2 = Ok lx' /\
      args_acc (code ++ [Op "[]"]) cs ++ [Op "CALL"] = code').
  { revert H. destruct (tok_is (lx_token l1) ")") eqn:Hc; cbn [negb].
    - destruct (expects ")" l1) as [l4| |] eqn:Ec; try discriminate.
      intros H. injection H as <- <-. exists [], l1. split; [left; done|]. done.
    - rewrite R3. destruct (parse_expr m [] l1) as [[c l2]| |] eqn:E1; cbn [relocate]; try discriminate.
      destruct (args_loop m _ l2) as [[c' l3]| |] eqn:E2; try discriminate.
      destruct (args_loop_chain _ _ _ _ _ E2) as (ps & -> & Hps).
      destruct (expects ")" l3) as [l4| |] eqn:Ec; try discriminate.
      intros H. injection H as <- <-. exists (c :: map fst ps), l3.
      split; [right; split; [done|]; exists m, c, l2, ps; done|]. done. }
  destruct Hcs as (cs & lx2 & Hsh & Hend & <-). exists l1, cs, lx2.
  do 4 (split; [done|]).
  intros f s E O l E' O' Hr.
  rewrite length_app. simpl. rewrite Nat.add_sub. split.
  - apply steps_app_r. apply (args_acc_steps py_sin _ _ _ _ _ _ _ _ Hr).
    apply steps_one. unfold step. rewrite list_lookup_middle by done. cbn.
    rewrite length_app. simpl. rewrite Nat.add_1_r. reflexivity.
  - unfold step. rewrite list_lookup_middle by done. cbn [assoc BINARY String.eqb Ascii.eqb Bool.eqb andb].
    cbn [pop exn_bind stack out env].
    destruct (py_call py_sin f (VList l) O') as [[r o]|e]; cbn; [|reflexivity].
    rewrite Nat.add_1_r. reflexivity.
Qed.

Lemma call_semantics_witness :
  let py_sin : spec_float -> option spec_float := (fun _ => None) in
  let n : nat := 100 in
  let code : list instr := [ID "print"] in
  let lx : lexer := mklexer "f" "1, 2)" 1 7 (TStr "(") in
  let code' : list instr := [ID "print"; Op "[]"; RValue (VInt 1); Op "APPEND"; RValue (VInt 2); Op "APPEND"; Op "CALL"] in
  let lx' : lexer := mklexer "f" "" 1 12 (TStr "EOF") in
  (parse_args n code lx = Ok (code', lx')) /\
  (exists lx1 cs lx2,
    expects "(" lx = Ok lx1 /\
    ((tok_is (lx_token lx1) ")" = true /\ cs = [] /\ lx2 = lx1) \/
     (tok_is (lx_token lx1) ")" = false /\
      exists m c0 l1 ps, parse_expr m [] lx1 = Ok (c0, l1) /\
        sep_chain [","] parse_expr l1 ps lx2 /\ cs = c0 :: map fst ps)) /\
    expects ")" lx2 = Ok lx' /\
    code' = args_acc (code ++ [Op "[]"]) cs ++ [Op "CALL"] /\
    forall f s E O l E' O',
      args_runs py_sin (f :: s) cs [] E O l E' O' ->
      steps py_sin code' (length code) (mkst (f :: s) E O) (length code' - 1)
        (mkst (VList l :: f :: s) E' O') /\
      step py_sin code' (length code' - 1) (mkst (VList l :: f :: s) E' O') =
        match py_call py_sin f (VList l) O' with
        | Val (r, O'') => Next (length code') (mkst (r :: s) E' O'')
        | Raise e => Fault e
        end).
Proof.
  intros py_sin n code lx code' lx'.
  assert (H1 : parse_args n code lx = Ok (code', lx')) by (vm_compute; reflexivity).
  exact (conj H1 (call_semantics py_sin n code lx code' lx' H1)).
Defined.

Lemma binary_cases py_sin s f :
  assoc s (BINARY py_sin) = Some f -> (s = "CALL"%string /\ f = py_call py_sin) \/ exists g, f = pure g.
Proof.
  unfold BINARY. cbn [assoc].
  repeat match goal with
  | |- context [String.eqb ?k s] => destruct (String.eqb_spec k s) as [<-|_]
  end; intros H; cbn in H; try discriminate H; injection H as <-; eauto.
Qed.

Lemma py_call_out py_sin f a o r o' :
  py_call py_sin f a o = Val (r, o') -> o' = o \/ exists l, o' = o ++ [l].
Proof. unfold py_call, exn_bind. intros H. repeat case_match; simplify_eq; eauto. Qed.

(** X12: A step of [evaluate] that does not raise changes the environment only at an [=] instruction and the output only at a [CALL]; the output only grows, by at most one printed line. *)
Theorem step_frame py_sin code pc σ pc' σ' :
  step py_sin code pc σ = Next pc' σ' ->
  (code !! pc <> Some (Op "=") -> env σ' = env σ) /\
  (code !! pc <> Some (Op "CALL") -> out σ' = out σ) /\
  (out σ' = out σ \/ exists args, out σ' = out σ ++ [args]).
Proof.
  unfold step. destruct (code !! pc) as [i|] eqn:Hl; [|discriminate].
  destruct i as [v|name|o|t|t|s]; intros H.
  - injection H as <- <-. auto.
  - destruct (env σ !! name); [injection H as <- <-; auto|discriminate].
  - injection H as <- <-. auto.
  - unfold exn_step, exn_bind, pop in H. repeat case_match; simplify_eq; auto.
  - injection H as <- <-. auto.
  - destruct (assoc s (BINARY py_sin)) as [f|] eqn:Hs.
    + destruct (binary_cases _ _ _ Hs) as [[-> ->]|[g ->]].
      * unfold exn_step, exn_bind, pop in H. repeat case_match; simplify_eq.
        cbn [env out]. split; [auto|]. split; [intros Hc; done|].
        eapply py_call_out; eassumption.
      * unfold exn_step, exn_bind, pop, pure in H. repeat case_match; simplify_eq; unfold exn_bind in *; repeat case_match; simplify_eq; auto.
    + destruct (String.eqb_spec s "NEG").
      { unfold exn_step, exn_bind, pop in H. repeat case_match; simplify_eq. auto. }
      destruct (String.eqb_spec s "=") as [->|].
      { unfold exn_step, exn_bind, pop in H. repeat case_match; simplify_eq; cbn [env out];
          (split; [intros Hc; done|auto]). }
      destruct (String.eqb_spec s "DROP").
      { unfold exn_step, exn_bind, pop in H. repeat case_match; simplify_eq. auto. }
      destruct (String.eqb_spec s "[]"); [|discriminate].
      injection H as <- <-. auto.
Qed.

Lemma step_frame_witness :
  let py_sin : spec_float -> option spec_float := (fun _ => None) in
  let code : list instr := [Op "CALL"] in
  let pc : nat := 0 in
  let σ : vmst := mkst [VList [VInt 1]; VFun BPrint] ∅ [] in
  let pc' : nat := 1 in
  let σ' : vmst := mkst [VNone] ∅ [[VInt 1]] in
  (step py_sin code pc σ = Next pc' σ') /\
  ((code !! pc <> Some (Op "=") -> env σ' = env σ) /\
  (code !! pc <> Some (Op "CALL") -> out σ' = out σ) /\
  (out σ' = out σ \/ exists args, out σ' = out σ ++ [args])).
Proof.
  intros py_sin code pc σ pc' σ'.
  assert (H1 : step py_sin code pc σ = Next pc' σ') by (vm_compute; reflexivity).
  exact (conj H1 (step_frame py_sin code pc σ pc' σ' H1)).
Defined.

(** X13: After a step of [evaluate] that does not raise, the program counter is the next one, or the target of a [Jump] at the current one, or the target of an [OnFalseJump] at the current one whose popped value was falsy. *)
Theorem step_control py_sin code pc σ pc' σ' :
  step py_sin code pc σ = Next pc' σ' ->
  pc' = S pc \/ code !! pc = Some (Jump pc') \/
  (code !! pc = Some (OnFalseJump pc') /\ exists v, hd_error (stack σ) = Some v /\ py_truthy v = false).
Proof.
  unfold step. destruct (code !! pc) as [i|] eqn:Hl; [|discriminate].
  destruct i as [v|name|o|t|t|s]; intros H.
  - injection H as <- _. auto.
  - destruct (env σ !! name); [injection H as <- _; auto|discriminate].
  - injection H as <- _. auto.
  - unfold exn_step, exn_bind, pop in H. destruct (stack σ) as [|w st]; [discriminate|].
    destruct (py_truthy w) eqn:Hw; injection H as <- _; [auto|].
    right; right. split; [done|]. eauto.
  - injection H as <- _. auto.
  - left. unfold exn_step, exn_bind, pop in H. repeat case_match; simplify_eq; done.
Qed.

Lemma step_control_witness :
  let py_sin : spec_float -> option spec_float := (fun _ => None) in
  let code : list instr := [OnFalseJump 2; RValue (VInt 1)] in
  let pc : nat := 0 in
  let σ : vmst := mkst [VBool false] ∅ [] in
  let pc' : nat := 2 in
  let σ' : vmst := mkst [] ∅ [] in
  (step py_sin code pc σ = Next pc' σ') /\
  (pc' = S pc \/ code !! pc = Some (Jump pc') \/
  (code !! pc = Some (OnFalseJump pc') /\ exists v, hd_error (stack σ) = Some v /\ py_truthy v = false)).
Proof.
  intros py_sin code pc σ pc' σ'.
  assert (H1 : step py_sin code pc σ = Next pc' σ') by (vm_compute; reflexivity).
  exact (conj H1 (step_control py_sin code pc σ pc' σ' H1)).
Defined.

Lemma str_in_RELOP s :
  str_in s RELOP = true ->
  s = "<"%string \/ s = "<="%string \/ s = ">"%string \/ s = ">="%string \/ s = "=="%string \/ s = "!="%string.
Proof.
  unfold str_in, RELOP. cbn [existsb]. rewrite !orb_true_iff, !String.eqb_eq.
  intros [H|[H|[H|[H|[H|[H|H]]]]]]; [tauto|tauto|tauto|tauto|tauto|tauto|discriminate H].
Qed.

Lemma ord_step py_sin code pc σ s o x y st :
  code !! pc = Some (Op s) -> stack σ = y :: x :: st -> assoc s (BINARY py_sin) = Some (pure (py_cmp o)) ->
  step py_sin code pc σ =
    match py_order o x y with
    | Val b => Next (S pc) (mkst (VBool b :: st) (env σ) (out σ))
    | Raise e => Fault e
    end.
Proof.
  intros Hl Hs Ha. unfold step. rewrite Hl, Ha, Hs.
  unfold pure, py_cmp, exn_bind, exn_step. cbn [pop]. destruct (py_order o x y); reflexivity.
Qed.

Lemma py_order_num o x y a b :
  to_num x = Some a -> to_num y = Some b -> exists c, py_order o x y = Val c.
Proof. destruct x, y; intros Ha Hb; try discriminate; simpl; repeat case_match; eauto. Qed.

Lemma py_order_none_l o y : py_order o VNone y = Raise TypeErr.
Proof. destruct y; reflexivity. Qed.

Lemma py_order_none_r o x : py_order o x VNone = Raise TypeErr.
Proof. destruct x; reflexivity. Qed.

(** X14: A relational operator on two stack operands pushes a Boolean or raises TypeError; on two numbers (an int, a bool or a float) it always pushes a Boolean; an ordering [<], [>], [<=], [>=] with [None] on either side raises TypeError; [==] and [!=] push Python equality and its negation. *)
Theorem relop_step py_sin code pc σ s x y st :
  code !! pc = Some (Op s) -> str_in s RELOP = true -> stack σ = y :: x :: st ->
  ((exists b, step py_sin code pc σ = Next (S pc) (mkst (VBool b :: st) (env σ) (out σ))) \/
   step py_sin code pc σ = Fault TypeErr) /\
  (forall a b, to_num x = Some a -> to_num y = Some b ->
     exists c, step py_sin code pc σ = Next (S pc) (mkst (VBool c :: st) (env σ) (out σ))) /\
  ((x = VNone \/ y = VNone) -> s <> "=="%string -> s <> "!="%string ->
     step py_sin code pc σ = Fault TypeErr) /\
  (s = "=="%string -> step py_sin code pc σ = Next (S pc) (mkst (VBool (py_eq x y) :: st) (env σ) (out σ))) /\
  (s = "!="%string ->
     step py_sin code pc σ = Next (S pc) (mkst (VBool (negb (py_eq x y)) :: st) (env σ) (out σ))).
Proof.
  intros Hl Hin Hs.
  assert (Hord : forall o, assoc s (BINARY py_sin) = Some (pure (py_cmp o)) ->
    s <> "=="%string -> s <> "!="%string ->
    ((exists b, step py_sin code pc σ = Next (S pc) (mkst (VBool b :: st) (env σ) (out σ))) \/
     step py_sin code pc σ = Fault TypeErr) /\
    (forall a b, to_num x = Some a -> to_num y = Some b ->
       exists c, step py_sin code pc σ = Next (S pc) (mkst (VBool c :: st) (env σ) (out σ))) /\
    ((x = VNone \/ y = VNone) -> s <> "=="%string -> s <> "!="%string ->
       step py_sin code pc σ = Fault TypeErr) /\
    (s = "=="%string -> step py_sin code pc σ = Next (S pc) (mkst (VBool (py_eq x y) :: st) (env σ) (out σ))) /\
    (s = "!="%string ->
       step py_sin code pc σ = Next (S pc) (mkst (VBool (negb (py_eq x y)) :: st) (env σ) (out σ)))).
  { intros o Ha Hne1 Hne2. rewrite (ord_step py_sin code pc σ s o x y st Hl Hs Ha).
    split; [|split; [|split; [|split]]].
    - destruct (py_order o x y) as [b|e] eqn:Ho; [left; eauto|right].
      f_equal. eapply py_order_raise; eassumption.
    - intros a b Ha' Hb'. destruct (py_order_num o x y a b Ha' Hb') as [c ->]. eauto.
    - intros [->| ->] _ _; [rewrite py_order_none_l|rewrite py_order_none_r]; reflexivity.
    - intros E. contradiction.
    - intros E. contradiction. }
  assert (Heq : assoc s (BINARY py_sin) = Some (pure (fun x y => Val (VBool (py_eq x y)))) ->
    step py_sin code pc σ = Next (S pc) (mkst (VBool (py_eq x y) :: st) (env σ) (out σ))).
  { intros Ha. unfold step. rewrite Hl, Ha, Hs. reflexivity. }
  assert (Hne : assoc s (BINARY py_sin) = Some (pure (fun x y => Val (VBool (negb (py_eq x y))))) ->
    step py_sin code pc σ = Next (S pc) (mkst (VBool (negb (py_eq x y)) :: st) (env σ) (out σ))).
  { intros Ha. unfold step. rewrite Hl, Ha, Hs. reflexivity. }
  destruct (str_in_RELOP s Hin) as [->|[->|[->|[->|[->| ->]]]]].
  - apply (Hord OLt); [reflexivity|discriminate|discriminate].
  - apply (Hord OLe); [reflexivity|discriminate|discriminate].
  - apply (Hord OGt); [reflexivity|discriminate|discriminate].
  - apply (Hord OGe); [reflexivity|discriminate|discriminate].
  - rewrite (Heq eq_refl). split; [left; eauto|]. split; [eauto|].
    split; [intros _ H; contradiction|]. split; [done|discriminate].
  - rewrite (Hne eq_refl). split; [left; eauto|]. split; [eauto|].
    split; [intros _ _ H; contradiction|]. split; [discriminate|done].
Qed.

Lemma relop_step_witness :
  let py_sin : spec_float -> option spec_float := (fun _ => None) in
  let code : list instr := [Op "<"] in
  let pc : nat := 0 in
  let σ : vmst := mkst [VInt 2; VInt 1] ∅ [] in
  let s : string := "<"%string in
  let x : value := VInt 1 in
  let y : value := VInt 2 in
  let st : list value := [] in
  (code !! pc = Some (Op s)) /\
  (str_in s RELOP = true) /\
  (stack σ = y :: x :: st) /\
  (((exists b, step py_sin code pc σ = Next (S pc) (mkst (VBool b :: st) (env σ) (out σ))) \/
   step py_sin code pc σ = Fault TypeErr) /\
  (forall a b, to_num x = Some a -> to_num y = Some b ->
     exists c, step py_sin code pc σ = Next (S pc) (mkst (VBool c :: st) (env σ) (out σ))) /\
  ((x = VNone \/ y = VNone) -> s <> "=="%string -> s <> "!="%string ->
     step py_sin code pc σ = Fault TypeErr) /\
  (s = "=="%string -> step py_sin code pc σ = Next (S pc) (mkst (VBool (py_eq x y) :: st) (env σ) (out σ))) /\
  (s = "!="%string ->
     step py_sin code pc σ = Next (S pc) (mkst (VBool (negb (py_eq x y)) :: st) (env σ) (out σ)))).
Proof.
  intros py_sin code pc σ s x y st.
  assert (H1 : code !! pc = Some (Op s)) by (vm_compute; reflexivity).
  assert (H2 : str_in s RELOP = true) by (vm_compute; reflexivity).
  assert (H3 : stack σ = y :: x :: st) by (vm_compute; reflexivity).
  exact (conj H1 (conj H2 (conj H3 (relop_step py_sin code pc σ s x y st H1 H2 H3)))).
Defined.

Lemma assoc_in {B} s (l : list (string * B)) b : assoc s l = Some b -> In s (map fst l).
Proof.
  induction l as [|[k b'] l IH]; simpl; [discriminate|].
  destruct (String.eqb_spec k s) as [->|]; auto.
Qed.

Lemma op_arity_in py_sin s :
  op_arity py_sin s <> None ->
  In s ["+"; "-"; "*"; "/"; "APPEND"; "CALL"; "<"; ">"; "<="; ">="; "=="; "!=";
        "NEG"; "="; "DROP"; "[]"]%string.
Proof.
  unfold op_arity. destruct (assoc s (BINARY py_sin)) as [f|] eqn:Ha.
  - intros _. apply assoc_in in Ha. simpl in Ha. simpl. tauto.
  - destruct (String.eqb_spec s "NEG") as [->|]; [simpl; tauto|].
    destruct (String.eqb_spec s "=") as [->|]; [simpl; tauto|].
    destruct (String.eqb_spec s "DROP") as [->|]; [simpl; tauto|].
    destruct (String.eqb_spec s "[]") as [->|]; [simpl; tauto|].
    intros H. contradiction.
Qed.

(** X11: In every tape the compiler produces, the target of each [Jump] and [OnFalseJump] is at most the length of the tape, and each bare string instruction is one of the sixteen that [evaluate] handles, so its final [Bad instruction] branch is never taken on a compiled tape. *)
Theorem compiled_tape_instrs n filename text code :
  compile n filename text = Ok code ->
  forall pc i, code !! pc = Some i ->
  match i with
  | Jump t | OnFalseJump t => t <= length code
  | Op s => In s ["+"; "-"; "*"; "/"; "APPEND"; "CALL"; "<"; ">"; "<="; ">="; "=="; "!=";
                  "NEG"; "="; "DROP"; "[]"]%string
  | _ => True
  end.
Proof.
  intros Hc pc i Hi. destruct (compile_exprlist n filename text code Hc) as (lx & lx' & Hp).
  destruct (proj1 (parse_typed (fun _ => None) n) lx code lx' Hp 0) as (D & _ & _ & Hwt).
  pose proof (Hwt pc i ltac:(lia) (lookup_lt_Some _ _ _ Hi) Hi) as Hok.
  destruct i as [v|name|o|t|t|s]; cbn [instr_ok] in Hok; try exact I.
  - tauto.
  - tauto.
  - apply (op_arity_in (fun _ => None)). destruct (op_arity _ s); [discriminate|contradiction].
Qed.

Lemma compiled_tape_instrs_witness :
  let n : nat := 100 in
  let filename : string := "f"%string in
  let text : string := "while 0 do 1 end"%string in
  let code : list instr := [LValue None; RValue (VInt 0); OnFalseJump 6; Op "DROP"; RValue (VInt 1); Jump 1] in
  (compile n filename text = Ok code) /\
  (forall pc i, code !! pc = Some i ->
  match i with
  | Jump t | OnFalseJump t => t <= length code
  | Op s => In s ["+"; "-"; "*"; "/"; "APPEND"; "CALL"; "<"; ">"; "<="; ">="; "=="; "!=";
                  "NEG"; "="; "DROP"; "[]"]%string
  | _ => True
  end).
Proof.
  intros n filename text code.
  assert (H1 : compile n filename text = Ok code) by (vm_compute; reflexivity).
  exact (conj H1 (compiled_tape_instrs n filename text code H1)).
Defined.

(** X10: [parse_exprlist] and [parse_expr] only append to the tape they are given: their result on a tape [code] is [code] followed by their result on the empty tape, with every jump target moved by the length of [code]. *)
Theorem parse_reloc_expr n code lx :
  parse_exprlist n code lx = relocate code (parse_exprlist n [] lx) /\
  parse_expr n code lx = relocate code (parse_expr n [] lx).
Proof.
  destruct (parse_reloc n) as (R1&_&R3&_). split; [apply R1|apply R3].
Qed.

(** X16: When the text after the leading spaces starts with a letter, [next_token] reads the longest run of letters and digits as one token, a keyword token when it is in [KEYWORDS] and an ID token otherwise, and moves the position past the spaces and the word. *)
Theorem next_token_word lx ws w rest :
  lx_text lx = (ws ++ w ++ rest)%string -> all_chars is_space ws = true ->
  starts_with is_alpha w = true -> all_chars is_alnum w = true -> starts_with is_alnum rest = false ->
  next_token lx =
    Ok (mklexer (lx_file lx) rest (fst (advance (ws ++ w) (lx_row lx) (lx_col lx)))
          (snd (advance (ws ++ w) (lx_row lx) (lx_col lx)))
          (if str_in w KEYWORDS then TStr w else TID w)).
Proof.
  intros Ht Hws Hw1 Hw Hr. destruct w as [|ch w']; [discriminate|]. simpl in Hw1.
  unfold next_token. rewrite Ht.
  rewrite take_while_app by (simpl; rewrite ?alpha_not_space; done).
  rewrite str_app_cons. cbn [with_token lx_text]. rewrite Hw1. unfold lex_variable, with_token. cbn [lx_text lx_row lx_col lx_file].
  rewrite <- str_app_cons, take_while_app by done.
  rewrite advance_app. destruct (advance ws (lx_row lx) (lx_col lx)) as [r k]. done.
Qed.

Lemma next_token_word_witness :
  let lx : lexer := mklexer "f" "  while x" 1 1 (TStr "EOF") in
  let ws : string := "  "%string in
  let w : string := "while"%string in
  let rest : string := " x"%string in
  (lx_text lx = (ws ++ w ++ rest)%string) /\
  (all_chars is_space ws = true) /\
  (starts_with is_alpha w = true) /\
  (all_chars is_alnum w = true) /\
  (starts_with is_alnum rest = false) /\
  (next_token lx =
    Ok (mklexer (lx_file lx) rest (fst (advance (ws ++ w) (lx_row lx) (lx_col lx)))
          (snd (advance (ws ++ w) (lx_row lx) (lx_col lx)))
          (if str_in w KEYWORDS then TStr w else TID w))).
Proof.
  intros lx ws w rest.
  assert (H1 : lx_text lx = (ws ++ w ++ rest)%string) by (vm_compute; reflexivity).
  assert (H2 : all_chars is_space ws = true) by (vm_compute; reflexivity).
  assert (H3 : starts_with is_alpha w = true) by (vm_compute; reflexivity).
  assert (H4 : all_chars is_alnum w = true) by (vm_compute; reflexivity).
  assert (H5 : starts_with is_alnum rest = false) by (vm_compute; reflexivity).
  exact (conj H1 (conj H2 (conj H3 (conj H4 (conj H5 (next_token_word lx ws w rest H1 H2 H3 H4 H5)))))).
Defined.

(** X17: When the text after the leading spaces starts with digits, [next_token] reads them as an int token when no dot follows, raising [ValueError] instead when there are more than 4300 of them (CPython's limit on [int] of a decimal string), and, when a dot follows, reads the dot and the digits after it (possibly none) as a float token; the position moves past what was read. *)
Theorem next_token_number lx ws ds rest :
  lx_text lx = (ws ++ ds ++ rest)%string -> all_chars is_space ws = true ->
  ds <> EmptyString -> all_chars is_digit ds = true -> starts_with is_digit rest = false ->
  (starts_with (fun ch => Ascii.eqb ch "."%char) rest = false ->
   String.length ds <= max_str_digits ->
   next_token lx =
     Ok (mklexer (lx_file lx) rest (fst (advance (ws ++ ds) (lx_row lx) (lx_col lx)))
           (snd (advance (ws ++ ds) (lx_row lx) (lx_col lx))) (TNum (VInt (Z_of_digits ds))))) /\
  (starts_with (fun ch => Ascii.eqb ch "."%char) rest = false ->
   max_str_digits < String.length ds -> next_token lx = Fail ValueError) /\
  (forall fs rest', rest = String "."%char (fs ++ rest') -> all_chars is_digit fs = true ->
   starts_with is_digit rest' = false ->
   next_token lx =
     Ok (mklexer (lx_file lx) rest' (fst (advance (ws ++ ds ++ String "."%char fs) (lx_row lx) (lx_col lx)))
           (snd (advance (ws ++ ds ++ String "."%char fs) (lx_row lx) (lx_col lx)))
           (TNum (VFloat (float_of_decimal ds fs))))).
Proof.
  intros Ht Hws Hne Hds Hr. destruct ds as [|ch ds']; [done|].
  assert (Hch : is_digit ch = true) by (simpl in Hds; apply andb_true_iff in Hds; tauto).
  assert (Hlx : next_token lx = lex_number (with_token lx (String ch ds' ++ rest)
      (fst (advance ws (lx_row lx) (lx_col lx))) (snd (advance ws (lx_row lx) (lx_col lx))) (lx_token lx))).
  { unfold next_token. rewrite Ht.
    rewrite take_while_app by (simpl; rewrite ?digit_not_space; done).
    rewrite str_app_cons. cbn [with_token lx_text]. rewrite (digit_not_alpha ch Hch), Hch. reflexivity. }
  rewrite Hlx. unfold lex_number, with_token. cbn [lx_text lx_row lx_col lx_file].
  rewrite take_while_app by done. split; [|split].
  - intros Hdot Hlen. apply Nat.ltb_ge in Hlen. destruct rest as [|d rest'].
    + rewrite Hlen. unfold with_token. cbn. rewrite advance_app. destruct (advance ws _ _). done.
    + simpl in Hdot. rewrite advance_app. destruct (advance ws _ _) as [r0 k0]. cbn [fst snd].
      destruct d as [[] [] [] [] [] [] [] []]; try (rewrite Hlen; reflexivity); discriminate Hdot.
  - intros Hdot Hlen. apply Nat.ltb_lt in Hlen. destruct rest as [|d rest'].
    + rewrite Hlen. reflexivity.
    + simpl in Hdot. destruct (advance (String ch ds') _ _) as [r0 k0].
      destruct d as [[] [] [] [] [] [] [] []]; try (rewrite Hlen; reflexivity); discriminate Hdot.
  - intros fs rest' -> Hfs Hr'. cbn iota. rewrite take_while_app by done.
    rewrite !advance_app. destruct (advance ws _ _) as [r0 k0]. cbn [fst snd].
    rewrite advance_app. destruct (advance (String ch ds') r0 k0) as [r1 k1]. reflexivity.
Qed.

Lemma next_token_number_witness :
  let lx : lexer := mklexer "f" "12.5;" 1 1 (TStr "EOF") in
  let ws : string := ""%string in
  let ds : string := "12"%string in
  let rest : string := ".5;"%string in
  (lx_text lx = (ws ++ ds ++ rest)%string) /\
  (all_chars is_space ws = true) /\
  (ds <> EmptyString) /\
  (all_chars is_digit ds = true) /\
  (starts_with is_digit rest = false) /\
  ((starts_with (fun ch => Ascii.eqb ch "."%char) rest = false ->
   String.length ds <= max_str_digits ->
   next_token lx =
     Ok (mklexer (lx_file lx) rest (fst (advance (ws ++ ds) (lx_row lx) (lx_col lx)))
           (snd (advance (ws ++ ds) (lx_row lx) (lx_col lx))) (TNum (VInt (Z_of_digits ds))))) /\
  (starts_with (fun ch => Ascii.eqb ch "."%char) rest = false ->
   max_str_digits < String.length ds -> next_token lx = Fail ValueError) /\
  (forall fs rest', rest = String "."%char (fs ++ rest') -> all_chars is_digit fs = true ->
   starts_with is_digit rest' = false ->
   next_token lx =
     Ok (mklexer (lx_file lx) rest' (fst (advance (ws ++ ds ++ String "."%char fs) (lx_row lx) (lx_col lx)))
           (snd (advance (ws ++ ds ++ String "."%char fs) (lx_row lx) (lx_col lx)))
           (TNum (VFloat (float_of_decimal ds fs)))))).
Proof.
  intros lx ws ds rest.
  assert (H1 : lx_text lx = (ws ++ ds ++ rest)%string) by (vm_compute; reflexivity).
  assert (H2 : all_chars is_space ws = true) by (vm_compute; reflexivity).
  assert (H3 : ds <> EmptyString) by (vm_compute; discriminate).
  assert (H4 : all_chars is_digit ds = true) by (vm_compute; reflexivity).
  assert (H5 : starts_with is_digit rest = false) by (vm_compute; reflexivity).
  exact (conj H1 (conj H2 (conj H3 (conj H4 (conj H5 (next_token_number lx ws ds rest H1 H2 H3 H4 H5)))))).
Defined.

Lemma str_in_OPS2_single c : str_in (String c EmptyString) OPS2 = false.
Proof.
  unfold str_in, OPS2. cbn [existsb]. apply not_true_iff_false.
  rewrite !orb_true_iff, !String.eqb_eq. intros [H|[H|[H|[H|H]]]]; discriminate H.
Qed.

Lemma OPS2_chars c c2 :
  str_in (String c (String c2 EmptyString)) OPS2 = true ->
  is_space c = false /\ is_alpha c = false /\ is_digit c = false /\
  Ascii.eqb c "010"%char = false /\ Ascii.eqb c2 "010"%char = false.
Proof.
  unfold str_in, OPS2. cbn [existsb]. rewrite !orb_true_iff, !String.eqb_eq.
  intros [H|[H|[H|[H|H]]]]; try discriminate H; injection H as -> ->; repeat split.
Qed.

Lemma OPS_chars c :
  str_in (String c EmptyString) OPS = true ->
  is_space c = false /\ is_alpha c = false /\ is_digit c = false /\ Ascii.eqb c "010"%char = false.
Proof.
  unfold str_in, OPS. cbn [existsb]. rewrite !orb_true_iff, !String.eqb_eq.
  intros H; repeat destruct H as [H|H]; try discriminate H; injection H as ->; repeat split.
Qed.

Lemma next_token_after_space lx ws c t :
  lx_text lx = (ws ++ String c t)%string -> all_chars is_space ws = true -> is_space c = false ->
  next_token lx =
    let r := fst (advance ws (lx_row lx) (lx_col lx)) in
    let k := snd (advance ws (lx_row lx) (lx_col lx)) in
    let lx := with_token lx (String c t) r k (lx_token lx) in
    if is_alpha c then Ok (lex_variable lx)
    else if is_digit c then lex_number lx
    else if str_in (substring 0 2 (String c t)) OPS2 then
      match t with
      | String c2 t'' => Ok (with_token lx t'' r (S (S k)) (TStr (String c (String c2 EmptyString))))
      | EmptyString => Ok lx
      end
    else if str_in (String c EmptyString) OPS then
      Ok (with_token lx t r (S k) (TStr (String c EmptyString)))
    else lex_error lx ("Bad string '" ++ substring 0 3 (String c t) ++ "...'")%string.
Proof.
  intros Ht Hws Hc. unfold next_token. rewrite Ht, take_while_app by first [exact Hws | cbn [starts_with]; exact Hc].
  reflexivity.
Qed.

(** X18: After the leading spaces, a two-character operator of [OPS2] is read as one token before any one-character operator, and otherwise a one-character operator of [OPS]; any other character that is not a letter or a digit raises the SyntaxError [Bad string] quoting up to three characters, at that character's position. *)
Theorem next_token_operator lx ws c t :
  lx_text lx = (ws ++ String c t)%string -> all_chars is_space ws = true ->
  (forall c2 t', t = String c2 t' -> str_in (String c (String c2 EmptyString)) OPS2 = true ->
     next_token lx =
       Ok (mklexer (lx_file lx) t' (fst (advance ws (lx_row lx) (lx_col lx)))
             (S (S (snd (advance ws (lx_row lx) (lx_col lx))))) (TStr (String c (String c2 EmptyString))))) /\
  (str_in (substring 0 2 (String c t)) OPS2 = false -> str_in (String c EmptyString) OPS = true ->
     next_token lx =
       Ok (mklexer (lx_file lx) t (fst (advance ws (lx_row lx) (lx_col lx)))
             (S (snd (advance ws (lx_row lx) (lx_col lx)))) (TStr (String c EmptyString)))) /\
  (is_space c = false -> is_alpha c = false -> is_digit c = false ->
   str_in (substring 0 2 (String c t)) OPS2 = false -> str_in (String c EmptyString) OPS = false ->
     next_token lx =
       Fail (SyntaxError (lx_file lx) (fst (advance ws (lx_row lx) (lx_col lx)))
               (snd (advance ws (lx_row lx) (lx_col lx)))
               ("Bad string '" ++ substring 0 3 (String c t) ++ "...'")%string)).
Proof.
  intros Ht Hws. split; [|split].
  - intros c2 t' -> H2. destruct (OPS2_chars c c2 H2) as (Hs & Ha & Hd & _).
    rewrite (next_token_after_space lx ws c (String c2 t') Ht Hws Hs). cbv zeta.
    rewrite Ha, Hd. replace (substring 0 2 (String c (String c2 t'))) with (String c (String c2 EmptyString)) by (destruct t'; reflexivity). rewrite H2. reflexivity.
  - intros H2 H1. destruct (OPS_chars c H1) as (Hs & Ha & Hd & _).
    rewrite (next_token_after_space lx ws c t Ht Hws Hs). cbv zeta.
    rewrite Ha, Hd, H2, H1. reflexivity.
  - intros Hs Ha Hd H2 H1.
    rewrite (next_token_after_space lx ws c t Ht Hws Hs). cbv zeta.
    rewrite Ha, Hd, H2, H1. reflexivity.
Qed.

Lemma next_token_operator_witness :
  let lx : lexer := mklexer "f" "<= 1" 1 1 (TStr "EOF") in
  let ws : string := ""%string in
  let c : ascii := "<"%char in
  let t : string := "= 1"%string in
  (lx_text lx = (ws ++ String c t)%string) /\
  (all_chars is_space ws = true) /\
  ((forall c2 t', t = String c2 t' -> str_in (String c (String c2 EmptyString)) OPS2 = true ->
     next_token lx =
       Ok (mklexer (lx_file lx) t' (fst (advance ws (lx_row lx) (lx_col lx)))
             (S (S (snd (advance ws (lx_row lx) (lx_col lx))))) (TStr (String c (String c2 EmptyString))))) /\
  (str_in (substring 0 2 (String c t)) OPS2 = false -> str_in (String c EmptyString) OPS = true ->
     next_token lx =
       Ok (mklexer (lx_file lx) t (fst (advance ws (lx_row lx) (lx_col lx)))
             (S (snd (advance ws (lx_row lx) (lx_col lx)))) (TStr (String c EmptyString)))) /\
  (is_space c = false -> is_alpha c = false -> is_digit c = false ->
   str_in (substring 0 2 (String c t)) OPS2 = false -> str_in (String c EmptyString) OPS = false ->
     next_token lx =
       Fail (SyntaxError (lx_file lx) (fst (advance ws (lx_row lx) (lx_col lx)))
               (snd (advance ws (lx_row lx) (lx_col lx)))
               ("Bad string '" ++ substring 0 3 (String c t) ++ "...'")%string))).
Proof.
  intros lx ws c t.
  assert (H1 : lx_text lx = (ws ++ String c t)%string) by (vm_compute; reflexivity).
  assert (H2 : all_chars is_space ws = true) by (vm_compute; reflexivity).
  exact (conj H1 (conj H2 (next_token_operator lx ws c t H1 H2))).
Defined.

(** X19: [next_token] gives the [EOF] token exactly when the rest of the text is only spaces; the text is then empty, and calling [next_token] again gives the same lexer. *)
Theorem next_token_eof lx lx' :
  next_token lx = Ok lx' ->
  (lx_token lx' = TStr "EOF" <-> all_chars is_space (lx_text lx) = true) /\
  (lx_token lx' = TStr "EOF" -> lx_text lx' = EmptyString /\ next_token lx' = Ok lx').
Proof.
  pose proof (take_while_all is_space (lx_text lx) (lx_row lx) (lx_col lx)) as Hall.
  pose proof (take_while_spec is_space (lx_text lx) (lx_row lx) (lx_col lx)) as Hsp.
  unfold next_token at 1.
  destruct (take_while is_space (lx_text lx) (lx_row lx) (lx_col lx)) as [[[ws t] r] k].
  destruct Hall as [Hws Ht]. destruct Hsp as [Htx _].
  destruct t as [|c t'].
  - intros H. injection H as <-. cbn [lx_token with_token lx_text].
    split; [|split; [done|reflexivity]].
    split; [intros _|done]. rewrite Htx, all_chars_app, Hws. done.
  - simpl in Ht.
    assert (Hns : all_chars is_space (lx_text lx) = false).
    { rewrite Htx, all_chars_app. simpl. rewrite Ht, andb_false_r. done. }
    rewrite Hns. intros H.
    assert (Hne : lx_token lx' <> TStr "EOF").
    { revert H. cbn [with_token lx_text].
      destruct (is_alpha c).
      { unfold lex_variable. cbn [lx_text lx_row lx_col].
        destruct (take_while is_alnum _ _ _) as [[[w rest] r2] k2].
        intros H. injection H as <-. cbn [with_token lx_token].
        match goal with |- context [if ?b then _ else _] => destruct b eqn:Hk end; [|discriminate].
        intros E. injection E as ->. cbv in Hk. discriminate Hk. }
      destruct (is_digit c).
      { unfold lex_number. cbn [lx_text lx_row lx_col].
        destruct (take_while is_digit _ _ _) as [[[w rest] r2] k2].
        destruct rest as [|d rest];
          [destruct (Nat.ltb _ _); [discriminate|intros H; injection H as <-; discriminate]|].
        destruct d as [[] [] [] [] [] [] [] []];
          try (destruct (Nat.ltb _ _); [discriminate|intros H; injection H as <-; discriminate]).
        destruct (take_while is_digit _ _ _) as [[[w' rest'] r3] k3].
        intros H; injection H as <-; discriminate. }
      destruct (str_in (substring 0 2 (String c t')) OPS2) eqn:H2.
      { destruct t' as [|c2 t''].
        - cbn [substring] in H2. rewrite str_in_OPS2_single in H2. discriminate.
        - intros H; injection H as <-. cbn [with_token lx_token]. intros E. injection E. discriminate. }
      destruct (str_in (String c EmptyString) OPS).
      { intros H; injection H as <-. cbn [with_token lx_token]. intros E. injection E. discriminate. }
      discriminate. }
    split; [split; [intros E; contradiction|discriminate]|].
    intros E. contradiction.
Qed.

Lemma next_token_eof_witness :
  let lx : lexer := mklexer "f" " " 1 1 (TStr "x") in
  let lx' : lexer := mklexer "f" "" 1 2 (TStr "EOF") in
  (next_token lx = Ok lx') /\
  ((lx_token lx' = TStr "EOF" <-> all_chars is_space (lx_text lx) = true) /\
  (lx_token lx' = TStr "EOF" -> lx_text lx' = EmptyString /\ next_token lx' = Ok lx')).
Proof.
  intros lx lx'.
  assert (H1 : next_token lx = Ok lx') by (vm_compute; reflexivity).
  exact (conj H1 (next_token_eof lx lx' H1)).
Defined.

Lemma main_lex_only py_sin n fs p file rest text e :
  fs !! file = Some text -> lexer_init file text = Fail e ->
  forall res, main py_sin n fs (p :: file :: rest) res <-> res = MainUncaught e.
Proof.
  intros Hf Hl res. split.
  - intros Hm. inversion Hm as [argv Hlen|p' f' r' Hn|p' f' r' t' e' Ht Hl'
                              |p' f' r' t' lx f0 r0 c0 m0 Ht Hl' Hp|p' f' r' t' lx e' Ht Hl' Hp He
                              |p' f' r' t' lx code lx' r0 Ht Hl' Hp Hx]; subst.
    + cbn in Hlen. lia.
    + rewrite Hf in Hn. discriminate.
    + rewrite Hf in Ht. injection Ht as <-. rewrite Hl in Hl'. injection Hl' as ->. reflexivity.
    + rewrite Hf in Ht. injection Ht as <-. rewrite Hl in Hl'. discriminate.
    + rewrite Hf in Ht. injection Ht as <-. rewrite Hl in Hl'. discriminate.
    + rewrite Hf in Ht. injection Ht as <-. rewrite Hl in Hl'. discriminate.
  - intros ->. eapply main_lex; eassumption.
Qed.

(** X23: When the first character of the file named by [argv[1]] that is not a space is neither a letter, a digit nor the start of an operator, the [Lexer] constructor, which reads the first token before the [try] of [main], raises the SyntaxError [Bad string] at that character's position, and this is the only outcome of [main]: the fault escapes [main] instead of being printed. *)
Theorem main_first_token_fault py_sin n fs p file rest text ws ch t :
  fs !! file = Some text -> text = (ws ++ String ch t)%string -> all_chars is_space ws = true ->
  is_space ch = false -> is_alpha ch = false -> is_digit ch = false ->
  str_in (substring 0 2 (String ch t)) OPS2 = false -> str_in (String ch EmptyString) OPS = false ->
  forall res, main py_sin n fs (p :: file :: rest) res <->
    res = MainUncaught (SyntaxError file (fst (advance ws 1 1)) (snd (advance ws 1 1))
            ("Bad string '" ++ substring 0 3 (String ch t) ++ "...'")%string).
Proof.
  intros Hf Ht Hws Hs Ha Hd H2 H1. apply (main_lex_only py_sin n fs p file rest text _ Hf).
  unfold lexer_init. rewrite (next_token_after_space _ ws ch t) by (cbn [lx_text]; assumption).
  cbn zeta. rewrite Ha, Hd, H2, H1. reflexivity.
Qed.

Lemma main_first_token_fault_witness :
  let py_sin : spec_float -> option spec_float := (fun _ => None) in
  let n : nat := 100 in
  let fs : gmap string string := {[ "a.txt"%string := " $x = 1"%string ]} in
  let p : string := "evalexpr.py"%string in
  let file : string := "a.txt"%string in
  let rest : list string := [] in
  let text : string := " $x = 1"%string in
  let ws : string := " "%string in
  let ch : ascii := "$"%char in
  let t : string := "x = 1"%string in
  (fs !! file = Some text) /\
  (text = (ws ++ String ch t)%string) /\
  (all_chars is_space ws = true) /\
  (is_space ch = false) /\
  (is_alpha ch = false) /\
  (is_digit ch = false) /\
  (str_in (substring 0 2 (String ch t)) OPS2 = false) /\
  (str_in (String ch EmptyString) OPS = false) /\
  (forall res, main py_sin n fs (p :: file :: rest) res <->
    res = MainUncaught (SyntaxError file (fst (advance ws 1 1)) (snd (advance ws 1 1))
            ("Bad string '" ++ substring 0 3 (String ch t) ++ "...'")%string)).
Proof.
  intros py_sin n fs p file rest text ws ch t.
  assert (H1 : fs !! file = Some text) by (vm_compute; reflexivity).
  assert (H2 : text = (ws ++ String ch t)%string) by (vm_compute; reflexivity).
  assert (H3 : all_chars is_space ws = true) by (vm_compute; reflexivity).
  assert (H4 : is_space ch = false) by (vm_compute; reflexivity).
  assert (H5 : is_alpha ch = false) by (vm_compute; reflexivity).
  assert (H6 : is_digit ch = false) by (vm_compute; reflexivity).
  assert (H7 : str_in (substring 0 2 (String ch t)) OPS2 = false) by (vm_compute; reflexivity).
  assert (H8 : str_in (String ch EmptyString) OPS = false) by (vm_compute; reflexivity).
  exact (conj H1 (conj H2 (conj H3 (conj H4 (conj H5 (conj H6 (conj H7 (conj H8 (main_first_token_fault py_sin n fs p file rest text ws ch t H1 H2 H3 H4 H5 H6 H7 H8))))))))).
Defined.

Lemma binop_acc_steps py_sin s ps v E O r E' O' :
  binop_runs py_sin s ps v E O r E' O' ->
  forall T p σ0, steps py_sin T p σ0 (length T) (mkst (v :: s) E O) ->
  steps py_sin (binop_acc T ps) p σ0 (length (binop_acc T ps)) (mkst (r :: s) E' O').
Proof.
  induction 1 as [v E O|c op ps v E O w E1 O1 r O2 res E' O' Hc Hop _ IH];
    intros T p σ0 HT; [exact HT|].
  simpl. apply IH. eapply steps_trans.
  { unfold reloc. rewrite <- app_assoc. apply steps_app_r. exact HT. }
  eapply steps_trans.
  { apply steps_app_r. apply steps_reloc. exact Hc. }
  apply steps_one.
  replace (length (reloc T c ++ [Op op])) with (length (reloc T c) + 1)
    by (rewrite length_app; reflexivity).
  rewrite <- (Nat.add_0_r (length (reloc T c))) at 1.
  eapply step_shift_instr; [exact Hop|].
  rewrite Nat.add_0_r, list_lookup_middle by done. reflexivity.
Qed.



(** X5: The [+]/[-] loop of [parse_arexpr] reads, while the token is [+] or [-], the operator and the next term from the lexer after it ([sep_chain]), and stops at the first token that is neither. After the code of the first term it compiles each term followed by its operator, so the operators apply left to right: the value so far is combined with the next term's value. *)
Theorem arexpr_loop_left py_sin n acc lx code lx' :
  arexpr_loop n acc lx = Ok (code, lx') ->
  exists ps, code = binop_acc acc ps /\ sep_chain ["+"; "-"] parse_term lx ps lx' /\
    forall p σ0 s v E O r E' O',
      steps py_sin acc p σ0 (length acc) (mkst (v :: s) E O) ->
      binop_runs py_sin s ps v E O r E' O' ->
      steps py_sin code p σ0 (length code) (mkst (r :: s) E' O').
Proof.
  intros H. destruct (arexpr_loop_chain n acc lx code lx' H) as (ps & -> & Hps).
  exists ps. split; [done|]. split; [done|].
  intros p σ0 s v E O r E' O' Hacc Hr. exact (binop_acc_steps py_sin s ps v E O r E' O' Hr acc p σ0 Hacc).
Qed.

Lemma arexpr_loop_left_witness :
  let py_sin : spec_float -> option spec_float := (fun _ => None) in
  let n : nat := 100 in
  let acc : list instr := [RValue (VInt 1)] in
  let lx : lexer := mklexer "f" " 2 - 3" 1 3 (TStr "-") in
  let code : list instr := [RValue (VInt 1); RValue (VInt 2); Op "-"; RValue (VInt 3); Op "-"] in
  let lx' : lexer := mklexer "f" "" 1 9 (TStr "EOF") in
  (arexpr_loop n acc lx = Ok (code, lx')) /\
  (exists ps, code = binop_acc acc ps /\ sep_chain ["+"; "-"] parse_term lx ps lx' /\
    forall p σ0 s v E O r E' O',
      steps py_sin acc p σ0 (length acc) (mkst (v :: s) E O) ->
      binop_runs py_sin s ps v E O r E' O' ->
      steps py_sin code p σ0 (length code) (mkst (r :: s) E' O')).
Proof.
  intros py_sin n acc lx code lx'.
  assert (H1 : arexpr_loop n acc lx = Ok (code, lx')) by (vm_compute; reflexivity).
  exact (conj H1 (arexpr_loop_left py_sin n acc lx code lx' H1)).
Defined.

(** X6: [parse_term] reads a factor [f0], then, while the token is [*] or [/], the operator and the next factor from the lexer after it ([sep_chain]), and stops at the first token that is neither. It compiles [f0 op1 f1 op2 f2 ...] as the code of [f0], then the code of each further factor followed by its operator, so the operators apply left to right: [8 / 2 * 3] is [(8 / 2) * 3]. *)
Theorem term_left py_sin n acc lx code lx' :
  parse_term n acc lx = Ok (code, lx') ->
  exists m c0 lx1 ps, parse_factor m [] lx = Ok (c0, lx1) /\
    sep_chain ["*"; "/"] parse_factor lx1 ps lx' /\
    code = binop_acc (reloc acc c0) ps /\
    forall s E O v E1 O1 r E' O',
      steps py_sin c0 0 (mkst s E O) (length c0) (mkst (v :: s) E1 O1) ->
      binop_runs py_sin s ps v E1 O1 r E' O' ->
      steps py_sin code (length acc) (mkst s E O) (length code) (mkst (r :: s) E' O').
Proof.
  destruct n as [|m]; [discriminate|].
  destruct (parse_reloc m) as (_&_&_&_&_&_&_&R8&_).
  cbn [parse_term]. unfold obind at 1. rewrite R8.
  destruct (parse_factor m [] lx) as [[c0 l1]| |] eqn:E; cbn [relocate]; try discriminate.
  intros H. destruct (term_loop_chain m _ _ _ _ H) as (ps & -> & Hps).
  exists m, c0, l1, ps. split; [done|]. split; [done|]. split; [done|].
  intros s E0 O v E1 O1 r E' O' Hc Hr. apply (binop_acc_steps py_sin s ps v E1 O1 r E' O' Hr).
  rewrite length_reloc. apply (steps_reloc_at py_sin acc) in Hc.
  rewrite Nat.add_0_r in Hc. exact Hc.
Qed.

Lemma term_left_witness :
  let py_sin : spec_float -> option spec_float := (fun _ => None) in
  let n : nat := 100 in
  let acc : list instr := [] in
  let lx : lexer := mklexer "f" " / 2 * 3" 1 2 (TNum (VInt 8)) in
  let code : list instr := [RValue (VInt 8); RValue (VInt 2); Op "/"; RValue (VInt 3); Op "*"] in
  let lx' : lexer := mklexer "f" "" 1 10 (TStr "EOF") in
  (parse_term n acc lx = Ok (code, lx')) /\
  (exists m c0 lx1 ps, parse_factor m [] lx = Ok (c0, lx1) /\
    sep_chain ["*"; "/"] parse_factor lx1 ps lx' /\
    code = binop_acc (reloc acc c0) ps /\
    forall s E O v E1 O1 r E' O',
      steps py_sin c0 0 (mkst s E O) (length c0) (mkst (v :: s) E1 O1) ->
      binop_runs py_sin s ps v E1 O1 r E' O' ->
      steps py_sin code (length acc) (mkst s E O) (length code) (mkst (r :: s) E' O')).
Proof.
  intros py_sin n acc lx code lx'.
  assert (H1 : parse_term n acc lx = Ok (code, lx')) by (vm_compute; reflexivity).
  exact (conj H1 (term_left py_sin n acc lx code lx' H1)).
Defined.

(** X7: [parse_expr] compiles at most one relational operator: the code of the first [arexpr], optionally followed by the code of a second one and the operator, which then combines the two values. The token after the second [arexpr] is not examined, so [1 < 2 < 3] stops after [1 < 2] with [<] as the next token. *)
Theorem expr_compare py_sin n code lx code' lx' :
  parse_expr n code lx = Ok (code', lx') ->
  exists c1 l1 ps, (exists m, parse_arexpr m [] lx = Ok (c1, l1)) /\
    code' = binop_acc (reloc code c1) ps /\
    ((ps = [] /\ lx' = l1 /\ tok_in (lx_token l1) RELOP = false) \/
     (exists c2 r l2 m, ps = [(c2, r)] /\ lx_token l1 = TStr r /\ str_in r RELOP = true /\
        next_token l1 = Ok l2 /\ parse_arexpr m [] l2 = Ok (c2, lx'))) /\
    forall s E O v E1 O1 res E' O',
      steps py_sin c1 0 (mkst s E O) (length c1) (mkst (v :: s) E1 O1) ->
      binop_runs py_sin s ps v E1 O1 res E' O' ->
      steps py_sin code' (length code) (mkst s E O) (length code') (mkst (res :: s) E' O').
Proof.
  destruct n as [|m]; [discriminate|].
  destruct (parse_reloc m) as (_&_&_&R4&_).
  cbn [parse_expr]. unfold obind at 1. rewrite R4.
  destruct (parse_arexpr m [] lx) as [[c1 l1]| |] eqn:E1; cbn [relocate]; try discriminate.
  intros H.
  assert (Hps : exists ps, code' = binop_acc (reloc code c1) ps /\
    ((ps = [] /\ lx' = l1 /\ tok_in (lx_token l1) RELOP = false) \/
     (exists c2 r l2 m, ps = [(c2, r)] /\ lx_token l1 = TStr r /\ str_in r RELOP = true /\
        next_token l1 = Ok l2 /\ parse_arexpr m [] l2 = Ok (c2, lx')))).
  { destruct (lx_token l1) as [r|x|v] eqn:Ht.
    - destruct (str_in r RELOP) eqn:Hr.
      + unfold obind in H. destruct (next_token l1) as [l2| |] eqn:En; try discriminate.
        rewrite R4 in H. destruct (parse_arexpr m [] l2) as [[c2 l3]| |] eqn:E2;
          cbn [relocate] in H; try discriminate.
        injection H as <- <-. exists [(c2, r)]. split; [reflexivity|]. right. eauto 10.
      + injection H as <- <-. exists []. split; [done|]. left. split; [done|split; [done|]]. cbn [tok_in]. first [exact Hr | reflexivity].
    - injection H as <- <-. exists []. split; [done|]. left. split; [done|split; [done|]]. cbn [tok_in]. first [exact Hr | reflexivity].
    - injection H as <- <-. exists []. split; [done|]. left. split; [done|split; [done|]]. cbn [tok_in]. first [exact Hr | reflexivity]. }
  destruct Hps as (ps & -> & Hshape). exists c1, l1, ps.
  split; [eauto|]. split; [done|]. split; [exact Hshape|].
  intros s E O v E2 O1 res E' O' Hc Hr. apply (binop_acc_steps py_sin s ps v E2 O1 res E' O' Hr).
  rewrite length_reloc. apply (steps_reloc_at py_sin code) in Hc.
  rewrite Nat.add_0_r in Hc. exact Hc.
Qed.

Lemma expr_compare_witness :
  let py_sin : spec_float -> option spec_float := (fun _ => None) in
  let n : nat := 100 in
  let code : list instr := [] in
  let lx : lexer := mklexer "f" " < 2 < 3" 1 2 (TNum (VInt 1)) in
  let code' : list instr := [RValue (VInt 1); RValue (VInt 2); Op "<"] in
  let lx' : lexer := mklexer "f" " 3" 1 8 (TStr "<") in
  (parse_expr n code lx = Ok (code', lx')) /\
  (exists c1 l1 ps, (exists m, parse_arexpr m [] lx = Ok (c1, l1)) /\
    code' = binop_acc (reloc code c1) ps /\
    ((ps = [] /\ lx' = l1 /\ tok_in (lx_token l1) RELOP = false) \/
     (exists c2 r l2 m, ps = [(c2, r)] /\ lx_token l1 = TStr r /\ str_in r RELOP = true /\
        next_token l1 = Ok l2 /\ parse_arexpr m [] l2 = Ok (c2, lx'))) /\
    forall s E O v E1 O1 res E' O',
      steps py_sin c1 0 (mkst s E O) (length c1) (mkst (v :: s) E1 O1) ->
      binop_runs py_sin s ps v E1 O1 res E' O' ->
      steps py_sin code' (length code) (mkst s E O) (length code') (mkst (res :: s) E' O')).
Proof.
  intros py_sin n code lx code' lx'.
  assert (H1 : parse_expr n code lx = Ok (code', lx')) by (vm_compute; reflexivity).
  exact (conj H1 (expr_compare py_sin n code lx code' lx' H1)).
Defined.

(** X20: Reading a text with no newline moves the column by its length and keeps the row; reading a newline moves to the next row and resets the column to 1, so after [a], a newline and [b] the column is one more than the length of [b]. *)
Theorem advance_lines a b r c :
  all_chars (fun ch => negb (Ascii.eqb ch "010"%char)) b = true ->
  advance b r c = (r, c + String.length b) /\
  advance (a ++ String "010"%char b)%string r c = (S (fst (advance a r c)), S (String.length b)).
Proof.
  intros Hb.
  assert (Hl : forall q k, advance b q k = (q, k + String.length b)).
  { clear a r c. induction b as [|ch b IH]; intros q k; [cbn; f_equal; lia|].
    cbn in Hb. apply andb_prop in Hb as [Hch Hb]. apply negb_true_iff in Hch.
    cbn [advance]. rewrite adv_not_nl by exact Hch. rewrite IH by exact Hb.
    cbn [String.length]. f_equal. lia. }
  split; [apply Hl|].
  rewrite advance_app. destruct (advance a r c) as [r1 c1]. cbn [fst]. exact (Hl (S r1) 1).
Qed.

Lemma advance_lines_witness :
  let a : string := "ab"%string in
  let b : string := "cd"%string in
  let r : nat := 1 in
  let c : nat := 1 in
  (all_chars (fun ch => negb (Ascii.eqb ch "010"%char)) b = true) /\
  (advance b r c = (r, c + String.length b) /\
  advance (a ++ String "010"%char b)%string r c = (S (fst (advance a r c)), S (String.length b))).
Proof.
  intros a b r c.
  assert (H1 : all_chars (fun ch => negb (Ascii.eqb ch "010"%char)) b = true) by (vm_compute; reflexivity).
  exact (conj H1 (advance_lines a b r c H1)).
Defined.

(** X8: A number compiles to one [RValue] and a parenthesised exprlist to the code of the exprlist alone; in both cases [parse_factor] returns right after the number or the closing parenthesis, without reading call arguments that follow, which only a primary takes. *)
Theorem factor_no_call n code lx code' lx' :
  parse_factor n code lx = Ok (code', lx') ->
  (forall v, lx_token lx = TNum v -> next_token lx = Ok lx' /\ code' = code ++ [RValue v]) /\
  (lx_token lx = TStr "(" ->
     exists m l1 c l2, next_token lx = Ok l1 /\ parse_exprlist m [] l1 = Ok (c, l2) /\
       expects ")" l2 = Ok lx' /\ code' = reloc code c).
Proof.
  destruct n as [|m]; [discriminate|].
  destruct (parse_reloc m) as (R1&_).
  cbn [parse_factor]. intros H. split.
  - intros v Hv. rewrite Hv in H. cbn [start_primary] in H. unfold obind in H.
    destruct (next_token lx); try discriminate. injection H as <- <-. done.
  - intros Hp. rewrite Hp in H.
    replace (start_primary (TStr "(")) with false in H by reflexivity. cbn iota in H.
    unfold obind in H. destruct (next_token lx) as [l1| |] eqn:En; try discriminate.
    rewrite R1 in H. destruct (parse_exprlist m [] l1) as [[c l2]| |] eqn:Ee;
      cbn [relocate] in H; try discriminate.
    destruct (expects ")" l2) as [l3| |] eqn:Ex; try discriminate.
    injection H as <- <-. exists m, l1, c, l2. done.
Qed.

Lemma factor_no_call_witness :
  let n : nat := 100 in
  let code : list instr := [] in
  let lx : lexer := mklexer "f" "(1)" 1 2 (TNum (VInt 5)) in
  let code' : list instr := [RValue (VInt 5)] in
  let lx' : lexer := mklexer "f" "1)" 1 3 (TStr "(") in
  (parse_factor n code lx = Ok (code', lx')) /\
  ((forall v, lx_token lx = TNum v -> next_token lx = Ok lx' /\ code' = code ++ [RValue v]) /\
  (lx_token lx = TStr "(" ->
     exists m l1 c l2, next_token lx = Ok l1 /\ parse_exprlist m [] l1 = Ok (c, l2) /\
       expects ")" l2 = Ok lx' /\ code' = reloc code c)).
Proof.
  intros n code lx code' lx'.
  assert (H1 : parse_factor n code lx = Ok (code', lx')) by (vm_compute; reflexivity).
  exact (conj H1 (factor_no_call n code lx code' lx' H1)).
Defined.
